(** * Surebet dashboard API: value parsers, header canonicalizer, row
      extractor, aggregator and request handlers

    A shallow embedding of [index.js] and [sheets.js].

    JavaScript data is kept as the program has it:
    - a string is its sequence of UTF-16 code units ([jsstring]);
    - a number is an IEEE 754 binary64 value ([float], Rocq's primitive
      floats), so that sums, quotients and comparisons round exactly as
      they do at run time;
    - a dynamically typed argument is a [value];
    - an object used as a dictionary is an association list in insertion
      order, read the way [Object.values] reads it. *)

From Stdlib Require Import Bool List String Ascii NArith ZArith Lia.
From Stdlib Require Import Floats Uint63 QArith Qcanon.
From Stdlib Require Import Permutation Sorted.
Import ListNotations.

Set Implicit Arguments.

(** ** JavaScript strings and the built-ins the program calls *)

Module JS.

Local Open Scope N_scope.

Definition codeunit := N.
Definition jsstring := list codeunit.

(** An ASCII literal as a JavaScript string. *)
Definition js (s : string) : jsstring :=
  List.map N_of_ascii (list_ascii_of_string s).

Fixpoint str_eqb (a b : jsstring) : bool :=
  match a, b with
  | [], [] => true
  | x :: a', y :: b' => N.eqb x y && str_eqb a' b'
  | _, _ => false
  end.

(** [a < b] on strings: code units compared left to right. *)
Fixpoint str_ltb (a b : jsstring) : bool :=
  match a, b with
  | _, [] => false
  | [], _ :: _ => true
  | x :: a', y :: b' => N.ltb x y || (N.eqb x y && str_ltb a' b')
  end.

(** The class [\s] of regular expressions, which is also the set that
    [trim] removes: WhiteSpace and LineTerminator of ECMA-262. *)
Definition is_ws (c : codeunit) : bool :=
  ((0x09 <=? c) && (c <=? 0x0D)) || (c =? 0x20) || (c =? 0xA0)
  || (c =? 0x1680) || ((0x2000 <=? c) && (c <=? 0x200A))
  || (c =? 0x2028) || (c =? 0x2029) || (c =? 0x202F) || (c =? 0x205F)
  || (c =? 0x3000) || (c =? 0xFEFF).

Fixpoint trimStart (s : jsstring) : jsstring :=
  match s with
  | [] => []
  | c :: t => if is_ws c then trimStart t else s
  end.

Fixpoint trimEnd (s : jsstring) : jsstring :=
  match s with
  | [] => []
  | c :: t =>
      match trimEnd t with
      | [] => if is_ws c then [] else [c]
      | t' => c :: t'
      end
  end.

Definition trim (s : jsstring) : jsstring := trimEnd (trimStart s).

Fixpoint starts_with (p s : jsstring) : bool :=
  match p, s with
  | [], _ => true
  | _ :: _, [] => false
  | a :: p', b :: s' => N.eqb a b && starts_with p' s'
  end.

(** [s.includes(needle)] *)
Fixpoint includes (s needle : jsstring) : bool :=
  starts_with needle s
  || match s with
     | [] => false
     | _ :: s' => includes s' needle
     end.

(** [s.split(" ")[0]]: the text before the first U+0020, the whole text
    when there is none. *)
Fixpoint before_first_space (s : jsstring) : jsstring :=
  match s with
  | [] => []
  | c :: t => if c =? 0x20 then [] else c :: before_first_space t
  end.

(** [s.replace(/R\$/gi, empty)]: every occurrence of [R] or [r] (code
    units 82 and 114) followed by [$] (36), found left to right, is
    deleted. *)
Definition is_R (c : codeunit) : bool := (c =? 82) || (c =? 114).

Fixpoint strip_currency (s : jsstring) : jsstring :=
  match s with
  | [] => []
  | c :: t =>
      match t with
      | d :: t' =>
          if is_R c && (d =? 36) then strip_currency t'
          else c :: strip_currency t
      | [] => [c]
      end
  end.

(** [s.replace(/\s|\u00A0/g, empty)] *)
Definition strip_ws (s : jsstring) : jsstring :=
  filter (fun c => negb (is_ws c || (c =? 0xA0))) s.

(** [s.replace(/\./g, empty)]; the code unit 46 is [.] *)
Definition strip_dots (s : jsstring) : jsstring :=
  filter (fun c => negb (c =? 46)) s.

(** [s.replace(",", ".")]: a string pattern replaces its first occurrence
    only; the code unit 44 is [,]. *)
Fixpoint replace_first_comma (s : jsstring) : jsstring :=
  match s with
  | [] => []
  | c :: t => if c =? 44 then 46 :: t else c :: replace_first_comma t
  end.

(** [s.replace(/[\u0300-\u036f]/g, empty)] *)
Definition strip_marks (s : jsstring) : jsstring :=
  filter (fun c => negb ((0x0300 <=? c) && (c <=? 0x036F))) s.

(** [s.replace(/\s+/g, " ")]: [in_run] tells that the previous code unit
    belonged to the run of white space being replaced. *)
Fixpoint collapse_from (in_run : bool) (s : jsstring) : jsstring :=
  match s with
  | [] => []
  | c :: t =>
      if is_ws c then
        if in_run then collapse_from true t else 0x20 :: collapse_from true t
      else c :: collapse_from false t
  end.

Definition collapse_ws (s : jsstring) : jsstring := collapse_from false s.

(** *** [Number(text)]: StringToNumber of ECMA-262 *)

Definition is_digit (c : codeunit) : bool := (48 <=? c) && (c <=? 57).

Definition digit_val (c : codeunit) : Z := Z.of_N (c - 48).

(** Value of a digit of base at most 16, when it is one. *)
Definition hex_val (c : codeunit) : option Z :=
  if is_digit c then Some (digit_val c)
  else if (65 <=? c) && (c <=? 70) then Some (Z.of_N (c - 55))
  else if (97 <=? c) && (c <=? 102) then Some (Z.of_N (c - 87))
  else None.

Fixpoint span_digits (s : jsstring) : list codeunit * jsstring :=
  match s with
  | [] => ([], [])
  | c :: t =>
      if is_digit c then let (ds, r) := span_digits t in (c :: ds, r)
      else ([], s)
  end.

Definition digits_value (ds : list codeunit) : Z :=
  fold_left (fun acc d => 10 * acc + digit_val d)%Z ds 0%Z.

(** All of [s] read as digits of [base] after [acc]; [None] when [s]
    holds another code unit. *)
Fixpoint radix_value (base : Z) (acc : Z) (s : jsstring) : option Z :=
  match s with
  | [] => Some acc
  | c :: t =>
      match hex_val c with
      | Some d => if (d <? base)%Z then radix_value base (base * acc + d)%Z t
                  else None
      | None => None
      end
  end.

(** A numeric literal once read: infinity, or [m * 10 ^ e]. *)
Inductive numlit :=
| LitInf
| LitDec (m e : Z).

(** ExponentPart, up to the end of the text: [e] or [E], an optional
    sign, digits. *)
Definition parse_exponent (s : jsstring) : option Z :=
  match s with
  | [] => Some 0%Z
  | c :: t =>
      if (c =? 101) || (c =? 69) then
        let '(neg, t') :=
          match t with
          | 43 :: u => (false, u)
          | 45 :: u => (true, u)
          | _ => (false, t)
          end in
        match span_digits t' with
        | ((_ :: _) as ds, []) =>
            Some (if neg then (- digits_value ds)%Z else digits_value ds)
        | _ => None
        end
      else None
  end.

(** StrUnsignedDecimalLiteral *)
Definition parse_unsigned_decimal (s : jsstring) : option numlit :=
  if str_eqb s (js "Infinity") then Some LitInf
  else
    let (ip, r1) := span_digits s in
    let '(fp, r2, ok) :=
      match r1 with
      | 46 :: r =>
          let (fp, r2) := span_digits r in
          (fp, r2, negb (Nat.eqb (List.length ip + List.length fp) 0))
      | _ => ([], r1, negb (Nat.eqb (List.length ip) 0))
      end in
    if ok then
      match parse_exponent r2 with
      | Some e =>
          Some (LitDec (digits_value (ip ++ fp)) (e - Z.of_nat (List.length fp))%Z)
      | None => None
      end
    else None.

(** The binary64 value nearest to [m * 10 ^ e], ties to even, for
    [m >= 0], with the sign [neg].  For a negative exponent the quotient
    is computed with at least 54 bits and the position of the remainder,
    which is what rounding to 53 bits needs. *)
Definition round_decimal (neg : bool) (m e : Z) : float :=
  match m with
  | Zpos p =>
      if (0 <=? e)%Z then
        SF2Prim (binary_round prec emax neg (Z.to_pos (m * 10 ^ e)) 0%Z)
      else
        let den := (10 ^ (- e))%Z in
        let k := (Z.max 0 (Zdigits2 den - Zdigits2 m + 54))%Z in
        let (q, r) := Z.div_eucl (m * 2 ^ k)%Z den in
        let loc := if (r =? 0)%Z then loc_Exact
                   else loc_Inexact (Z.compare (2 * r)%Z den) in
        SF2Prim (binary_round_aux prec emax neg q (- k)%Z loc)
  | _ => if neg then (- 0)%float else 0%float
  end.

Definition numlit_value (neg : bool) (l : numlit) : float :=
  match l with
  | LitInf => if neg then neg_infinity else infinity
  | LitDec m e => round_decimal neg m e
  end.

(** StrDecimalLiteral: an optional sign and an unsigned decimal literal. *)
Definition parse_decimal (s : jsstring) : option float :=
  let '(neg, u) :=
    match s with
    | 43 :: t => (false, t)
    | 45 :: t => (true, t)
    | _ => (false, s)
    end in
  option_map (numlit_value neg) (parse_unsigned_decimal u).

(** NonDecimalIntegerLiteral: [0x], [0o], [0b] in either case, unsigned,
    with at least one digit. *)
Definition parse_nondecimal (s : jsstring) : option float :=
  match s with
  | 48 :: p :: ((_ :: _) as ds) =>
      let base :=
        if (p =? 120) || (p =? 88) then Some 16%Z
        else if (p =? 111) || (p =? 79) then Some 8%Z
        else if (p =? 98) || (p =? 66) then Some 2%Z
        else None in
      match base with
      | Some b => option_map (fun n => round_decimal false n 0%Z)
                             (radix_value b 0%Z ds)
      | None => None
      end
  | _ => None
  end.

(** [Number(s)] for a string [s]: white space around the literal is
    dropped, the empty text is [+0], and a text that is no literal is
    [NaN]. *)
Definition Number (s : jsstring) : float :=
  let t := trim s in
  match t with
  | [] => 0%float
  | _ =>
      match parse_nondecimal t with
      | Some n => n
      | None =>
          match parse_decimal t with
          | Some n => n
          | None => nan
          end
      end
  end.

(** Values a cell or a query parameter can hold. *)
Inductive value :=
| VUndefined
| VNull
| VNum (n : float)
| VStr (s : jsstring).

(** Truthiness: what [!v], [v || d] and [v && e] test. *)
Definition truthy (v : value) : bool :=
  match v with
  | VUndefined | VNull => false
  | VNum n => negb (PrimFloat.eqb n 0%float || is_nan n)
  | VStr s => negb (str_eqb s [])
  end.

(** Built-ins that depend on the Unicode character database are left to
    the platform; every result below holds whatever they compute. *)
Class Platform := {
  toUpperCase : jsstring -> jsstring;
  toLowerCase : jsstring -> jsstring;
  normalizeNFD : jsstring -> jsstring
}.

Definition is_ascii (c : codeunit) : bool := c <? 128.

(** The canonical decomposition of a white space code unit: [U+2000] and
    [U+2001] decompose to [U+2002] and [U+2003], the others to
    themselves. *)
Definition nfd_space (c : codeunit) : codeunit :=
  if c =? 0x2000 then 0x2002 else if c =? 0x2001 then 0x2003 else c.

(** The built-ins on text made of ASCII and white space: only the letters
    [a]-[z] and [A]-[Z] change case, and ASCII text is its own canonical
    decomposition. *)
Definition ascii_upper (c : codeunit) : codeunit :=
  if (97 <=? c) && (c <=? 122) then c - 32 else c.

Definition ascii_lower (c : codeunit) : codeunit :=
  if (65 <=? c) && (c <=? 90) then c + 32 else c.

Definition ascii_platform : Platform := {|
  toUpperCase := List.map ascii_upper;
  toLowerCase := List.map ascii_lower;
  normalizeNFD := List.map nfd_space
|}.

End JS.

Import JS.
Local Open Scope N_scope.

(** ** Value parsers ([index.js]) *)

(** [parseNumber(v)] *)
Definition parseNumber (v : value) : float :=
  match v with
  | VUndefined | VNull => 0%float
  | VNum n => if is_nan n then 0%float else n
  | VStr s =>
      let s := replace_first_comma
                 (strip_dots (strip_ws (strip_currency s))) in
      let n := Number s in
      if is_nan n then 0%float else n
  end.

(** The match of [/^(\d{2})\/(\d{2})\/(\d{4})$/], rearranged as
    [`${y}-${mth}-${d}`]. *)
Definition match_date (datePart : jsstring) : option jsstring :=
  match datePart with
  | [d1; d2; s1; m1; m2; s2; y1; y2; y3; y4] =>
      if forallb is_digit [d1; d2; m1; m2; y1; y2; y3; y4]
         && (s1 =? 47) && (s2 =? 47)
      then Some [y1; y2; y3; y4; 45; m1; m2; 45; d1; d2]
      else None
  | _ => None
  end.

(** [parseDateISO(v)]; [None] is [null].  [String(v)] is [v] for a
    string; for a number it is made of digits, [.], [e], [+], [-] or is
    [Infinity] or [NaN], none of which matches the pattern. *)
Definition parseDateISO (v : value) : option jsstring :=
  if truthy v then
    match v with
    | VStr s =>
        let s := trim s in
        let datePart := before_first_space s in
        match_date datePart
    | _ => None
    end
  else None.

(** ** Header canonicalizer and row extractor ([sheets.js])

    The cells of a grid are strings: [values.get] is called without a
    render option, so the API returns every cell as formatted text.  For
    a string [cell], [cell || empty] is [cell]. *)

Section Sheets.

Context `{Platform}.

(** [norm(cell)] *)
Definition norm (cell : jsstring) : jsstring :=
  trim (collapse_ws (strip_marks (normalizeNFD (toUpperCase cell)))).

(** [canonicalHeaderName(raw)] *)
Definition canonicalHeaderName (raw : jsstring) : jsstring :=
  let n := norm raw in
  if includes n (js "DATA APOSTA") then js "DATA APOSTA"
  else if str_eqb n (js "LUCRO") then js "LUCRO"
  else if str_eqb n (js "STAKE") then js "STAKE"
  else if str_eqb n (js "CASA") || includes n (js "BOOK") then js "CASA"
  else if str_eqb n (js "ESPORTE") || str_eqb n (js "ESPORTES")
       then js "ESPORTE"
  else if includes n (js "DATA EVENTO") || includes n (js "DATA JOGO")
       then js "DATA EVENTO"
  else if str_eqb n (js "EVENTO") || str_eqb n (js "PARTIDA")
          || includes n (js "MATCH")
       then js "EVENTO"
  else trim raw.

Definition grid := list (list jsstring).

(** The object built for a data row: its own properties, in creation
    order. *)
Definition row_obj := list (jsstring * jsstring).

Fixpoint obj_get (k : jsstring) (o : row_obj) : option jsstring :=
  match o with
  | [] => None
  | (k', v) :: o' => if str_eqb k k' then Some v else obj_get k o'
  end.

Fixpoint obj_replace (k v : jsstring) (o : row_obj) : row_obj :=
  match o with
  | [] => []
  | (k', v') :: o' =>
      if str_eqb k k' then (k', v) :: o' else (k', v') :: obj_replace k v o'
  end.

(** [obj[k] = v] for a string [v]: assigning a string to [__proto__] is
    ignored by the setter inherited from [Object.prototype]. *)
Definition obj_set (k v : jsstring) (o : row_obj) : row_obj :=
  if str_eqb k (js "__proto__") then o
  else match obj_get k o with
       | Some _ => obj_replace k v o
       | None => o ++ [(k, v)]
       end.

(** [values.findIndex(p)]; [None] is [-1]. *)
Fixpoint findIndex (A : Type) (p : A -> bool) (l : list A) : option nat :=
  match l with
  | [] => None
  | x :: t => if p x then Some O else option_map S (findIndex p t)
  end.

Definition is_header_row (row : list jsstring) : bool :=
  existsb (fun cell => includes (norm cell) (js "DATA APOSTA")) row.

Definition is_data_row (row : list jsstring) : bool :=
  existsb (fun cell => negb (str_eqb (trim cell) [])) row.

(** [header.forEach((col, idx) => { if (!col) return;
    obj[col] = row[idx] ?? empty })], from column [idx] on. *)
Fixpoint project_from (idx : nat) (header row : list jsstring)
    (obj : row_obj) : row_obj :=
  match header with
  | [] => obj
  | col :: rest =>
      project_from (S idx) rest row
        (if str_eqb col [] then obj else obj_set col (nth idx row []) obj)
  end.

Record extracted := {
  header : option (list jsstring);
  rows : list row_obj
}.

(** [extractRowsFromValues(values, mainHeader)]; a [mainHeader] of [None]
    is [null]. *)
Definition extractRowsFromValues (values : grid)
    (mainHeader : option (list jsstring)) : extracted :=
  match values with
  | [] => {| header := mainHeader; rows := [] |}
  | _ :: _ =>
      match findIndex is_header_row values with
      | None => {| header := mainHeader; rows := [] |}
      | Some headerIndex =>
          let headerRow := nth headerIndex values [] in
          let headerRaw :=
            match mainHeader with
            | Some h => h
            | None => headerRow
            end in
          let header := List.map canonicalHeaderName headerRaw in
          let dataRows :=
            filter is_data_row (skipn (S headerIndex) values) in
          {| header := Some header;
             rows := List.map (fun row => project_from 0 header row [])
                              dataRows |}
      end
  end.

(** One tab of a spreadsheet as [getSheetRows] meets it: its title, and
    what [values.get] answered, [None] when the call threw. *)
Record tab := {
  title : option jsstring;
  fetched : option grid
}.

(** Body of the loop over the tabs: the state is [(allRows, mainHeader)]. *)
Definition tab_step (st : list row_obj * option (list jsstring)) (t : tab)
    : list row_obj * option (list jsstring) :=
  let (allRows, mainHeader) := st in
  match title t with
  | None | Some [] => st
  | Some _ =>
      match fetched t with
      | None => st
      | Some [] => st
      | Some values =>
          let r := extractRowsFromValues values mainHeader in
          let mainHeader' :=
            match mainHeader, header r with
            | None, Some h => Some h
            | _, _ => mainHeader
            end in
          (allRows ++ rows r, mainHeader')
      end
  end.

(** [getSheetRows] on a range without [!]: every tab in turn. *)
Definition getSheetRows_tabs (tabs : list tab) : list row_obj :=
  fst (fold_left tab_step tabs ([], None)).

(** [getSheetRows] on a range with [!]: one tab. *)
Definition getSheetRows_one (values : grid) : list row_obj :=
  match values with
  | [] => []
  | _ => rows (extractRowsFromValues values None)
  end.

End Sheets.

(** ** Numbers

    The aggregator only adds, multiplies, divides and compares.  It is
    written once over this interface and run at [float], which is what
    the program computes with; the instance at the rationals [Qc] is the
    same program in exact arithmetic, and tells a rounding effect from a
    property of the algorithm. *)

Class Num (A : Type) := {
  nzero : A;
  nadd : A -> A -> A;
  nmul : A -> A -> A;
  ndiv : A -> A -> A;
  nopp : A -> A;
  nltb : A -> A -> bool;
  (** [!x] on a number: zero and NaN are falsy *)
  nfalsy : A -> bool;
  (** a count (an array length, a counter) as a number *)
  of_count : nat -> A;
  n100 : A;
  (** the literal [1e-6] *)
  EPS : A
}.

#[global] Instance float_Num : Num float := {
  nzero := 0%float;
  nadd := PrimFloat.add;
  nmul := PrimFloat.mul;
  ndiv := PrimFloat.div;
  nopp := PrimFloat.opp;
  nltb := PrimFloat.ltb;
  nfalsy := fun x => PrimFloat.eqb x 0%float || is_nan x;
  (* exact for the counts met here, which are array lengths, below 2^32 *)
  of_count := fun n => PrimFloat.of_uint63 (Uint63.of_Z (Z.of_nat n));
  n100 := 100%float;
  EPS := 0x1.0c6f7a0b5ed8dp-20%float
}.

Definition Qc_ltb (a b : Qc) : bool :=
  match (a ?= b)%Qc with
  | Lt => true
  | _ => false
  end.

#[global] Instance Qc_Num : Num Qc := {
  nzero := 0%Qc;
  nadd := Qcplus;
  nmul := Qcmult;
  ndiv := Qcdiv;
  nopp := Qcopp;
  nltb := Qc_ltb;
  nfalsy := fun x => Qc_eq_bool x 0%Qc;
  of_count := fun n => Q2Qc (inject_Z (Z.of_nat n));
  n100 := Q2Qc (inject_Z 100);
  EPS := Q2Qc (1 # 1000000)
}.

(** ** Aggregator ([index.js]) *)

Section Aggregator.

Context {A : Type} `{Num A}.

(** NormalizedRecord: one element of [data]. *)
Record record := {
  dataAposta : option jsstring;
  operador : jsstring;
  casa : jsstring;
  esporte : jsstring;
  evento : jsstring;
  dataEvento : jsstring;
  stake : A;
  lucro : A
}.

(** Entry: one value of [gruposMap]. *)
Record grupo := {
  g_dataAposta : option jsstring;
  g_operador : jsstring;
  g_evento : jsstring;
  g_esporte : jsstring;
  lucroTotal : A;
  stakeTotal : A
}.

(** *** Dictionaries *)

Fixpoint alist_get (V : Type) (k : jsstring) (m : list (jsstring * V))
    : option V :=
  match m with
  | [] => None
  | (k', v) :: m' => if str_eqb k k' then Some v else alist_get k m'
  end.

(** The binding of [k], when there is one, becomes [f] of itself. *)
Fixpoint alist_adjust (V : Type) (k : jsstring) (f : V -> V)
    (m : list (jsstring * V)) : list (jsstring * V) :=
  match m with
  | [] => []
  | (k', v) :: m' =>
      if str_eqb k k' then (k', f v) :: m'
      else (k', v) :: alist_adjust k f m'
  end.

(** [if (!m.has(k)) m.set(k, v)] *)
Definition alist_ensure (V : Type) (k : jsstring) (v : V)
    (m : list (jsstring * V)) : list (jsstring * V) :=
  match alist_get k m with
  | Some _ => m
  | None => m ++ [(k, v)]
  end.

(** The names every object literal inherits from [Object.prototype]: for
    such a key [k], [obj[k]] is a function (or the prototype itself) even
    when [obj] has no property [k] of its own. *)
Definition inherited (k : jsstring) : bool :=
  existsb (str_eqb k)
    (List.map js
       ["constructor"; "__defineGetter__"; "__defineSetter__";
        "hasOwnProperty"; "__lookupGetter__"; "__lookupSetter__";
        "isPrototypeOf"; "propertyIsEnumerable"; "toString"; "valueOf";
        "__proto__"; "toLocaleString"]%string).

(** An array index: the canonical decimal form of an integer below
    [2^32 - 1]. *)
Definition array_index (k : jsstring) : option N :=
  match k with
  | [] => None
  | c :: t =>
      if forallb is_digit k && (negb (c =? 48) || str_eqb t []) then
        let n := Z.to_N (digits_value k) in
        if n <? 4294967295 then Some n else None
      else None
  end.

Definition is_index (V : Type) (kv : jsstring * V) : bool :=
  match array_index (fst kv) with
  | Some _ => true
  | None => false
  end.

Definition index_of (k : jsstring) : N :=
  match array_index k with
  | Some n => n
  | None => 0
  end.

Fixpoint insert_by_index (V : Type) (kv : jsstring * V)
    (l : list (jsstring * V)) : list (jsstring * V) :=
  match l with
  | [] => [kv]
  | kv' :: l' =>
      if index_of (fst kv) <=? index_of (fst kv') then kv :: l
      else kv' :: insert_by_index kv l'
  end.

(** [Object.entries(obj)]: the array indices in ascending order, then the
    other keys in creation order. *)
Definition own_entries (V : Type) (m : list (jsstring * V))
    : list (jsstring * V) :=
  fold_right (@insert_by_index V) [] (filter (@is_index V) m)
  ++ filter (fun kv => negb (is_index kv)) m.

(** *** Grouping records into entries *)

(** [`${d.dataAposta || empty}|${(d.evento || empty).toLowerCase().trim()}|${d.operador}`] *)
Definition entry_key `{Platform} (d : record) : jsstring :=
  match dataAposta d with
  | Some s => s
  | None => []
  end
  ++ [124] ++ trim (toLowerCase (evento d)) ++ [124] ++ operador d.

(** Body of the loop that fills [gruposMap], a [Map]. *)
Definition group_step `{Platform} (m : list (jsstring * grupo)) (d : record)
    : list (jsstring * grupo) :=
  let key := entry_key d in
  let m :=
    alist_ensure key
      {| g_dataAposta := dataAposta d;
         g_operador := operador d;
         g_evento := evento d;
         g_esporte := esporte d;
         lucroTotal := nzero;
         stakeTotal := nzero |} m in
  alist_adjust key
    (fun g =>
       {| g_dataAposta := g_dataAposta g;
          g_operador := g_operador g;
          g_evento := g_evento g;
          g_esporte := g_esporte g;
          lucroTotal := nadd (lucroTotal g) (lucro d);
          stakeTotal := nadd (stakeTotal g) (stake d) |}) m.

(** [Array.from(gruposMap.values())] after the loop over [data]. *)
Definition group_entries `{Platform} (data : list record) : list grupo :=
  List.map snd (fold_left group_step data []).

(** *** [buildStatsFromData] *)

(** A value of [operadorMap], [casaMap] or [esporteMap]; the key is also
    stored in the field named [operador], [casa] or [esporte]. *)
Record acc := {
  a_key : jsstring;
  entradas : nat;
  a_lucro : A;
  stake_total : A
}.

(** An element of [porOperador], [porCasa] or [porEsporte]. *)
Record breakdown := {
  b_key : jsstring;
  b_entradas : nat;
  b_lucro : A;
  b_stake_total : A;
  yield_percent : A
}.

Record overview_t := {
  totalLucro : A;
  totalStake : A;
  totalApostas : nat;
  yieldPercent : A;
  greenPercent : A;
  redPercent : A
}.

Record stats := {
  overview : overview_t;
  lucroPorDia : list (jsstring * A);
  porOperador : list breakdown;
  porCasa : list breakdown;
  porEsporte : list breakdown
}.

(** Body of the three loops that fill a dictionary of counters: [k] is
    the key of the element, [l] and [s] its profit and stake.  A key that
    names an inherited property finds that property instead of a counter:
    nothing is created and the additions land on the inherited object. *)
Definition acc_step (k : jsstring) (l s : A) (m : list (jsstring * acc))
    : list (jsstring * acc) :=
  if inherited k then m
  else
    let m :=
      alist_ensure k
        {| a_key := k; entradas := 0; a_lucro := nzero;
           stake_total := nzero |} m in
    alist_adjust k
      (fun o =>
         {| a_key := a_key o;
            entradas := entradas o + 1;
            a_lucro := nadd (a_lucro o) l;
            stake_total := nadd (stake_total o) s |}) m.

(** [Object.values(map).map((o) => ({...o, yield_percent: ...}))] *)
Definition finish (m : list (jsstring * acc)) : list breakdown :=
  List.map
    (fun kv : jsstring * acc =>
       let o := snd kv in
       {| b_key := a_key o;
          b_entradas := entradas o;
          b_lucro := a_lucro o;
          b_stake_total := stake_total o;
          yield_percent :=
            if nltb nzero (stake_total o)
            then nmul (ndiv (a_lucro o) (stake_total o)) n100
            else nzero |})
    (own_entries m).

Definition operador_step (m : list (jsstring * acc)) (g : grupo) :=
  acc_step (g_operador g) (lucroTotal g) (stakeTotal g) m.

Definition casa_step (m : list (jsstring * acc)) (d : record) :=
  if str_eqb (casa d) [] then m
  else acc_step (casa d) (lucro d) (stake d) m.

Definition esporte_step (m : list (jsstring * acc)) (d : record) :=
  if str_eqb (esporte d) [] then m
  else acc_step (esporte d) (lucro d) (stake d) m.

(** Body of the loop that fills [lucroPorDiaMap].  The keys are dates of
    the shape [parseDateISO] returns, none of which is an inherited
    name. *)
Definition dia_step (m : list (jsstring * A)) (d : record)
    : list (jsstring * A) :=
  match dataAposta d with
  | None | Some [] => m
  | Some k =>
      let m :=
        match alist_get k m with
        | None => m ++ [(k, nzero)]
        | Some v => if nfalsy v then alist_adjust k (fun _ => nzero) m else m
        end in
      alist_adjust k (fun v => nadd v (lucro d)) m
  end.

(** Insertion with the comparator [(a, b) => (a.date < b.date ? -1 : 1)]. *)
Fixpoint insert_by_date (kv : jsstring * A) (l : list (jsstring * A))
    : list (jsstring * A) :=
  match l with
  | [] => [kv]
  | kv' :: l' =>
      if str_ltb (fst kv) (fst kv') then kv :: l
      else kv' :: insert_by_date kv l'
  end.

(** [.sort(...)] on the entries of an object: their keys are pairwise
    distinct, so the comparator orders them totally and the result is the
    ascending list whatever the sorting algorithm. *)
Definition sort_by_date (l : list (jsstring * A)) : list (jsstring * A) :=
  fold_right insert_by_date [] l.

Definition count (V : Type) (p : V -> bool) (l : list V) : nat :=
  List.length (filter p l).

(** [buildStatsFromData(data, grupos)] *)
Definition buildStatsFromData (data : list record) (grupos : list grupo)
    : stats :=
  let totalEntradas := List.length grupos in
  let totalStake := fold_left (fun sum d => nadd sum (stake d)) data nzero in
  let totalLucro := fold_left (fun sum d => nadd sum (lucro d)) data nzero in
  let yieldPercent :=
    if nltb nzero totalStake then nmul (ndiv totalLucro totalStake) n100
    else nzero in
  let greens := count (fun g => nltb EPS (lucroTotal g)) grupos in
  let reds := count (fun g => nltb (lucroTotal g) (nopp EPS)) grupos in
  let totalResolvidas := (greens + reds)%nat in
  let greenPercent :=
    if (0 <? totalResolvidas)%nat
    then nmul (ndiv (of_count greens) (of_count totalResolvidas)) n100
    else nzero in
  let redPercent :=
    if (0 <? totalResolvidas)%nat
    then nmul (ndiv (of_count reds) (of_count totalResolvidas)) n100
    else nzero in
  {| overview :=
       {| totalLucro := totalLucro;
          totalStake := totalStake;
          totalApostas := totalEntradas;
          yieldPercent := yieldPercent;
          greenPercent := greenPercent;
          redPercent := redPercent |};
     lucroPorDia := sort_by_date (own_entries (fold_left dia_step data []));
     porOperador := finish (fold_left operador_step grupos []);
     porCasa := finish (fold_left casa_step data []);
     porEsporte := finish (fold_left esporte_step data []) |}.

End Aggregator.

Arguments record A : clear implicits.
Arguments grupo A : clear implicits.
Arguments acc A : clear implicits.
Arguments breakdown A : clear implicits.
Arguments overview_t A : clear implicits.
Arguments stats A : clear implicits.

(** ** Request handlers ([index.js])

    The database and the spreadsheet service are outside the program: a
    [world] gives the outcome of each call a handler makes to them.  A
    handler is a computation over the cache that returns or throws, run
    under its [try]/[catch]. *)

(** A row of the table [sheets]. *)
Record sheet := {
  sheet_id : N;
  sheet_name : jsstring;
  google_sheet_id : jsstring;
  sheet_range : jsstring
}.

(** A thrown [Error]. *)
Record exn := { message : jsstring }.

Inductive outcome (T : Type) :=
| Returned (x : T)
| Thrown (e : exn).

Arguments Returned {T} x.
Arguments Thrown {T} e.

(** What [res.json] is given. *)
Inductive jfield :=
| JStr (s : jsstring)
| JBool (b : bool).

Inductive json :=
| JRow (s : option sheet)
| JRows (l : list sheet)
| JStats (s : stats float)
| JObj (fields : list (jsstring * jfield)).

Record response := {
  status : nat;
  body : json
}.

Record world := {
  (** [dbAll("SELECT * FROM sheets ORDER BY id DESC")] *)
  db_all_desc : outcome (list sheet);
  (** [dbAll("SELECT * FROM sheets")] *)
  db_all : outcome (list sheet);
  (** [dbGet("SELECT * FROM sheets WHERE id = ?", [id])] *)
  db_get : value -> outcome (option sheet);
  (** [dbRun("INSERT ...", [name, googleSheetId, range])], giving [lastID] *)
  db_insert : jsstring -> jsstring -> jsstring -> outcome float;
  (** [dbRun("DELETE FROM sheets WHERE id = ?", [id])] *)
  db_delete : value -> outcome unit;
  (** [getSheetRows(sheet.google_sheet_id, sheet.range)] *)
  fetch_rows : sheet -> outcome (list row_obj)
}.

(** [sheetRowsCache]: the rows by [sheet.id] (the time stamp kept with
    them is never read). *)
Definition cache := list (N * list row_obj).

Fixpoint cache_get (id : N) (c : cache) : option (list row_obj) :=
  match c with
  | [] => None
  | (id', rs) :: c' => if id =? id' then Some rs else cache_get id c'
  end.

Definition cache_delete (id : N) (c : cache) : cache :=
  filter (fun e => negb (id =? fst e)) c.

Definition cache_set (id : N) (rs : list row_obj) (c : cache) : cache :=
  match cache_get id c with
  | Some _ =>
      List.map (fun e : N * list row_obj =>
                  if id =? fst e then (fst e, rs) else e) c
  | None => c ++ [(id, rs)]
  end.

(** Computations that read and write the cache and may throw. *)
Definition M (T : Type) := cache -> outcome T * cache.

Definition ret (T : Type) (x : T) : M T := fun c => (Returned x, c).

Definition bind (T U : Type) (m : M T) (k : T -> M U) : M U :=
  fun c =>
    match m c with
    | (Returned x, c') => k x c'
    | (Thrown e, c') => (Thrown e, c')
    end.

(** [await] of a call to the outside. *)
Definition await (T : Type) (o : outcome T) : M T := fun c => (o, c).

Definition modify (f : cache -> cache) : M unit :=
  fun c => (Returned tt, f c).

Notation "x <- m ;; k" := (bind m (fun x => k))
  (at level 61, m at next level, right associativity).

(** [try { body } catch (err) { handler }] *)
Definition try_catch (T : Type) (m : M T) (handler : exn -> T)
    : cache -> T * cache :=
  fun c =>
    match m c with
    | (Returned x, c') => (x, c')
    | (Thrown e, c') => (handler e, c')
    end.

(** [res.json(x)], [res.status(n).json(x)] *)
Definition send (x : json) : response := {| status := 200; body := x |}.
Definition send_status (n : nat) (x : json) : response :=
  {| status := n; body := x |}.

Definition error_only (msg : jsstring) : json :=
  JObj [(js "error", JStr msg)].

Definition error_detail (msg : jsstring) (err : exn) : json :=
  JObj [(js "error", JStr msg); (js "detail", JStr (message err))].

(** The parts of a request the handlers read; [None] is an absent
    parameter. *)
Record request := {
  q_sheetDbId : option jsstring;
  q_operador : option jsstring;
  q_from : option jsstring;
  q_to : option jsstring;
  p_id : jsstring;
  b_name : option jsstring;
  b_googleSheetId : option jsstring;
  b_range : option jsstring
}.

(** [x || d] and truthiness for an optional string. *)
Definition or_default (x : option jsstring) (d : jsstring) : jsstring :=
  match x with
  | Some ((_ :: _) as s) => s
  | _ => d
  end.

Definition given (x : option jsstring) : bool :=
  match x with
  | Some (_ :: _) => true
  | _ => false
  end.

Section Handlers.

Context `{Platform}.

(** [getCachedSheetRows(sheet)] for a request that runs with no other
    request in between: the [get], the [await] of the rows and the [set]
    are one step.  [getCachedSheetRows_overlapped] below lets other
    requests in at the [await]. *)
Definition getCachedSheetRows (w : world) (s : sheet) : M (list row_obj) :=
  fun c =>
    match cache_get (sheet_id s) c with
    | Some rs => (Returned rs, c)
    | None =>
        match fetch_rows w s with
        | Returned rs => (Returned rs, cache_set (sheet_id s) rs c)
        | Thrown e => (Thrown e, c)
        end
    end.

(** [r[k]] *)
Definition cell (r : row_obj) (k : string) : value :=
  match obj_get (js k) r with
  | Some s => VStr s
  | None => VUndefined
  end.

(** [r[k] || empty] *)
Definition text (r : row_obj) (k : string) : jsstring :=
  or_default (obj_get (js k) r) [].

(** [(sheet.name || "SEM OPERADOR").trim()] *)
Definition operador_of (s : sheet) : jsstring :=
  trim (or_default (Some (sheet_name s)) (js "SEM OPERADOR")).

(** The object pushed on [data]. *)
Definition make_record (dataApostaISO op : jsstring) (r : row_obj)
    : record float :=
  {| dataAposta := Some dataApostaISO;
     operador := op;
     casa := text r "CASA";
     esporte := text r "ESPORTE";
     evento := trim (text r "EVENTO");
     dataEvento := trim (text r "DATA EVENTO");
     stake := parseNumber (cell r "STAKE");
     lucro := parseNumber (cell r "LUCRO") |}.

(** [from && dataApostaISO < from] or [to && dataApostaISO > to] *)
Definition out_of_range (q : request) (dataApostaISO : jsstring) : bool :=
  (given (q_from q) && str_ltb dataApostaISO (or_default (q_from q) []))
  || (given (q_to q) && str_ltb (or_default (q_to q) []) dataApostaISO).

(** Body of the loop over [rows] in [/api/dashboard/overview]. *)
Definition overview_row_step (s : sheet) (q : request)
    (data : list (record float)) (r : row_obj) : list (record float) :=
  match parseDateISO (cell r "DATA APOSTA") with
  | None | Some [] => data
  | Some dataApostaISO =>
      let op := operador_of s in
      if given (q_operador q)
         && negb (str_eqb op (or_default (q_operador q) []))
      then data
      else if out_of_range q dataApostaISO then data
      else data ++ [make_record dataApostaISO op r]
  end.

Definition overview_data (s : sheet) (q : request) (rows : list row_obj)
    : list (record float) :=
  fold_left (overview_row_step s q) rows [].

(** What [/api/dashboard/overview] answers once it has the rows. *)
Definition overview_result (s : sheet) (q : request) (rows : list row_obj)
    : stats float :=
  let data := overview_data s q rows in
  buildStatsFromData data (group_entries data).

(** Body of the inner loop of [/api/dashboard/overview-all]: the state is
    [(data, gruposMap)]. *)
Definition all_row_step (opName : jsstring) (q : request)
    (st : list (record float) * list (jsstring * grupo float))
    (r : row_obj) : list (record float) * list (jsstring * grupo float) :=
  match parseDateISO (cell r "DATA APOSTA") with
  | None | Some [] => st
  | Some dataApostaISO =>
      if out_of_range q dataApostaISO then st
      else
        let d := make_record dataApostaISO opName r in
        (fst st ++ [d], group_step (snd st) d)
  end.

(** The outer loop of [/api/dashboard/overview-all]. *)
Fixpoint all_sheets_loop (w : world) (q : request) (sheets : list sheet)
    (st : list (record float) * list (jsstring * grupo float))
    : M (list (record float) * list (jsstring * grupo float)) :=
  match sheets with
  | [] => ret st
  | s :: rest =>
      let opName := operador_of s in
      if given (q_operador q)
         && negb (str_eqb opName (or_default (q_operador q) []))
      then all_sheets_loop w q rest st
      else
        rows <- getCachedSheetRows w s ;;
        all_sheets_loop w q rest (fold_left (all_row_step opName q) rows st)
  end.

Definition all_result
    (st : list (record float) * list (jsstring * grupo float))
    : stats float :=
  buildStatsFromData (fst st) (List.map snd (snd st)).

Inductive endpoint :=
| GetSheets
| PostSheets
| DeleteSheet
| RefreshSheets
| Overview
| OverviewAll.

(** The statements inside [try] of each handler. *)
Definition handler_body (ep : endpoint) (w : world) (req : request)
    : M response :=
  match ep with
  | GetSheets =>
      rows <- await (db_all_desc w) ;;
      ret (send (JRows rows))
  | PostSheets =>
      if negb (given (b_name req)) || negb (given (b_googleSheetId req))
      then
        ret (send_status 400
               (error_only (js "name e googleSheetId s" ++ [227]
                              ++ js "o obrigat" ++ [243] ++ js "rios")))
      else
        lastID <- await (db_insert w (or_default (b_name req) [])
                           (or_default (b_googleSheetId req) [])
                           (or_default (b_range req)
                              (js "NOVEMBRO!A1:Z1000"))) ;;
        created <- await (db_get w (VNum lastID)) ;;
        _ <- modify (fun _ => []) ;;
        ret (send_status 201 (JRow created))
  | DeleteSheet =>
      found <- await (db_get w (VStr (p_id req))) ;;
      match found with
      | None =>
          ret (send_status 404
                 (error_only (js "Planilha n" ++ [227]
                                ++ js "o encontrada")))
      | Some s =>
          _ <- await (db_delete w (VStr (p_id req))) ;;
          _ <- modify (cache_delete (sheet_id s)) ;;
          ret (send (JObj [(js "success", JBool true)]))
      end
  | RefreshSheets =>
      _ <- modify (fun _ => []) ;;
      ret (send (JObj
                   [(js "ok", JBool true);
                    (js "message",
                     JStr (js "Cache de planilhas limpo. Na pr" ++ [243]
                             ++ js "xima carga do dashboard ele vai ler tudo de novo do Google Sheets."))]))
  | Overview =>
      if negb (given (q_sheetDbId req))
      then
        ret (send_status 400
               (error_only (js "sheetDbId " ++ [233] ++ js " obrigat"
                              ++ [243] ++ js "rio")))
      else
        found <- await (db_get w (VStr (or_default (q_sheetDbId req) []))) ;;
        match found with
        | None =>
            ret (send_status 404
                   (error_only (js "Planilha n" ++ [227]
                                  ++ js "o encontrada")))
        | Some s =>
            rows <- getCachedSheetRows w s ;;
            ret (send (JStats (overview_result s req rows)))
        end
  | OverviewAll =>
      sheets <- await (db_all w) ;;
      match sheets with
      | [] =>
          ret (send_status 400
                 (error_only (js "Nenhuma planilha cadastrada")))
      | _ =>
          st <- all_sheets_loop w req sheets ([], []) ;;
          ret (send (JStats (all_result st)))
      end
  end.

(** The [catch] clause of each handler. *)
Definition handler_catch (ep : endpoint) (err : exn) : response :=
  match ep with
  | GetSheets =>
      send_status 500 (error_only (js "Erro ao listar planilhas"))
  | PostSheets =>
      send_status 500 (error_only (js "Erro ao cadastrar planilha"))
  | DeleteSheet =>
      send_status 500 (error_only (js "Erro ao remover planilha"))
  | RefreshSheets =>
      send_status 500 (error_detail (js "Erro ao limpar cache") err)
  | Overview =>
      send_status 500 (error_detail (js "Erro ao montar overview") err)
  | OverviewAll =>
      send_status 500 (error_detail (js "Erro ao montar overview geral") err)
  end.

Definition handle (ep : endpoint) (w : world) (req : request)
    : cache -> response * cache :=
  try_catch (handler_body ep w req) (handler_catch ep).

End Handlers.


(** ** The specification's statements, in its own words

    Each definition below follows a sentence of the specification and is
    compared with the program in the theorems. *)

(** parseNumber as specified: the cleaned text is parsed base-10, and
    anything that is not a base-10 number gives 0. *)
Definition parseNumber_spec (v : value) : float :=
  match v with
  | VNum n => if is_nan n then 0%float else n
  | VUndefined | VNull => 0%float
  | VStr s =>
      match parse_decimal
              (replace_first_comma
                 (strip_dots (strip_ws (strip_currency s)))) with
      | Some n => if is_nan n then 0%float else n
      | None => 0%float
      end
  end.

(** What [Number] reads, case by case: nothing, a literal with a radix
    prefix, a base-10 literal, or none of these. *)
Definition numeric_literal (t : jsstring) : float :=
  match t with
  | [] => 0%float
  | _ =>
      match parse_nondecimal t with
      | Some n => n
      | None =>
          match parse_decimal t with
          | Some n => n
          | None => nan
          end
      end
  end.

(** [t] is two digits, a slash, two digits, a slash and four digits, and
    [iso] is the year, the month and the day joined by dashes. *)
Definition date_text (t iso : jsstring) : Prop :=
  exists d1 d2 m1 m2 y1 y2 y3 y4,
    forallb is_digit [d1; d2; m1; m2; y1; y2; y3; y4] = true
    /\ t = [d1; d2; 47; m1; m2; 47; y1; y2; y3; y4]
    /\ iso = [y1; y2; y3; y4; 45; m1; m2; 45; d1; d2].

(** parseDateISO as specified: the pattern is matched against the text
    before the first space of the input. *)
Definition parseDateISO_spec (v : value) : option jsstring :=
  match v with
  | VStr s => match_date (before_first_space s)
  | _ => None
  end.

(** The matching rules of the header canonicalizer, in priority order:
    a test on the normalized text and the canonical name it gives. *)
Definition equals (name : string) (n : jsstring) : bool :=
  str_eqb n (js name).

Definition contains (name : string) (n : jsstring) : bool :=
  includes n (js name).

Definition header_rules : list ((jsstring -> bool) * jsstring) :=
  [ (contains "DATA APOSTA", js "DATA APOSTA");
    (equals "LUCRO", js "LUCRO");
    (equals "STAKE", js "STAKE");
    (fun n => equals "CASA" n || contains "BOOK" n, js "CASA");
    (fun n => equals "ESPORTE" n || equals "ESPORTES" n, js "ESPORTE");
    (fun n => contains "DATA EVENTO" n || contains "DATA JOGO" n,
     js "DATA EVENTO");
    (fun n => equals "EVENTO" n || equals "PARTIDA" n || contains "MATCH" n,
     js "EVENTO") ].

Fixpoint first_match (rules : list ((jsstring -> bool) * jsstring))
    (n fallback : jsstring) : jsstring :=
  match rules with
  | [] => fallback
  | (test, name) :: rest =>
      if test n then name else first_match rest n fallback
  end.

(** Uppercase, strip diacritics, collapse white space runs, trim. *)
Definition normalize_spec `{Platform} (raw : jsstring) : jsstring :=
  trim (collapse_ws (strip_marks (normalizeNFD (toUpperCase raw)))).

Definition canonical_spec `{Platform} (raw : jsstring) : jsstring :=
  first_match header_rules (normalize_spec raw) (trim raw).

(** Facts about the Unicode built-ins that the header lock relies on.
    White space has no case and decomposes to one white space starter, so
    a white space code unit at either end of a text stays at that end; on
    ASCII text the built-ins are the ASCII ones. *)
Class PlatformLaws `{Platform} : Prop := {
  upper_ascii : forall s,
    forallb is_ascii s = true -> toUpperCase s = List.map ascii_upper s;
  nfd_ascii : forall s,
    forallb is_ascii s = true -> normalizeNFD s = s;
  upper_ws_head : forall c s,
    is_ws c = true -> toUpperCase (c :: s) = c :: toUpperCase s;
  upper_ws_last : forall c s,
    is_ws c = true -> toUpperCase (s ++ [c]) = toUpperCase s ++ [c];
  nfd_ws_head : forall c s,
    is_ws c = true -> normalizeNFD (c :: s) = nfd_space c :: normalizeNFD s;
  nfd_ws_last : forall c s,
    is_ws c = true ->
    normalizeNFD (s ++ [c]) = normalizeNFD s ++ [nfd_space c]
}.

(** A header as an earlier tab established it: the canonical names of
    some header row. *)
Definition established `{Platform} (h : list jsstring) : Prop :=
  exists headerRow, h = List.map canonicalHeaderName headerRow.

(** The row has a usable date. *)
Definition has_date (r : row_obj) : bool :=
  match parseDateISO
          (match obj_get (js "DATA APOSTA") r with
           | Some s => VStr s
           | None => VUndefined
           end) with
  | None | Some [] => false
  | Some _ => true
  end.

(** Sum of a list of numbers, the way [reduce] adds them. *)
Definition total (A : Type) `{Num A} (l : list A) : A :=
  fold_left nadd l nzero.


(** Records with the same entry key come from the same operator. *)
Definition key_fixes_operador `{Platform} (A : Type)
    (data : list (record A)) : Prop :=
  forall d d', In d data -> In d' data ->
    entry_key d = entry_key d' -> operador d = operador d'.

(** ** Auxiliary definitions for the proofs about the aggregator *)

(** The common shape of the loops that fill a dictionary: an element is
    skipped, or it creates the binding of its key when there is none and
    then updates it. *)
Section KeyedLoop.

Variables (X V : Type).
Variable skip : X -> bool.
Variable key : X -> jsstring.
Variable init : X -> V.
Variable upd : X -> V -> V.

Definition keyed_step (m : list (jsstring * V)) (x : X)
    : list (jsstring * V) :=
  if skip x then m
  else alist_adjust (key x) (upd x) (alist_ensure (key x) (init x) m).

(** The elements that reach the binding of [k]. *)
Definition selected (k : jsstring) (xs : list X) : list X :=
  filter (fun x => negb (skip x) && str_eqb (key x) k) xs.

(** The value those elements build, from the binding [o] already there
    if any. *)
Definition built (o : option V) (sel : list X) : option V :=
  match sel with
  | [] => o
  | x0 :: _ =>
      Some (fold_left (fun v x => upd x v) sel
              match o with
              | Some v => v
              | None => init x0
              end)
  end.

End KeyedLoop.

Section Counters.

Context {A : Type} `{Num A}.

(** A key with the profit and the stake added to its counter. *)
Definition item := (jsstring * (A * A))%type.

Definition item_skip (it : item) : bool := inherited (fst it).

Definition zero_acc (it : item) : acc A :=
  {| a_key := fst it; entradas := 0; a_lucro := nzero;
     stake_total := nzero |}.

Definition bump (it : item) (o : acc A) : acc A :=
  {| a_key := a_key o;
     entradas := entradas o + 1;
     a_lucro := nadd (a_lucro o) (fst (snd it));
     stake_total := nadd (stake_total o) (snd (snd it)) |}.

Definition item_step (m : list (jsstring * acc A)) (it : item) :=
  acc_step (fst it) (fst (snd it)) (snd (snd it)) m.

Definition casa_items (data : list (record A)) : list item :=
  List.map (fun d => (casa d, (lucro d, stake d)))
    (filter (fun d => negb (str_eqb (casa d) [])) data).

Definition esporte_items (data : list (record A)) : list item :=
  List.map (fun d => (esporte d, (lucro d, stake d)))
    (filter (fun d => negb (str_eqb (esporte d) [])) data).

Definition operador_items (grupos : list (grupo A)) : list item :=
  List.map (fun g => (g_operador g, (lucroTotal g, stakeTotal g))) grupos.

(** The counter of [k] once the profits and stakes [its] were added to
    it in order. *)
Definition counter_of (k : jsstring) (its : list item) : acc A :=
  {| a_key := k;
     entradas := List.length its;
     a_lucro := total (List.map (fun it => fst (snd it)) its);
     stake_total := total (List.map (fun it => snd (snd it)) its) |}.

Definition new_grupo (d : record A) : grupo A :=
  {| g_dataAposta := dataAposta d;
     g_operador := operador d;
     g_evento := evento d;
     g_esporte := esporte d;
     lucroTotal := nzero;
     stakeTotal := nzero |}.

Definition add_to_grupo (d : record A) (g : grupo A) : grupo A :=
  {| g_dataAposta := g_dataAposta g;
     g_operador := g_operador g;
     g_evento := g_evento g;
     g_esporte := g_esporte g;
     lucroTotal := nadd (lucroTotal g) (lucro d);
     stakeTotal := nadd (stakeTotal g) (stake d) |}.

(** A record has no date to file its profit under. *)
Definition undated (d : record A) : bool :=
  match dataAposta d with
  | None | Some [] => true
  | Some _ => false
  end.

Definition date_key (d : record A) : jsstring :=
  match dataAposta d with
  | Some k => k
  | None => []
  end.

End Counters.

(** Sum of exact numbers, from the right. *)
Definition sumQ (l : list Qc) : Qc := fold_right Qcplus 0%Qc l.

(** An entry is green, red: its total profit is above [EPS], below
    [-EPS]. *)
Definition is_green (A : Type) `{Num A} (g : grupo A) : bool :=
  nltb EPS (lucroTotal g).

Definition is_red (A : Type) `{Num A} (g : grupo A) : bool :=
  nltb (lucroTotal g) (nopp EPS).

(** Bindings in ascending order of their keys. *)
Definition key_lt (V : Type) (a b : jsstring * V) : Prop :=
  str_ltb (fst a) (fst b) = true.

(** What porOperador reads of an entry. *)
Definition operador_item (A : Type) (g : grupo A) : jsstring * (A * A) :=
  (g_operador g, (lucroTotal g, stakeTotal g)).

(** The cache and the spreadsheet service once the rows without a
    usable date are removed from every sheet. *)
Definition dated_cache (c : cache) : cache :=
  List.map (fun e : N * list row_obj => (fst e, filter has_date (snd e))) c.

Definition dated_world (w : world) : world := {|
  db_all_desc := db_all_desc w;
  db_all := db_all w;
  db_get := db_get w;
  db_insert := db_insert w;
  db_delete := db_delete w;
  fetch_rows := fun s =>
    match fetch_rows w s with
    | Returned rs => Returned (filter has_date rs)
    | Thrown e => Thrown e
    end
|}.

(** ** Tactics *)

(** Membership in the white space class as arithmetic on the code unit. *)
Ltac ws_facts H :=
  unfold is_ws in H;
  repeat rewrite ?orb_true_iff, ?andb_true_iff, ?N.leb_le, ?N.eqb_eq in H.

(** The operations of the interface at the rationals. *)
Ltac qc_ops :=
  cbn [nzero nadd nmul ndiv nopp nltb nfalsy of_count n100 EPS Qc_Num] in *.

(** ** Data for the examples *)

Definition boom : exn := {| message := js "SQLITE_ERROR" |}.


Definition request_for (id : string) : request := {|
  q_sheetDbId := Some (js id);
  q_operador := None;
  q_from := None;
  q_to := None;
  p_id := js id;
  b_name := None;
  b_googleSheetId := None;
  b_range := None
|}.

(** Two tabs of one spreadsheet: the second words its header row
    differently and has rows above it. *)
Definition tab_a : grid :=
  [ [js "Data Aposta"; js "Lucro"; js "Stake"];
    [js "01/01/2025"; js "100,50"; js "50,00"] ].

Definition tab_b : grid :=
  [ [js "Fevereiro"];
    [js "data  aposta (hora)"; js "Profit"; js "Valor"];
    [js "02/01/2025"; js "-20,00"; js "10,00"] ].

Definition header_a : list jsstring :=
  [js "DATA APOSTA"; js "LUCRO"; js "STAKE"].

(** The sheet and the rows of the examples: an operator's sheet with the
    columns the dashboard reads. *)
Definition bets_sheet : sheet := {|
  sheet_id := 1;
  sheet_name := js "Op1";
  google_sheet_id := js "sheet-1";
  sheet_range := js "A1:Z1000"
|}.

Definition bet_row (date evento casa stake lucro : string) : row_obj :=
  [ (js "DATA APOSTA", js date); (js "EVENTO", js evento);
    (js "CASA", js casa); (js "STAKE", js stake); (js "LUCRO", js lucro) ].

(** Three bets, two of them at the same house. *)
Definition rows_two_houses : list row_obj :=
  [ bet_row "01/01/2025" "Jogo 1" "A" "10,00" "0,10";
    bet_row "01/01/2025" "Jogo 2" "B" "10,00" "0,20";
    bet_row "02/01/2025" "Jogo 3" "A" "10,00" "2,20" ].

(** Three entries: one won, two lost. *)
Definition rows_one_green_two_red : list row_obj :=
  [ bet_row "01/01/2025" "Jogo 1" "A" "10,00" "5,00";
    bet_row "01/01/2025" "Jogo 2" "A" "10,00" "-5,00";
    bet_row "02/01/2025" "Jogo 3" "A" "10,00" "-5,00" ].

(** Two bets at two houses, with amounts that add exactly. *)
Definition rows_a_then_b : list row_obj :=
  [ bet_row "01/01/2025" "Jogo 1" "A" "10,00" "1,00";
    bet_row "02/01/2025" "Jogo 2" "B" "10,00" "2,00" ].

(** Two records in exact arithmetic, at two houses. *)
Definition exact_record (date evento house : string) (s l : Q) : record Qc := {|
  dataAposta := Some (js date);
  operador := js "Op1";
  casa := js house;
  esporte := [];
  evento := js evento;
  dataEvento := [];
  stake := Q2Qc s;
  lucro := Q2Qc l
|}.

Definition exact_a : record Qc :=
  exact_record "2025-01-01" "Jogo 1" "A" 10 (1 # 10).

Definition exact_b : record Qc :=
  exact_record "2025-01-02" "Jogo 2" "B" 10 (2 # 10).

(** A bet at a house named like a property every object inherits. *)
Definition rows_inherited_name : list row_obj :=
  [ bet_row "01/01/2025" "Jogo 1" "constructor" "10,00" "5,00" ].

(** Two records of two operators whose entry keys are the same text:
    the separator also occurs in an event and in an operator. *)
Definition record_of (op evento : string) (l : float) : record float := {|
  dataAposta := Some (js "2025-01-01");
  operador := js op;
  casa := js "A";
  esporte := [];
  evento := js evento;
  dataEvento := [];
  stake := 10%float;
  lucro := l
|}.

Definition collide_1 : record float := record_of "z" "x|y" 1%float.
Definition collide_2 : record float := record_of "y|z" "x" 2%float.

(** ** Further definitions for the properties of the parsers *)

(** The text [parseNumber] hands to [Number]. *)
Definition cleaned (s : jsstring) : jsstring :=
  replace_first_comma (strip_dots (strip_ws (strip_currency s))).

Definition is_letter (c : codeunit) : bool :=
  ((65 <=? c) && (c <=? 90)) || ((97 <=? c) && (c <=? 122)).

(** A code unit that no numeric literal holds: it is neither a digit, a
    letter, [.], [+] nor [-]. *)
Definition literal_unit (c : codeunit) : bool :=
  is_digit c || is_letter c || (c =? 46) || (c =? 43) || (c =? 45).

(** [NaN] read as 0, the last step of [parseNumber]. *)
Definition nan_to_zero (n : float) : float :=
  if is_nan n then 0%float else n.

(** The number of commas (code unit 44) of a text. *)
Definition commas (s : jsstring) : nat :=
  List.length (filter (N.eqb 44) s).

(** The sign in front of a literal. *)
Definition sign_text (neg : bool) : jsstring := if neg then [45] else [].

(** The shape [parseDateISO] gives its results:
    [/^\d{4}-\d{2}-\d{2}$/]. *)
Definition is_iso_date (s : jsstring) : bool :=
  match s with
  | [y1; y2; y3; y4; s1; m1; m2; s2; d1; d2] =>
      forallb is_digit [y1; y2; y3; y4; m1; m2; d1; d2]
      && (s1 =? 45) && (s2 =? 45)
  | _ => false
  end.

(** The digits of a date read as one number: year, month and day as
    [yyyymmdd]. *)
Definition date_number (s : jsstring) : Z :=
  digits_value (filter is_digit s).

(** ** Further definitions for the properties of the row extractor *)

(** The last column of [header] named [col], columns counted from
    [idx]. *)
Fixpoint last_index_from (idx : nat) (col : jsstring)
    (header : list jsstring) : option nat :=
  match header with
  | [] => None
  | c :: rest =>
      match last_index_from (S idx) col rest with
      | Some i => Some i
      | None => if str_eqb col c then Some idx else None
      end
  end.

(** A column name under which a row object stores a cell. *)
Definition is_property_name (col : jsstring) : bool :=
  negb (str_eqb col []) && negb (str_eqb col (js "__proto__")).

(** The header in use for a tab: the one handed in, or the tab's own
    header row. *)
Definition header_in_use `{Platform} (mainHeader : option (list jsstring))
    (headerRow : list jsstring) : list jsstring :=
  List.map canonicalHeaderName
    match mainHeader with
    | Some h => h
    | None => headerRow
    end.

(** The header and the row that the second example tab gives on its
    own. *)
Definition header_in_use_b : list jsstring :=
  [js "DATA APOSTA"; js "Profit"; js "Valor"].

Definition row_b : row_obj :=
  [ (js "DATA APOSTA", js "02/01/2025"); (js "Profit", js "-20,00");
    (js "Valor", js "10,00") ].

(** The white space of a text is made of single spaces: every white
    space code unit is U+0020, and no two follow each other. *)
Definition space_or_other (c : codeunit) : bool :=
  negb (is_ws c) || (c =? 0x20).

Definition head_ws (s : jsstring) : bool :=
  match s with
  | c :: _ => is_ws c
  | [] => false
  end.

Fixpoint no_double_space (s : jsstring) : bool :=
  match s with
  | [] => true
  | c :: t => negb (is_ws c && head_ws t) && no_double_space t
  end.

(** ** [getSheetRows] against the spreadsheet service ([sheets.js])

    The two calls the function makes to the service; each returns or
    throws. *)
Record sheets_api := {
  (** [sheets.spreadsheets.values.get({ spreadsheetId, range })]: the
      field [data.values] of the answer, [None] when it is absent *)
  values_get : jsstring -> jsstring -> outcome (option grid);
  (** [sheets.spreadsheets.get({ spreadsheetId, fields })]: for each
      element of [data.sheets] its [properties?.title]; [None] when
      [data.sheets] is absent *)
  meta_get : jsstring -> outcome (option (list (option jsstring)))
}.

(** [x || []] *)
Definition or_nil (T : Type) (x : option (list T)) : list T :=
  match x with
  | Some l => l
  | None => []
  end.

Section SheetsService.

Context `{Platform}.

(** What the loop of [getSheetRows] meets for one tab: its title and
    the values read at [`${title}!${defaultRange}`], when the title is
    there and the read does not throw. *)
Definition read_tab (api : sheets_api) (spreadsheetId defaultRange : jsstring)
    (t : option jsstring) : tab :=
  {| title := t;
     fetched :=
       match t with
       | Some ((_ :: _) as ti) =>
           match values_get api spreadsheetId (ti ++ js "!" ++ defaultRange) with
           | Returned v => Some (or_nil v)
           | Thrown _ => None
           end
       | _ => None
       end |}.

(** [getSheetRows(sheetId, range)]; a [range] of [None] is an argument
    left out.  The [catch] clause logs and throws the error again. *)
Definition getSheetRows (api : sheets_api) (sheetId : jsstring)
    (range : option jsstring) : outcome (list row_obj) :=
  let range :=
    match range with
    | Some r => r
    | None => js "NOVEMBRO!A1:Z1000"
    end in
  if includes range (js "!") then
    match values_get api sheetId range with
    | Returned v => Returned (getSheetRows_one (or_nil v))
    | Thrown e => Thrown e
    end
  else
    let defaultRange :=
      match range with
      | [] => js "A1:Z1000"
      | _ => range
      end in
    match meta_get api sheetId with
    | Returned m =>
        Returned
          (getSheetRows_tabs
             (List.map (read_tab api sheetId defaultRange) (or_nil m)))
    | Thrown e => Thrown e
    end.

End SheetsService.

(** The rows read so far have the properties that the header in force
    gives. *)
Definition rows_follow_header `{Platform}
    (st : list row_obj * option (list jsstring)) : Prop :=
  match snd st with
  | None => fst st = []
  | Some h =>
      List.map canonicalHeaderName h = h
      /\ forall r, In r (fst st) ->
                   List.map fst r = List.map fst (project_from 0 h [] [])
  end.

(** A tab that adds rows or a header: it has a title and its read gave
    values. *)
Definition tab_has_values (t : tab) : bool :=
  match title t, fetched t with
  | Some (_ :: _), Some (_ :: _) => true
  | _, _ => false
  end.

(** The world of a handler whose rows come from [getSheetRows]. *)
Definition served_by `{Platform} (api : sheets_api) (w : world) : world := {|
  db_all_desc := db_all_desc w;
  db_all := db_all w;
  db_get := db_get w;
  db_insert := db_insert w;
  db_delete := db_delete w;
  fetch_rows := fun s =>
    getSheetRows api (google_sheet_id s) (Some (sheet_range s))
|}.

(** The rows that the two example tabs give when read one after the
    other: the second takes the header of the first. *)
Definition row_a : row_obj :=
  [ (js "DATA APOSTA", js "01/01/2025"); (js "LUCRO", js "100,50");
    (js "STAKE", js "50,00") ].

Definition row_b_as_a : row_obj :=
  [ (js "DATA APOSTA", js "02/01/2025"); (js "LUCRO", js "-20,00");
    (js "STAKE", js "10,00") ].

(** ** Further definitions for the properties of the handlers *)

(** The status codes a handler can answer with. *)
Definition statuses (ep : endpoint) : list nat :=
  match ep with
  | GetSheets => [200; 500]
  | PostSheets => [201; 400; 500]
  | DeleteSheet => [200; 404; 500]
  | RefreshSheets => [200]
  | Overview => [200; 400; 404; 500]
  | OverviewAll => [200; 400; 500]
  end%nat.

(** A request without its filters: no operator, no date bounds. *)
Definition without_filters (q : request) : request := {|
  q_sheetDbId := q_sheetDbId q;
  q_operador := None;
  q_from := None;
  q_to := None;
  p_id := p_id q;
  b_name := b_name q;
  b_googleSheetId := b_googleSheetId q;
  b_range := b_range q
|}.

(** The operator filter of a request lets a sheet through. *)
Definition operador_passes (q : request) (s : sheet) : bool :=
  negb (given (q_operador q)
        && negb (str_eqb (operador_of s) (or_default (q_operador q) []))).

(** A record is dated within the bounds of a request. *)
Definition in_range (q : request) (d : record float) : bool :=
  match dataAposta d with
  | Some iso => negb (out_of_range q iso)
  | None => true
  end.


(** The groups are those of the records collected so far. *)
Definition groups_follow_records `{Platform}
    (st : list (record float) * list (jsstring * grupo float)) : Prop :=
  snd st = fold_left group_step (fst st) [].

(** A world with one registered sheet, whose spreadsheet holds the
    given rows, or cannot be read. *)
Definition world_one_sheet (answer : outcome (list row_obj)) : world := {|
  db_all_desc := Returned [bets_sheet];
  db_all := Returned [bets_sheet];
  db_get := fun _ => Returned (Some bets_sheet);
  db_insert := fun _ _ _ => Thrown boom;
  db_delete := fun _ => Returned tt;
  fetch_rows := fun _ => answer
|}.

(** A service whose every read of a tab fails. *)
Definition api_tabs_fail : sheets_api := {|
  values_get := fun _ _ => Thrown boom;
  meta_get := fun _ => Returned (Some [Some (js "A"); Some (js "B")])
|}.

(** A request for the dashboard of sheet 1 with date bounds. *)
Definition request_between (from to : string) : request := {|
  q_sheetDbId := Some (js "1");
  q_operador := None;
  q_from := Some (js from);
  q_to := Some (js to);
  p_id := js "1";
  b_name := None;
  b_googleSheetId := None;
  b_range := None
|}.

(** A service with one tab, which holds the first example grid. *)
Definition api_one_tab : sheets_api := {|
  values_get := fun _ _ => Returned (Some tab_a);
  meta_get := fun _ => Returned (Some [Some (js "A")])
|}.

(** ** Further definitions for the properties of the aggregator *)

(** The keys of a list in the order in which each first occurs. *)
Fixpoint first_occurrences (l : list jsstring) : list jsstring :=
  match l with
  | [] => []
  | k :: t => k :: filter (fun x => negb (str_eqb x k)) (first_occurrences t)
  end.

(** The house of a record counts in [porCasa]: it is not empty and is
    not the name of an inherited property. *)
Definition counted_name (k : jsstring) : bool :=
  negb (str_eqb k []) && negb (inherited k).

(** No key is an array index, so that [Object.values] lists the
    dictionary in creation order. *)
Definition no_index_name (l : list jsstring) : Prop :=
  Forall (fun k => array_index k = None) l.

(** ** The header canonicalizer in the words of its rules *)

(** [needle] occurs in [s]: some text before it and some after it make
    up [s]. *)
Definition occurs (needle s : jsstring) : Prop :=
  exists before after, s = before ++ needle ++ after.

(** A combining diacritical mark: a code unit of U+0300 to U+036F. *)
Definition is_mark (c : codeunit) : bool := (0x0300 <=? c) && (c <=? 0x036F).

(** The rules on the normalized text, in priority order, each with the
    name it gives. *)
Definition header_rules_spec : list ((jsstring -> Prop) * jsstring) :=
  [ (occurs (js "DATA APOSTA"), js "DATA APOSTA");
    (fun n => n = js "LUCRO", js "LUCRO");
    (fun n => n = js "STAKE", js "STAKE");
    (fun n => n = js "CASA" \/ occurs (js "BOOK") n, js "CASA");
    (fun n => n = js "ESPORTE" \/ n = js "ESPORTES", js "ESPORTE");
    (fun n => occurs (js "DATA EVENTO") n \/ occurs (js "DATA JOGO") n,
     js "DATA EVENTO");
    (fun n => n = js "EVENTO" \/ n = js "PARTIDA" \/ occurs (js "MATCH") n,
     js "EVENTO") ].

(** [picks rules n fallback name]: [name] is what the first rule that
    [n] passes gives, and [fallback] when [n] passes none. *)
Inductive picks :
  list ((jsstring -> Prop) * jsstring) -> jsstring -> jsstring -> jsstring
  -> Prop :=
| picks_fallback (n fallback : jsstring) : picks [] n fallback fallback
| picks_this (test : jsstring -> Prop) (name : jsstring)
    (rest : list ((jsstring -> Prop) * jsstring)) (n fallback : jsstring) :
    test n -> picks ((test, name) :: rest) n fallback name
| picks_next (test : jsstring -> Prop) (name : jsstring)
    (rest : list ((jsstring -> Prop) * jsstring))
    (n fallback result : jsstring) :
    ~ test n -> picks rest n fallback result ->
    picks ((test, name) :: rest) n fallback result.

(** The accented letters of Portuguese: the code units of the small
    letter and of the capital, and the canonical decomposition of the
    capital, a base letter and a combining mark. *)
Record accented := {
  small_unit : codeunit;
  capital_unit : codeunit;
  base_unit : codeunit;
  mark_unit : codeunit
}.

Definition letter (s c b m : codeunit) : accented :=
  {| small_unit := s; capital_unit := c; base_unit := b; mark_unit := m |}.

Definition pt_letters : list accented :=
  [ letter 0xE0 0xC0 65 0x0300;
    letter 0xE1 0xC1 65 0x0301;
    letter 0xE2 0xC2 65 0x0302;
    letter 0xE3 0xC3 65 0x0303;
    letter 0xE7 0xC7 67 0x0327;
    letter 0xE9 0xC9 69 0x0301;
    letter 0xEA 0xCA 69 0x0302;
    letter 0xED 0xCD 73 0x0301;
    letter 0xF3 0xD3 79 0x0301;
    letter 0xF4 0xD4 79 0x0302;
    letter 0xF5 0xD5 79 0x0303;
    letter 0xFA 0xDA 85 0x0301;
    letter 0xFC 0xDC 85 0x0308 ].

(** The built-ins on text made of ASCII, white space, these letters and
    combining marks that follow an ASCII letter one at a time. *)
Definition pt_upper (c : codeunit) : codeunit :=
  match find (fun l => c =? small_unit l) pt_letters with
  | Some l => capital_unit l
  | None => ascii_upper c
  end.

Definition pt_lower (c : codeunit) : codeunit :=
  match find (fun l => c =? capital_unit l) pt_letters with
  | Some l => small_unit l
  | None => ascii_lower c
  end.

Definition pt_nfd (c : codeunit) : jsstring :=
  match find (fun l => c =? capital_unit l) pt_letters with
  | Some l => [base_unit l; mark_unit l]
  | None =>
      match find (fun l => c =? small_unit l) pt_letters with
      | Some l => [ascii_lower (base_unit l); mark_unit l]
      | None => [nfd_space c]
      end
  end.

Definition pt_platform : Platform := {|
  toUpperCase := List.map pt_upper;
  toLowerCase := List.map pt_lower;
  normalizeNFD := flat_map pt_nfd
|}.

(** Header cells as a sheet may word them, and the names they get:
    [L], u with acute (U+00FA), [cro]; the same with the accent as a
    combining mark (U+0301); a label with c cedilla (U+00E7) and a with
    tilde (U+00E3) that no rule matches. *)
Definition headers_as_typed : list jsstring :=
  [ js " data   aposta (hora) ";
    js "L" ++ [0xFA] ++ js "cro";
    js "Lu" ++ [0x0301] ++ js "cro";
    js "Lucro";
    js "stake";
    js "Casa";
    js "Bookmaker";
    js "Esportes";
    js "Data Jogo";
    js "Partida";
    js "Match name";
    js "Data aposta / book";
    js "Book match";
    js "Lucro total";
    js "  Observa" ++ [0xE7; 0xE3] ++ js "o  geral " ].

Definition headers_as_named : list jsstring :=
  [ js "DATA APOSTA";
    js "LUCRO";
    js "LUCRO";
    js "LUCRO";
    js "STAKE";
    js "CASA";
    js "CASA";
    js "ESPORTE";
    js "DATA EVENTO";
    js "EVENTO";
    js "EVENTO";
    js "DATA APOSTA";
    js "CASA";
    js "Lucro total";
    js "Observa" ++ [0xE7; 0xE3] ++ js "o  geral" ].

(** ** The loop over the tabs in the words of the header lock *)

(** The rows of a grid that lie below its first header row and are not
    blank; none when the grid has no header row. *)
Definition rows_below_header `{Platform} (values : grid) : grid :=
  match findIndex is_header_row values with
  | Some i => filter is_data_row (skipn (S i) values)
  | None => []
  end.

(** The canonical names of the first header row of a grid. *)
Definition own_header `{Platform} (values : grid)
    : option (list jsstring) :=
  match findIndex is_header_row values with
  | Some i => Some (List.map canonicalHeaderName (nth i values []))
  | None => None
  end.

(** What a tab brings to the loop: nothing unless it has a title and
    values. *)
Definition tab_rows `{Platform} (t : tab) : grid :=
  if tab_has_values t then rows_below_header (or_nil (fetched t)) else [].

Definition tab_header `{Platform} (t : tab) : option (list jsstring) :=
  if tab_has_values t then own_header (or_nil (fetched t)) else None.

(** ** Sums in binary64 that differ by more than rounding *)

(** The number that the text [1e308] reads as. *)
Definition huge : float := 0x1.1ccf385ebc8ap+1023%float.

(** Three bets at two houses whose profits overflow when those of house
    A are added first. *)
Definition rows_huge : list row_obj :=
  [ bet_row "01/01/2025" "Jogo 1" "A" "10,00" "1e308";
    bet_row "01/01/2025" "Jogo 2" "B" "10,00" "-1e308";
    bet_row "02/01/2025" "Jogo 3" "A" "10,00" "1e308" ].

(** Three bets of one day, two of them with infinite profits of
    opposite signs. *)
Definition rows_infinite : list row_obj :=
  [ bet_row "01/01/2025" "Jogo 1" "A" "10,00" "Infinity";
    bet_row "01/01/2025" "Jogo 2" "A" "10,00" "-Infinity";
    bet_row "01/01/2025" "Jogo 3" "A" "10,00" "5,00" ].

(** ** [getCachedSheetRows] with other requests in between *)

(** [getCachedSheetRows] suspends at [await getSheetRows]: requests that
    run meanwhile see the cache as it was and may change it, and the
    [set] that follows acts on the cache they leave.  [others] is what
    they do to it. *)
Definition getCachedSheetRows_overlapped (w : world) (s : sheet)
    (others : cache -> cache) : M (list row_obj) :=
  fun c =>
    match cache_get (sheet_id s) c with
    | Some rs => (Returned rs, c)
    | None =>
        match fetch_rows w s with
        | Returned rs => (Returned rs, cache_set (sheet_id s) rs (others c))
        | Thrown e => (Thrown e, others c)
        end
    end.

(** ** Tactics for the further properties *)

(** A goal on two dates once a digit decides it. *)
Ltac date_leaf :=
  split; symmetry;
  [first [apply Z.ltb_lt; lia | apply Z.ltb_ge; lia]
  |first [apply Z.eqb_eq; lia | apply Z.eqb_neq; lia]].

(** The next digit is smaller, equal or larger. *)
Ltac date_digit O :=
  destruct O as [(-> & -> & ?) | [(-> & -> & ?) | (-> & -> & ?)]];
  cbn [orb andb]; [date_leaf | | date_leaf].

(** The response that an equation on the body of a handler gives has
    one of the listed status codes, and not 500. *)
Ltac answered E :=
  first [ discriminate E
        | inversion E; subst; cbn; split; [auto 8 | discriminate] ].

(** * Proofs *)

Unset Implicit Arguments.

(** ** Strings *)

Lemma str_eqb_eq (a b : jsstring) : str_eqb a b = true <-> a = b.
Proof.
  revert b; induction a as [|x a IH]; intros [|y b]; simpl;
    try (split; [discriminate | discriminate]); try tauto.
  rewrite andb_true_iff, N.eqb_eq, IH.
  split; [intros [-> ->]; reflexivity | intros [= -> ->]; auto].
Qed.

Lemma str_eqb_refl (a : jsstring) : str_eqb a a = true.
Proof. apply str_eqb_eq; reflexivity. Qed.

Lemma str_eqb_neq (a b : jsstring) : str_eqb a b = false <-> a <> b.
Proof.
  rewrite <- str_eqb_eq. destruct (str_eqb a b); split; congruence.
Qed.

Lemma str_eqb_sym (a b : jsstring) : str_eqb a b = str_eqb b a.
Proof.
  destruct (str_eqb a b) eqn:E.
  - apply str_eqb_eq in E; subst. symmetry; apply str_eqb_refl.
  - symmetry. apply str_eqb_neq. apply str_eqb_neq in E. congruence.
Qed.

Lemma trimStart_no_ws (s : jsstring) :
  forallb (fun c => negb (is_ws c)) s = true -> trimStart s = s.
Proof.
  destruct s as [|c t]; simpl; [reflexivity|].
  rewrite andb_true_iff, negb_true_iff. intros [-> _]. reflexivity.
Qed.

Lemma trimEnd_no_ws (s : jsstring) :
  forallb (fun c => negb (is_ws c)) s = true -> trimEnd s = s.
Proof.
  induction s as [|c t IH]; simpl; [reflexivity|].
  rewrite andb_true_iff, negb_true_iff. intros [Hc Ht].
  rewrite (IH Ht), Hc. destruct t; reflexivity.
Qed.

Lemma trim_no_ws (s : jsstring) :
  forallb (fun c => negb (is_ws c)) s = true -> trim s = s.
Proof.
  intros Hs. unfold trim. rewrite (trimStart_no_ws _ Hs).
  apply trimEnd_no_ws, Hs.
Qed.

Lemma replace_first_comma_no_ws (s : jsstring) :
  forallb (fun c => negb (is_ws c)) s = true ->
  forallb (fun c => negb (is_ws c)) (replace_first_comma s) = true.
Proof.
  induction s as [|c t IH]; simpl; [reflexivity|].
  rewrite andb_true_iff. intros [Hc Ht].
  destruct (c =? 44); simpl.
  - exact Ht.
  - rewrite Hc, (IH Ht). reflexivity.
Qed.

Lemma cleaned_no_ws (s : jsstring) :
  forallb (fun c => negb (is_ws c))
    (replace_first_comma (strip_dots (strip_ws (strip_currency s)))) = true.
Proof.
  apply replace_first_comma_no_ws.
  apply forallb_forall. intros c Hc.
  unfold strip_dots, strip_ws in Hc.
  apply filter_In in Hc. destruct Hc as [Hc _].
  apply filter_In in Hc. destruct Hc as [_ Hc].
  rewrite negb_true_iff, orb_false_iff in Hc.
  rewrite negb_true_iff. tauto.
Qed.

(** [Number] is the case analysis [numeric_literal] on the trimmed text. *)
Lemma Number_numeric_literal (s : jsstring) :
  Number s = numeric_literal (trim s).
Proof. reflexivity. Qed.

(** ** Value parsers *)

(** C10: for every value -- a number (NaN and the infinities included),
    a string, null or undefined -- parseNumber returns a number that is
    not NaN; a NaN argument, null, undefined and a text that [Number]
    does not read all give 0. *)
Theorem parseNumber_never_nan :
  (forall v, is_nan (parseNumber v) = false)
  /\ parseNumber (VNum nan) = 0%float
  /\ parseNumber VNull = 0%float
  /\ parseNumber VUndefined = 0%float
  /\ (forall s,
        is_nan (Number (replace_first_comma
                          (strip_dots (strip_ws (strip_currency s))))) = true ->
        parseNumber (VStr s) = 0%float)
  /\ parseNumber (VNum infinity) = infinity
  /\ parseNumber (VNum neg_infinity) = neg_infinity.
Proof.
  repeat split; try reflexivity.
  - intros [| |n|s]; simpl; try reflexivity.
    + destruct (is_nan n) eqn:E; [reflexivity | exact E].
    + destruct (is_nan (Number _)) eqn:E; [reflexivity | exact E].
  - intros s Hs. simpl. rewrite Hs. reflexivity.
Qed.

Lemma parseNumber_never_nan_witness :
  is_nan (Number (replace_first_comma
                    (strip_dots (strip_ws (strip_currency (js "abc")))))) = true
  /\ parseNumber (VStr (js "abc")) = 0%float.
Proof.
  split; [vm_compute; reflexivity|].
  apply (proj1 (proj2 (proj2 (proj2 (proj2 parseNumber_never_nan))))).
  vm_compute; reflexivity.
Defined.

(** C2, as the code has it: parseNumber returns a number that is not NaN
    unchanged and gives 0 for NaN, null and undefined; for text it strips
    [R$] in either case, all white space, every [.], replaces the first
    [,] by [.], and reads the result as [Number] does: the empty text is
    0, a literal prefixed by [0x], [0o] or [0b] is read in base 16, 8 or
    2, a base-10 literal is read in base 10, and anything else gives 0. *)
Theorem parseNumber_reads_numeric_literal :
  (forall n, parseNumber (VNum n) = if is_nan n then 0%float else n)
  /\ parseNumber VNull = 0%float
  /\ parseNumber VUndefined = 0%float
  /\ (forall s,
        let n := numeric_literal
                   (replace_first_comma
                      (strip_dots (strip_ws (strip_currency s)))) in
        parseNumber (VStr s) = if is_nan n then 0%float else n)
  /\ parseNumber (VStr (js "R$ 1.080,00")) = 1080%float
  /\ parseNumber (VStr (js "")) = 0%float
  /\ parseNumber (VNum 42%float) = 42%float.
Proof.
  repeat split; try reflexivity.
  intros s n. subst n. simpl.
  rewrite Number_numeric_literal, (trim_no_ws _ (cleaned_no_ws s)).
  reflexivity.
Qed.

(** C2 fails as stated: the text [0x10] is no base-10 number, yet
    parseNumber reads it in base 16. *)
Lemma parseNumber_reads_hexadecimal :
  parseNumber (VStr (js "0x10")) = 16%float
  /\ parseNumber_spec (VStr (js "0x10")) = 0%float
  /\ parseNumber (VStr (js "0x10")) <> parseNumber_spec (VStr (js "0x10")).
Proof.
  assert (H1 : parseNumber (VStr (js "0x10")) = 16%float)
    by (vm_compute; reflexivity).
  assert (H2 : parseNumber_spec (VStr (js "0x10")) = 0%float)
    by (vm_compute; reflexivity).
  repeat split; trivial.
  rewrite H1, H2. intros E.
  apply (f_equal (fun x => PrimFloat.eqb x 0%float)) in E.
  vm_compute in E. discriminate.
Qed.

Lemma match_date_text (t iso : jsstring) :
  match_date t = Some iso <-> date_text t iso.
Proof.
  unfold date_text. split.
  - destruct t as [|d1 [|d2 [|s1 [|m1 [|m2 [|s2 [|y1 [|y2 [|y3 [|y4 [|z t]]]]]]]]]]];
      try discriminate.
    unfold match_date.
    destruct (forallb is_digit [d1; d2; m1; m2; y1; y2; y3; y4]) eqn:Hd;
      [|discriminate].
    destruct (s1 =? 47) eqn:H1; [|discriminate].
    destruct (s2 =? 47) eqn:H2; [|discriminate].
    simpl. intros [= <-].
    apply N.eqb_eq in H1, H2. subst.
    exists d1, d2, m1, m2, y1, y2, y3, y4. auto.
  - intros (d1 & d2 & m1 & m2 & y1 & y2 & y3 & y4 & Hd & -> & ->).
    unfold match_date. rewrite Hd. reflexivity.
Qed.

(** C3, as the code has it: the input is trimmed first; parseDateISO then
    returns year-month-day exactly when the trimmed text before its first
    space is two digits, a slash, two digits, a slash and four digits,
    and null otherwise, as for empty or absent input and for numbers.  No
    calendar check is made. *)
Theorem parseDateISO_trims_then_matches :
  (forall s iso,
      parseDateISO (VStr s) = Some iso
      <-> date_text (before_first_space (trim s)) iso)
  /\ (forall s,
        parseDateISO (VStr s) = match_date (before_first_space (trim s)))
  /\ parseDateISO VNull = None
  /\ parseDateISO VUndefined = None
  /\ (forall n, parseDateISO (VNum n) = None)
  /\ parseDateISO (VStr (js "")) = None
  /\ parseDateISO (VStr (js "03/11/2025 22:29:54")) = Some (js "2025-11-03")
  /\ parseDateISO (VStr (js "bad")) = None
  /\ parseDateISO (VStr (js "32/13/2025")) = Some (js "2025-13-32").
Proof.
  assert (E : forall s,
            parseDateISO (VStr s) = match_date (before_first_space (trim s))).
  { intros [|c t]; reflexivity. }
  repeat split; try reflexivity; try exact E.
  - rewrite E. apply match_date_text.
  - rewrite E. apply match_date_text.
  - intros n. unfold parseDateISO. destruct (truthy (VNum n)); reflexivity.
Qed.

(** C3 fails as stated: with a leading space the text before the first
    space is empty, yet the date is returned. *)
Lemma parseDateISO_leading_space :
  parseDateISO (VStr (js " 03/11/2025")) = Some (js "2025-11-03")
  /\ before_first_space (js " 03/11/2025") = []
  /\ parseDateISO_spec (VStr (js " 03/11/2025")) = None.
Proof. repeat split; reflexivity. Qed.

(** ** Header canonicalizer *)

Lemma first_match_cases (rules : list ((jsstring -> bool) * jsstring))
    (n fallback : jsstring) :
  (exists pre test name post,
      rules = pre ++ (test, name) :: post
      /\ forallb (fun r => negb (fst r n)) pre = true
      /\ test n = true
      /\ first_match rules n fallback = name)
  \/ (forallb (fun r => negb (fst r n)) rules = true
      /\ first_match rules n fallback = fallback).
Proof.
  induction rules as [|[test name] rules IH]; simpl.
  - right. split; reflexivity.
  - destruct (test n) eqn:E.
    + left. exists [], test, name, rules. repeat split; trivial.
    + destruct IH as [(pre & t & nm & post & -> & Hpre & Ht & Hm) | [Hall Hm]].
      * left. exists ((test, name) :: pre), t, nm, post. simpl.
        rewrite E, Hpre. repeat split; trivial.
      * right. simpl. split; trivial.
Qed.

Lemma starts_with_prefix (p s : jsstring) :
  starts_with p s = true <-> exists rest, s = p ++ rest.
Proof.
  revert s. induction p as [|a p IH]; intros s; cbn [starts_with].
  - split; [intros _; exists s; reflexivity | reflexivity].
  - destruct s as [|b s].
    + split; [discriminate | intros [rest Hr]; discriminate Hr].
    + rewrite andb_true_iff, N.eqb_eq, IH. split.
      * intros [-> [rest ->]]. exists rest. reflexivity.
      * intros [rest Hr]. injection Hr as -> ->. split; [reflexivity|].
        exists rest. reflexivity.
Qed.

Lemma includes_occurs (s needle : jsstring) :
  includes s needle = true <-> occurs needle s.
Proof.
  unfold occurs. induction s as [|c s IH]; cbn [includes].
  - rewrite orb_false_r, starts_with_prefix. split.
    + intros [rest Hr]. exists [], rest. exact Hr.
    + intros (before & after & Hs). destruct before; [|discriminate Hs].
      exists after. exact Hs.
  - rewrite orb_true_iff, starts_with_prefix, IH. split.
    + intros [[rest Hr] | (before & after & ->)].
      * exists [], rest. exact Hr.
      * exists (c :: before), after. reflexivity.
    + intros (before & after & Hs). destruct before as [|b before].
      * left. exists after. exact Hs.
      * right. injection Hs as _ ->. exists before, after. reflexivity.
Qed.

Lemma picks_if (test : jsstring -> Prop) (name : jsstring)
    (rest : list ((jsstring -> Prop) * jsstring))
    (n fallback result : jsstring) (b : bool) :
  (b = true <-> test n) ->
  picks rest n fallback result ->
  picks ((test, name) :: rest) n fallback (if b then name else result).
Proof.
  intros Hb Hrest. destruct b.
  - apply picks_this, Hb. reflexivity.
  - apply picks_next; [|exact Hrest].
    intros Ht. apply Hb in Ht. discriminate Ht.
Qed.

Lemma picks_unique (rules : list ((jsstring -> Prop) * jsstring))
    (n fallback r r' : jsstring) :
  picks rules n fallback r -> picks rules n fallback r' -> r = r'.
Proof.
  intros Hr. induction Hr; intros Hr'; inversion Hr'; subst;
    try reflexivity; try contradiction.
  apply IHHr. assumption.
Qed.

Lemma In_trimStart (c : codeunit) (s : jsstring) :
  In c (trimStart s) -> In c s.
Proof.
  induction s as [|x s IH]; cbn [trimStart]; [tauto|].
  destruct (is_ws x); [|tauto]. intros Hc. right. exact (IH Hc).
Qed.

Lemma In_trimEnd (c : codeunit) (s : jsstring) :
  In c (trimEnd s) -> In c s.
Proof.
  induction s as [|x s IH]; cbn [trimEnd]; [tauto|].
  destruct (trimEnd s) as [|y u].
  - destruct (is_ws x); [intros [] | intros [-> | []]; left; reflexivity].
  - intros [-> | Hc]; [left; reflexivity | right; exact (IH Hc)].
Qed.

Lemma In_collapse_from (c : codeunit) (s : jsstring) :
  forall b, In c (collapse_from b s) -> c = 0x20 \/ In c s.
Proof.
  induction s as [|x s IH]; intros b; cbn [collapse_from]; [tauto|].
  destruct (is_ws x).
  - destruct b.
    + intros Hc. destruct (IH _ Hc); [tauto | right; right; assumption].
    + intros [<- | Hc]; [tauto|].
      destruct (IH _ Hc); [tauto | right; right; assumption].
  - intros [-> | Hc]; [right; left; reflexivity|].
    destruct (IH _ Hc); [tauto | right; right; assumption].
Qed.

(** C4: canonicalHeaderName normalizes the cell -- uppercase, canonical
    decomposition with the combining marks U+0300 to U+036F removed,
    white space runs collapsed, trimmed -- and returns the name of the
    first rule, in the order of the list, that the normalized text
    passes; when it passes none the result is the original text,
    trimmed only.  The rules are stated twice: with the tests of the
    code ([header_rules]) and with occurrence and equality of texts
    ([header_rules_spec]), for which the name is the only one the rules
    give.  The normalized text holds no combining mark; removing marks
    goes code unit by code unit; [includes] is occurrence.  On ASCII
    text and the accented letters of Portuguese the headers of
    [headers_as_typed] get the names of [headers_as_named]: an accent,
    composed or not, does not hide a name, the first rule wins, and a
    label that no rule matches keeps its letters.  It is a total
    function to strings. *)
Theorem canonicalHeaderName_first_match `{Platform} (raw : jsstring) :
  norm raw = trim (collapse_ws (strip_marks (normalizeNFD (toUpperCase raw))))
  /\ canonicalHeaderName raw = canonical_spec raw
  /\ ((exists pre test name post,
          header_rules = pre ++ (test, name) :: post
          /\ forallb (fun r => negb (fst r (norm raw))) pre = true
          /\ test (norm raw) = true
          /\ canonicalHeaderName raw = name)
      \/ (forallb (fun r => negb (fst r (norm raw))) header_rules = true
          /\ canonicalHeaderName raw = trim raw))
  /\ picks header_rules_spec (norm raw) (trim raw) (canonicalHeaderName raw)
  /\ (forall name,
         picks header_rules_spec (norm raw) (trim raw) name ->
         name = canonicalHeaderName raw)
  /\ (forall c, In c (norm raw) -> is_mark c = false)
  /\ (forall a b, strip_marks (a ++ b) = strip_marks a ++ strip_marks b)
  /\ (forall c, strip_marks [c] = if is_mark c then [] else [c])
  /\ (forall s needle, includes s needle = true <-> occurs needle s)
  /\ List.map (canonicalHeaderName (H := pt_platform)) headers_as_typed
     = headers_as_named
  /\ List.map (norm (H := pt_platform))
       [ js "L" ++ [0xFA] ++ js "cro"; js "Lu" ++ [0x0301] ++ js "cro";
         js (String (ascii_of_nat 9) " data  aposta  (hora) ") ]
     = [ js "LUCRO"; js "LUCRO"; js "DATA APOSTA (HORA)" ].
Proof.
  assert (E : canonicalHeaderName raw
              = first_match header_rules (norm raw) (trim raw))
    by reflexivity.
  assert (Hpicks : picks header_rules_spec (norm raw) (trim raw)
                     (canonicalHeaderName raw)).
  { unfold canonicalHeaderName, header_rules_spec. cbv zeta.
    repeat (apply picks_if;
            [cbv beta; rewrite ?orb_true_iff, ?includes_occurs, ?str_eqb_eq;
             tauto|]).
    apply picks_fallback. }
  split; [reflexivity|]. split; [exact E|].
  split; [rewrite E; apply first_match_cases|].
  split; [exact Hpicks|].
  split; [intros name Hname; exact (picks_unique _ _ _ _ _ Hname Hpicks)|].
  split.
  { intros c Hc. unfold norm, trim in Hc.
    apply In_trimEnd, In_trimStart, In_collapse_from in Hc.
    destruct Hc as [-> | Hc]; [reflexivity|].
    unfold strip_marks in Hc. apply filter_In in Hc.
    destruct Hc as [_ Hc]. apply negb_true_iff in Hc. exact Hc. }
  split; [intros a b; apply filter_app|].
  split.
  { intros c. unfold strip_marks, is_mark. cbn [filter].
    destruct ((768 <=? c) && (c <=? 879)); reflexivity. }
  split; [exact includes_occurs|].
  split; vm_compute; reflexivity.
Qed.

(** On ASCII headers: variants of the canonical names, and a label that
    no rule matches. *)
Example canonicalHeaderName_examples :
  List.map (canonicalHeaderName (H := ascii_platform))
    [js " data   aposta (hora) "; js "Lucro"; js "stake"; js "Bookmaker";
     js "Esportes"; js "Data Jogo"; js "Match name"; js "  Obs  geral "]
  = [js "DATA APOSTA"; js "LUCRO"; js "STAKE"; js "CASA"; js "ESPORTE";
     js "DATA EVENTO"; js "EVENTO"; js "Obs  geral"].
Proof. vm_compute. reflexivity. Qed.

(** ** Request handlers *)

Section HandlerFacts.

Context `{Platform}.


End HandlerFacts.



Section DateInvariant.

Context `{Platform}.

Lemma overview_row_step_no_date (s : sheet) (q : request)
    (data : list (record float)) (r : row_obj) :
  has_date r = false -> overview_row_step s q data r = data.
Proof.
  unfold has_date, overview_row_step, cell.
  destruct (parseDateISO _) as [[|c t]|]; [reflexivity|discriminate|reflexivity].
Qed.

Lemma all_row_step_no_date (op : jsstring) (q : request)
    (st : list (record float) * list (jsstring * grupo float)) (r : row_obj) :
  has_date r = false -> all_row_step op q st r = st.
Proof.
  unfold has_date, all_row_step, cell.
  destruct (parseDateISO _) as [[|c t]|]; [reflexivity|discriminate|reflexivity].
Qed.

Lemma fold_left_filter_skip (S R : Type) (step : S -> R -> S)
    (keep : R -> bool) :
  (forall st r, keep r = false -> step st r = st) ->
  forall rows st,
    fold_left step rows st = fold_left step (filter keep rows) st.
Proof.
  intros Hskip rows. induction rows as [|r rows IH]; intros st; simpl.
  - reflexivity.
  - destruct (keep r) eqn:Hk; simpl.
    + apply IH.
    + rewrite (Hskip _ _ Hk). apply IH.
Qed.

Lemma cache_get_dated (id : N) (c : cache) :
  cache_get id (dated_cache c)
  = option_map (filter has_date) (cache_get id c).
Proof.
  induction c as [|[id' rs] c IH]; simpl; [reflexivity|].
  destruct (id =? id'); [reflexivity|exact IH].
Qed.

Lemma cache_set_dated (id : N) (rs : list row_obj) (c : cache) :
  cache_set id (filter has_date rs) (dated_cache c)
  = dated_cache (cache_set id rs c).
Proof.
  unfold cache_set. rewrite cache_get_dated.
  destruct (cache_get id c); simpl.
  - unfold dated_cache. rewrite !map_map. apply map_ext.
    intros [id' rs']. simpl. destruct (id =? id'); reflexivity.
  - unfold dated_cache. rewrite map_app. reflexivity.
Qed.

(** Reading a sheet through the cache commutes with removing the rows
    without a date. *)
Lemma getCachedSheetRows_dated (w : world) (s : sheet) (c : cache) :
  getCachedSheetRows (dated_world w) s (dated_cache c)
  = (match fst (getCachedSheetRows w s c) with
     | Returned rs => Returned (filter has_date rs)
     | Thrown e => Thrown e
     end,
     dated_cache (snd (getCachedSheetRows w s c))).
Proof.
  unfold getCachedSheetRows. rewrite cache_get_dated.
  destruct (cache_get (sheet_id s) c); simpl; [reflexivity|].
  destruct (fetch_rows w s); simpl; [|reflexivity].
  rewrite cache_set_dated. reflexivity.
Qed.

Lemma all_sheets_loop_dated (w : world) (q : request) (sheets : list sheet) :
  forall st c,
    all_sheets_loop (dated_world w) q sheets st (dated_cache c)
    = (fst (all_sheets_loop w q sheets st c),
       dated_cache (snd (all_sheets_loop w q sheets st c))).
Proof.
  induction sheets as [|s sheets IH]; intros st c; simpl; [reflexivity|].
  destruct (given (q_operador q) && _); [apply IH|].
  unfold bind. rewrite getCachedSheetRows_dated.
  destruct (getCachedSheetRows w s c) as [[rows | e] c']; simpl;
    [|reflexivity].
  rewrite IH.
  rewrite <- (fold_left_filter_skip _ _ (all_row_step (operador_of s) q)
                has_date
                (fun st' r => all_row_step_no_date (operador_of s) q st' r)).
  reflexivity.
Qed.

(** C1: in both loops a row whose [DATA APOSTA] cell parseDateISO maps to
    null leaves [data] and [gruposMap] as they were, whatever the
    operador, from and to parameters; hence the records, and with them
    the entries and every statistic of overview and overview-all, are the
    ones computed from the rows with such rows removed, and so is the
    answer of either handler. *)
Theorem undated_rows_contribute_nothing :
  (forall s q data r,
      has_date r = false -> overview_row_step s q data r = data)
  /\ (forall op q st r,
        has_date r = false -> all_row_step op q st r = st)
  /\ (forall s q rows,
        overview_data s q rows = overview_data s q (filter has_date rows))
  /\ (forall s q rows,
        overview_result s q rows
        = overview_result s q (filter has_date rows))
  /\ (forall op q rows st,
        fold_left (all_row_step op q) rows st
        = fold_left (all_row_step op q) (filter has_date rows) st)
  /\ (forall w req c,
        fst (handle Overview (dated_world w) req (dated_cache c))
        = fst (handle Overview w req c))
  /\ (forall w req c,
        fst (handle OverviewAll (dated_world w) req (dated_cache c))
        = fst (handle OverviewAll w req c)).
Proof.
  assert (E1 : forall s q rows,
             overview_data s q rows
             = overview_data s q (filter has_date rows)).
  { intros s q rows. unfold overview_data.
    apply fold_left_filter_skip. intros st r.
    apply overview_row_step_no_date. }
  assert (E2 : forall op q rows st,
             fold_left (all_row_step op q) rows st
             = fold_left (all_row_step op q) (filter has_date rows) st).
  { intros op q rows st. apply fold_left_filter_skip. intros st' r.
    apply all_row_step_no_date. }
  assert (E3 : forall s q rows,
             overview_result s q rows
             = overview_result s q (filter has_date rows)).
  { intros s q rows. unfold overview_result. rewrite <- E1. reflexivity. }
  repeat split.
  - intros. now apply overview_row_step_no_date.
  - intros. now apply all_row_step_no_date.
  - exact E1.
  - exact E3.
  - exact E2.
  - intros w req c. unfold handle, try_catch, handler_body.
    destruct (given (q_sheetDbId req)); simpl; [|reflexivity].
    unfold bind, await. simpl.
    destruct (db_get w _) as [[s|] | e]; try reflexivity.
    rewrite getCachedSheetRows_dated.
    destruct (getCachedSheetRows w s c) as [[rows | e] c']; simpl;
      [|reflexivity].
    unfold ret. simpl. rewrite <- E3. reflexivity.
  - intros w req c. unfold handle, try_catch, handler_body.
    unfold bind, await. simpl.
    destruct (db_all w) as [[|s sheets] | e]; try reflexivity.
    rewrite all_sheets_loop_dated.
    destruct (all_sheets_loop w req (s :: sheets) ([], []) c)
      as [[st | e] c']; reflexivity.
Qed.

End DateInvariant.

Lemma undated_rows_contribute_nothing_witness :
  has_date (bet_row "sem data" "Jogo 1" "A" "10,00" "1,00") = false
  /\ overview_row_step bets_sheet (request_for "s") []
       (bet_row "sem data" "Jogo 1" "A" "10,00" "1,00") = [].
Proof.
  split; [vm_compute; reflexivity|].
  apply (proj1 (@undated_rows_contribute_nothing ascii_platform)).
  vm_compute; reflexivity.
Defined.

(** ** Trimming and normalization *)

Lemma ws_not_mark (c : codeunit) :
  is_ws c = true -> negb ((0x0300 <=? c) && (c <=? 0x036F)) = true.
Proof.
  intros Hc. ws_facts Hc. apply negb_true_iff.
  destruct ((768 <=? c) && (c <=? 879)) eqn:E; [|reflexivity].
  rewrite andb_true_iff, !N.leb_le in E. lia.
Qed.

Lemma nfd_space_ws (c : codeunit) : is_ws c = true -> is_ws (nfd_space c) = true.
Proof.
  intros Hc. unfold nfd_space.
  destruct (c =? 8192); [reflexivity|].
  destruct (c =? 8193); [reflexivity|exact Hc].
Qed.

Lemma ascii_upper_ws (c : codeunit) : is_ws c = true -> ascii_upper c = c.
Proof.
  intros Hc. ws_facts Hc. unfold ascii_upper.
  destruct ((97 <=? c) && (c <=? 122)) eqn:E; [|reflexivity].
  rewrite andb_true_iff, !N.leb_le in E. lia.
Qed.

Lemma trimStart_idem (s : jsstring) : trimStart (trimStart s) = trimStart s.
Proof.
  induction s as [|c t IH]; simpl; [reflexivity|].
  destruct (is_ws c) eqn:E; [exact IH|]. simpl. rewrite E. reflexivity.
Qed.

Lemma trimStart_head (s : jsstring) :
  trimStart s = [] \/ exists c t, trimStart s = c :: t /\ is_ws c = false.
Proof.
  induction s as [|c t IH]; simpl; [left; reflexivity|].
  destruct (is_ws c) eqn:E; [exact IH|]. right. eauto.
Qed.

Lemma trimEnd_idem (s : jsstring) : trimEnd (trimEnd s) = trimEnd s.
Proof.
  induction s as [|c t IH]; simpl; [reflexivity|].
  destruct (trimEnd t) as [|y t'] eqn:Et.
  - destruct (is_ws c) eqn:E; simpl; [reflexivity|]. rewrite E. reflexivity.
  - change (trimEnd (c :: y :: t')) with
      (match trimEnd (y :: t') with
       | [] => if is_ws c then [] else [c]
       | u => c :: u
       end).
    rewrite IH. reflexivity.
Qed.

Lemma trimStart_trimEnd (s : jsstring) :
  trimStart s = s -> trimStart (trimEnd s) = trimEnd s.
Proof.
  destruct s as [|c t]; [reflexivity|]. simpl.
  destruct (is_ws c) eqn:E.
  - intros Hs. exfalso.
    assert (Hl : (List.length (trimStart t) <= List.length t)%nat).
    { clear. induction t as [|x t IH]; simpl; [lia|].
      destruct (is_ws x); simpl; lia. }
    rewrite Hs in Hl. simpl in Hl. lia.
  - intros _. destruct (trimEnd t); simpl; rewrite E; reflexivity.
Qed.

Lemma trim_idem (s : jsstring) : trim (trim s) = trim s.
Proof.
  unfold trim.
  rewrite (trimStart_trimEnd (trimStart s) (trimStart_idem s)).
  apply trimEnd_idem.
Qed.

Lemma trimEnd_app_ws (s : jsstring) (w : codeunit) :
  is_ws w = true -> trimEnd (s ++ [w]) = trimEnd s.
Proof.
  intros Hw. induction s as [|x t IH]; simpl.
  - rewrite Hw. reflexivity.
  - rewrite IH. reflexivity.
Qed.

Lemma trimEnd_app_other (s : jsstring) (x : codeunit) :
  is_ws x = false -> trimEnd (s ++ [x]) = s ++ [x].
Proof.
  intros Hx. induction s as [|y t IH]; simpl.
  - rewrite Hx. reflexivity.
  - rewrite IH. destruct t; reflexivity.
Qed.

Lemma trimStart_app_ws (s : jsstring) (w : codeunit) :
  is_ws w = true ->
  trimStart (s ++ [w])
  = match trimStart s with
    | [] => []
    | t => t ++ [w]
    end.
Proof.
  intros Hw. induction s as [|x t IH]; simpl.
  - rewrite Hw. reflexivity.
  - destruct (is_ws x); [exact IH | reflexivity].
Qed.

Lemma trim_app_ws (s : jsstring) (w : codeunit) :
  is_ws w = true -> trim (s ++ [w]) = trim s.
Proof.
  intros Hw. unfold trim. rewrite (trimStart_app_ws _ _ Hw).
  destruct (trimStart s) as [|c t]; [reflexivity|].
  apply (trimEnd_app_ws (c :: t) w Hw).
Qed.

Lemma trimStart_collapse_from (b : bool) (s : jsstring) :
  trimStart (collapse_from b s) = trimStart (collapse_from false s).
Proof.
  destruct b; [|reflexivity].
  destruct s as [|c t]; simpl; [reflexivity|].
  destruct (is_ws c); reflexivity.
Qed.

Lemma collapse_from_app_ws (w : codeunit) :
  is_ws w = true ->
  forall (s : jsstring) (b : bool),
    collapse_from b (s ++ [w]) = collapse_from b s
    \/ collapse_from b (s ++ [w]) = collapse_from b s ++ [0x20].
Proof.
  intros Hw. induction s as [|x t IH]; intros b; simpl.
  - rewrite Hw. destruct b; [left|right]; reflexivity.
  - destruct (is_ws x).
    + destruct b.
      * apply IH.
      * destruct (IH true) as [-> | ->]; [left|right]; reflexivity.
    + destruct (IH false) as [-> | ->]; [left|right]; reflexivity.
Qed.

Section Normalization.

Context `{PlatformLaws}.

Lemma norm_ws_head (c : codeunit) (s : jsstring) :
  is_ws c = true -> norm (c :: s) = norm s.
Proof.
  intros Hc. unfold norm.
  rewrite (upper_ws_head c s Hc), (nfd_ws_head c (toUpperCase s) Hc).
  unfold strip_marks. simpl filter.
  rewrite (ws_not_mark _ (nfd_space_ws _ Hc)).
  unfold collapse_ws. simpl collapse_from.
  rewrite (nfd_space_ws _ Hc).
  unfold trim. simpl trimStart.
  rewrite trimStart_collapse_from. reflexivity.
Qed.

Lemma norm_ws_last (c : codeunit) (s : jsstring) :
  is_ws c = true -> norm (s ++ [c]) = norm s.
Proof.
  intros Hc. unfold norm.
  rewrite (upper_ws_last c s Hc), (nfd_ws_last c (toUpperCase s) Hc).
  unfold strip_marks. rewrite filter_app.
  set (X := filter _ (normalizeNFD (toUpperCase s))).
  simpl filter.
  rewrite (ws_not_mark _ (nfd_space_ws _ Hc)).
  unfold collapse_ws.
  destruct (collapse_from_app_ws _ (nfd_space_ws _ Hc) X false) as [E | E];
    rewrite E.
  - reflexivity.
  - apply trim_app_ws. reflexivity.
Qed.

Lemma norm_trimStart (s : jsstring) : norm (trimStart s) = norm s.
Proof.
  induction s as [|c t IH]; simpl; [reflexivity|].
  destruct (is_ws c) eqn:E; [|reflexivity].
  rewrite IH. symmetry. apply norm_ws_head, E.
Qed.

Lemma norm_trimEnd (s : jsstring) : norm (trimEnd s) = norm s.
Proof.
  induction s as [|x t IH] using rev_ind; [reflexivity|].
  destruct (is_ws x) eqn:E.
  - rewrite (trimEnd_app_ws _ _ E), (norm_ws_last _ _ E). exact IH.
  - rewrite (trimEnd_app_other _ _ E). reflexivity.
Qed.

Lemma norm_trim (s : jsstring) : norm (trim s) = norm s.
Proof. unfold trim. rewrite norm_trimEnd. apply norm_trimStart. Qed.

Lemma norm_ascii (s : jsstring) :
  forallb is_ascii s = true ->
  norm s = trim (collapse_ws (strip_marks (List.map ascii_upper s))).
Proof.
  intros Hs. unfold norm. rewrite (upper_ascii s Hs).
  rewrite nfd_ascii; [reflexivity|].
  clear -Hs. induction s as [|c t IH]; simpl in *; [reflexivity|].
  apply andb_true_iff in Hs. destruct Hs as [Hc Ht].
  rewrite (IH Ht), andb_true_r.
  unfold is_ascii, ascii_upper in *. apply N.ltb_lt in Hc. apply N.ltb_lt.
  destruct ((97 <=? c) && (c <=? 122)); lia.
Qed.

(** The seven canonical names are fixed points. *)
Lemma canonical_names_fixed :
  Forall (fun n => canonicalHeaderName n = n)
    (List.map js ["DATA APOSTA"; "LUCRO"; "STAKE"; "CASA"; "ESPORTE";
                  "DATA EVENTO"; "EVENTO"]%string).
Proof.
  repeat constructor;
    unfold canonicalHeaderName;
    rewrite norm_ascii by reflexivity; reflexivity.
Qed.

Lemma canonicalHeaderName_idem (raw : jsstring) :
  canonicalHeaderName (canonicalHeaderName raw) = canonicalHeaderName raw.
Proof.
  pose proof canonical_names_fixed as F.
  repeat match type of F with
         | Forall _ (_ :: _) => inversion F as [|? ? ?Hfix F']; clear F; rename F' into F; subst
         | Forall _ (List.map _ _) => simpl List.map in F
         end.
  clear F.
  unfold canonicalHeaderName at 2 3.
  repeat match goal with
         | |- context [if ?b then _ else _] =>
             let E := fresh "E" in destruct b eqn:E; [assumption|]
         end.
  unfold canonicalHeaderName. rewrite norm_trim.
  repeat match goal with
         | E : ?b = false |- context [if ?b then _ else _] => rewrite E
         end.
  apply trim_idem.
Qed.

End Normalization.

(** The ASCII built-ins satisfy the laws. *)
Lemma ascii_laws : @PlatformLaws ascii_platform.
Proof.
  constructor; simpl.
  - reflexivity.
  - induction s as [|c t IH]; simpl; [reflexivity|].
    rewrite andb_true_iff. intros [Hc Ht]. rewrite (IH Ht). f_equal.
    unfold is_ascii in Hc. apply N.ltb_lt in Hc. unfold nfd_space.
    destruct (c =? 8192) eqn:E1; [apply N.eqb_eq in E1; lia|].
    destruct (c =? 8193) eqn:E2; [apply N.eqb_eq in E2; lia|reflexivity].
  - intros c s Hc. rewrite (ascii_upper_ws c Hc). reflexivity.
  - intros c s Hc. rewrite map_app. simpl.
    rewrite (ascii_upper_ws c Hc). reflexivity.
  - reflexivity.
  - intros c s Hc. rewrite map_app. reflexivity.
Qed.

(** ** Row extractor *)

Lemma findIndex_first (A : Type) (p : A -> bool) (l : list A) :
  existsb p l = true ->
  exists pre x post,
    l = pre ++ x :: post
    /\ forallb (fun y => negb (p y)) pre = true
    /\ p x = true
    /\ findIndex p l = Some (List.length pre).
Proof.
  induction l as [|y l IH]; simpl; [discriminate|].
  destruct (p y) eqn:Hy.
  - intros _. exists [], y, l. repeat split; trivial.
  - simpl. intros Hl. destruct (IH Hl) as (pre & x & post & -> & Hpre & Hx & Hi).
    exists (y :: pre), x, post. simpl. rewrite Hy, Hi, Hpre.
    repeat split; trivial.
Qed.

Section HeaderLock.

Context `{PlatformLaws}.

Lemma established_fixed (h : list jsstring) :
  established h -> List.map canonicalHeaderName h = h.
Proof.
  intros [headerRow ->]. rewrite map_map. apply map_ext.
  intros raw. apply canonicalHeaderName_idem.
Qed.

End HeaderLock.

(** ** Dictionaries *)

Section Dictionaries.

Variable V : Type.

Implicit Types (m : list (jsstring * V)) (k : jsstring).

Lemma alist_get_app m m' k :
  alist_get k (m ++ m')
  = match alist_get k m with
    | Some v => Some v
    | None => alist_get k m'
    end.
Proof.
  induction m as [|[k' v] m IH]; simpl; [reflexivity|].
  destruct (str_eqb k k'); [reflexivity|exact IH].
Qed.

Lemma alist_get_None m k :
  alist_get k m = None <-> ~ In k (List.map fst m).
Proof.
  induction m as [|[k' v] m IH]; simpl; [tauto|].
  destruct (str_eqb k k') eqn:E.
  - apply str_eqb_eq in E. subst. split; [discriminate|tauto].
  - apply str_eqb_neq in E. rewrite IH. split; [intros ? [?|?]|]; intuition congruence.
Qed.

Lemma alist_get_Some_In m k v : alist_get k m = Some v -> In (k, v) m.
Proof.
  induction m as [|[k' v'] m IH]; simpl; [discriminate|].
  destruct (str_eqb k k') eqn:E.
  - apply str_eqb_eq in E. intros [= ->]. subst. left; reflexivity.
  - intros Hg. right. exact (IH Hg).
Qed.

Lemma alist_In_get m k v :
  NoDup (List.map fst m) -> In (k, v) m -> alist_get k m = Some v.
Proof.
  induction m as [|[k' v'] m IH]; simpl; [tauto|].
  intros Hnd [Hin|Hin].
  - injection Hin as -> ->. rewrite str_eqb_refl. reflexivity.
  - inversion Hnd as [|? ? Hnotin Hnd']; subst.
    destruct (str_eqb k k') eqn:E.
    + apply str_eqb_eq in E. subst. exfalso. apply Hnotin.
      apply (in_map fst) in Hin. exact Hin.
    + exact (IH Hnd' Hin).
Qed.

(** Two dictionaries that answer every lookup alike hold the same
    bindings. *)
Lemma same_lookup_Permutation m1 m2 :
  NoDup (List.map fst m1) -> NoDup (List.map fst m2) ->
  (forall k, alist_get k m1 = alist_get k m2) ->
  Permutation m1 m2.
Proof.
  intros H1 H2 Hget. apply NoDup_Permutation.
  - exact (NoDup_map_inv _ _ H1).
  - exact (NoDup_map_inv _ _ H2).
  - intros [k v]. split; intros Hin.
    + apply alist_get_Some_In. rewrite <- Hget. now apply alist_In_get.
    + apply alist_get_Some_In. rewrite Hget. now apply alist_In_get.
Qed.

Lemma alist_adjust_keys m k (f : V -> V) :
  List.map fst (alist_adjust k f m) = List.map fst m.
Proof.
  induction m as [|[k' v] m IH]; simpl; [reflexivity|].
  destruct (str_eqb k k'); simpl; [reflexivity|]. rewrite IH. reflexivity.
Qed.

Lemma alist_get_adjust m k k' (f : V -> V) :
  alist_get k' (alist_adjust k f m)
  = if str_eqb k' k then option_map f (alist_get k m) else alist_get k' m.
Proof.
  induction m as [|[k0 v] m IH]; simpl.
  - destruct (str_eqb k' k); reflexivity.
  - destruct (str_eqb k k0) eqn:E; simpl.
    + apply str_eqb_eq in E. subst k0.
      destruct (str_eqb k' k); reflexivity.
    + rewrite IH. destruct (str_eqb k' k0) eqn:E'; [|reflexivity].
      apply str_eqb_eq in E'. subst k0.
      rewrite (str_eqb_sym k' k), E. reflexivity.
Qed.

Lemma alist_adjust_same m k v :
  alist_get k m = Some v -> alist_adjust k (fun _ => v) m = m.
Proof.
  induction m as [|[k' v'] m IH]; simpl; [reflexivity|].
  destruct (str_eqb k k').
  - intros [= ->]. reflexivity.
  - intros Hg. rewrite (IH Hg). reflexivity.
Qed.

Lemma alist_ensure_keys m k v :
  List.map fst (alist_ensure k v m)
  = match alist_get k m with
    | Some _ => List.map fst m
    | None => List.map fst m ++ [k]
    end.
Proof.
  unfold alist_ensure. destruct (alist_get k m); [reflexivity|].
  rewrite map_app. reflexivity.
Qed.

Lemma alist_ensure_NoDup m k v :
  NoDup (List.map fst m) -> NoDup (List.map fst (alist_ensure k v m)).
Proof.
  intros Hnd. rewrite alist_ensure_keys.
  destruct (alist_get k m) eqn:E; [exact Hnd|].
  apply alist_get_None in E.
  apply NoDup_rev in Hnd. rewrite <- (rev_involutive (_ ++ _)).
  apply NoDup_rev. rewrite rev_app_distr. simpl.
  constructor; [|exact Hnd]. rewrite <- in_rev. exact E.
Qed.

Lemma alist_get_ensure m k k' v :
  alist_get k' (alist_ensure k v m)
  = if str_eqb k' k
    then Some match alist_get k m with
              | Some v' => v'
              | None => v
              end
    else alist_get k' m.
Proof.
  unfold alist_ensure. destruct (str_eqb k' k) eqn:E.
  - apply str_eqb_eq in E. subst k'.
    destruct (alist_get k m) eqn:Eg; [exact Eg|].
    rewrite alist_get_app, Eg. simpl. rewrite str_eqb_refl. reflexivity.
  - destruct (alist_get k m) eqn:Eg; [reflexivity|].
    rewrite alist_get_app. simpl. rewrite E.
    destruct (alist_get k' m); reflexivity.
Qed.

(** [Object.entries] lists every binding once. *)
Lemma insert_by_index_Permutation (kv : jsstring * V) l :
  Permutation (insert_by_index kv l) (kv :: l).
Proof.
  induction l as [|kv' l IH]; simpl; [reflexivity|].
  destruct (index_of (fst kv) <=? index_of (fst kv')); [reflexivity|].
  rewrite IH. apply perm_swap.
Qed.

Lemma own_entries_Permutation m : Permutation (own_entries m) m.
Proof.
  unfold own_entries.
  assert (Hs : forall l, Permutation (fold_right (@insert_by_index V) [] l) l).
  { induction l as [|x l IH]; simpl; [reflexivity|].
    rewrite insert_by_index_Permutation, IH. reflexivity. }
  rewrite Hs. clear Hs.
  induction m as [|x m IH]; simpl; [reflexivity|].
  destruct (is_index x); simpl.
  - apply perm_skip, IH.
  - rewrite <- Permutation_middle. apply perm_skip, IH.
Qed.

End Dictionaries.

(** ** Loops that fill a dictionary *)

Section KeyedLoopFacts.

Variables (X V : Type).
Variable skip : X -> bool.
Variable key : X -> jsstring.
Variable init : X -> V.
Variable upd : X -> V -> V.

Local Abbreviation step := (keyed_step skip key init upd).
Local Abbreviation sel := (selected skip key).
Local Abbreviation value := (built init upd).

Lemma keyed_step_NoDup m x :
  NoDup (List.map fst m) -> NoDup (List.map fst (step m x)).
Proof.
  intros Hnd. unfold keyed_step. destruct (skip x); [exact Hnd|].
  rewrite alist_adjust_keys. apply alist_ensure_NoDup, Hnd.
Qed.

Lemma keyed_fold_NoDup xs m :
  NoDup (List.map fst m) -> NoDup (List.map fst (fold_left step xs m)).
Proof.
  revert m. induction xs as [|x xs IH]; intros m Hnd; simpl; [exact Hnd|].
  apply IH, keyed_step_NoDup, Hnd.
Qed.

Lemma keyed_step_get m x k :
  alist_get k (step m x)
  = if negb (skip x) && str_eqb (key x) k
    then Some (upd x match alist_get k m with
                     | Some v => v
                     | None => init x
                     end)
    else alist_get k m.
Proof.
  unfold keyed_step. destruct (skip x); simpl; [reflexivity|].
  rewrite alist_get_adjust, (str_eqb_sym k (key x)).
  destruct (str_eqb (key x) k) eqn:E.
  - apply str_eqb_eq in E. subst k.
    rewrite alist_get_ensure, str_eqb_refl. reflexivity.
  - rewrite alist_get_ensure, (str_eqb_sym k (key x)), E. reflexivity.
Qed.

(** What a lookup finds after the loop: the value built by the elements
    selected for the key. *)
Lemma keyed_fold_get xs m k :
  alist_get k (fold_left step xs m) = value (alist_get k m) (sel k xs).
Proof.
  revert m. induction xs as [|x xs IH]; intros m; simpl; [reflexivity|].
  rewrite IH, keyed_step_get. unfold selected. simpl filter.
  destruct (negb (skip x) && str_eqb (key x) k); [|reflexivity].
  simpl.
  destruct (filter _ xs) as [|y ys]; simpl.
  - reflexivity.
  - destruct (alist_get k m); reflexivity.
Qed.

Lemma selected_Permutation xs xs' k :
  Permutation xs xs' -> Permutation (sel k xs) (sel k xs').
Proof.
  unfold selected. induction 1; simpl.
  - reflexivity.
  - destruct (_ && _); [apply perm_skip|]; assumption.
  - destruct (_ && _), (_ && _); try reflexivity. apply perm_swap.
  - etransitivity; eassumption.
Qed.

(** Two runs of the loop whose lookups agree through a view [proj] of
    the values give the same bindings, seen through [proj]. *)
Lemma keyed_fold_Permutation (W : Type) (proj : V -> W) xs xs' :
  (forall k, option_map proj (value None (sel k xs))
             = option_map proj (value None (sel k xs'))) ->
  Permutation
    (List.map (fun kv => (fst kv, proj (snd kv))) (fold_left step xs []))
    (List.map (fun kv => (fst kv, proj (snd kv))) (fold_left step xs' [])).
Proof.
  intros Hv.
  assert (Hget : forall (m : list (jsstring * V)) k,
             alist_get k (List.map (fun kv => (fst kv, proj (snd kv))) m)
             = option_map proj (alist_get k m)).
  { induction m as [|[k' v] m IH]; intros k; simpl; [reflexivity|].
    destruct (str_eqb k k'); [reflexivity|apply IH]. }
  apply same_lookup_Permutation.
  - rewrite map_map. simpl. apply keyed_fold_NoDup. constructor.
  - rewrite map_map. simpl. apply keyed_fold_NoDup. constructor.
  - intros k. rewrite !Hget, !keyed_fold_get. apply Hv.
Qed.

(** The keys bound after the loop do not depend on the order of the
    elements. *)
Lemma keyed_fold_keys_Permutation xs xs' :
  Permutation xs xs' ->
  Permutation (List.map fst (fold_left step xs []))
              (List.map fst (fold_left step xs' [])).
Proof.
  intros Hp.
  assert (Hin : forall ys k,
             In k (List.map fst (fold_left step ys [])) <-> sel k ys <> []).
  { intros ys k.
    pose proof (alist_get_None _ (fold_left step ys []) k) as Hn.
    rewrite keyed_fold_get in Hn. simpl alist_get in Hn.
    destruct (sel k ys) as [|y sel'] eqn:E; simpl in Hn.
    - split; [intros Hk; exfalso; apply (proj1 Hn); trivial | congruence].
    - split; [discriminate|]. intros _.
      destruct (in_dec (list_eq_dec N.eq_dec) k
                  (List.map fst (fold_left step ys []))) as [Hk | Hk];
        [exact Hk|].
      apply Hn in Hk. discriminate. }
  apply NoDup_Permutation; try (apply keyed_fold_NoDup; constructor).
  intros k. rewrite !Hin.
  pose proof (selected_Permutation xs xs' k Hp) as Hs.
  split; intros Hne E; apply Hne.
  - rewrite E in Hs. apply Permutation_nil. symmetry. exact Hs.
  - rewrite E in Hs. apply Permutation_nil. exact Hs.
Qed.

End KeyedLoopFacts.

(** ** The counters of porOperador, porCasa and porEsporte *)

Section CounterFacts.

Context {A : Type} `{Num A}.

Lemma item_step_keyed (m : list (jsstring * acc A)) (it : item) :
  item_step m it = keyed_step item_skip fst zero_acc bump m it.
Proof. reflexivity. Qed.

Lemma item_fold_keyed (items : list item) (m : list (jsstring * acc A)) :
  fold_left item_step items m
  = fold_left (keyed_step item_skip fst zero_acc bump) items m.
Proof. reflexivity. Qed.

Lemma casa_fold_items (data : list (record A)) (m : list (jsstring * acc A)) :
  fold_left casa_step data m = fold_left item_step (casa_items data) m.
Proof.
  revert m. induction data as [|d data IH]; intros m; [reflexivity|].
  simpl fold_left. rewrite IH. unfold casa_items, casa_step. simpl filter.
  destruct (str_eqb (casa d) []); reflexivity.
Qed.

Lemma esporte_fold_items (data : list (record A))
    (m : list (jsstring * acc A)) :
  fold_left esporte_step data m = fold_left item_step (esporte_items data) m.
Proof.
  revert m. induction data as [|d data IH]; intros m; [reflexivity|].
  simpl fold_left. rewrite IH. unfold esporte_items, esporte_step.
  simpl filter. destruct (str_eqb (esporte d) []); reflexivity.
Qed.

Lemma operador_fold_items (grupos : list (grupo A))
    (m : list (jsstring * acc A)) :
  fold_left operador_step grupos m
  = fold_left item_step (operador_items grupos) m.
Proof.
  revert m. induction grupos as [|g grupos IH]; intros m; [reflexivity|].
  simpl. rewrite IH. reflexivity.
Qed.

Lemma bump_fold (its : list item) (o : acc A) :
  fold_left (fun v x => bump x v) its o
  = {| a_key := a_key o;
       entradas := entradas o + List.length its;
       a_lucro := fold_left nadd (List.map (fun it => fst (snd it)) its)
                    (a_lucro o);
       stake_total := fold_left nadd (List.map (fun it => snd (snd it)) its)
                        (stake_total o) |}.
Proof.
  revert o. induction its as [|it its IH]; intros o; simpl.
  - rewrite Nat.add_0_r. destruct o; reflexivity.
  - rewrite IH. simpl. f_equal. lia.
Qed.

(** The counter found under [k] after the loop: none when no element
    reached [k], else the count and the sums, in order, of those that
    did. *)
Lemma item_fold_get (items : list item) (k : jsstring) :
  alist_get k (fold_left item_step items [])
  = match selected item_skip fst k items with
    | [] => None
    | sel => Some (counter_of k sel)
    end.
Proof.
  rewrite item_fold_keyed, keyed_fold_get. simpl alist_get.
  destruct (selected item_skip fst k items) as [|it sel] eqn:E;
    [reflexivity|].
  unfold built. rewrite bump_fold. unfold counter_of, total. simpl.
  assert (Hk : fst it = k).
  { assert (Hin : In it (selected item_skip fst k items))
      by (rewrite E; left; reflexivity).
    unfold selected in Hin. apply filter_In in Hin.
    destruct Hin as [_ Hin]. apply andb_true_iff in Hin.
    apply str_eqb_eq. tauto. }
  rewrite Hk. reflexivity.
Qed.

Lemma item_fold_NoDup (items : list item) :
  NoDup (List.map fst (fold_left item_step items [])).
Proof. rewrite item_fold_keyed. apply keyed_fold_NoDup. constructor. Qed.

(** Every element of a breakdown is the counter of its key. *)
Lemma finish_In (items : list item) (g : breakdown A) :
  In g (finish (fold_left item_step items [])) ->
  exists it sel,
    selected item_skip fst (b_key g) items = it :: sel
    /\ b_entradas g = List.length (it :: sel)
    /\ b_lucro g = total (List.map (fun x => fst (snd x)) (it :: sel))
    /\ b_stake_total g = total (List.map (fun x => snd (snd x)) (it :: sel)).
Proof.
  unfold finish. intros Hin. apply in_map_iff in Hin.
  destruct Hin as ([k o] & <- & Hin). simpl.
  apply (Permutation_in _ (own_entries_Permutation _ _)) in Hin.
  apply (alist_In_get _ _ _ _ (item_fold_NoDup items)) in Hin.
  rewrite item_fold_get in Hin.
  destruct (selected item_skip fst k items) as [|it sel] eqn:E;
    [discriminate|].
  injection Hin as <-. simpl. rewrite E. exists it, sel. auto.
Qed.

End CounterFacts.

(** ** Exact arithmetic *)

Lemma fold_left_Qcplus (l : list Qc) (a : Qc) :
  fold_left Qcplus l a = (a + sumQ l)%Qc.
Proof.
  revert a. induction l as [|x l IH]; intros a; simpl.
  - ring.
  - rewrite IH. ring.
Qed.

Lemma total_sumQ (l : list Qc) : total l = sumQ l.
Proof. unfold total. qc_ops. rewrite fold_left_Qcplus. ring. Qed.

Lemma sumQ_app (l l' : list Qc) : sumQ (l ++ l') = (sumQ l + sumQ l')%Qc.
Proof. induction l as [|x l IH]; simpl; [ring|]. rewrite IH. ring. Qed.

Lemma sumQ_Permutation (l l' : list Qc) :
  Permutation l l' -> sumQ l = sumQ l'.
Proof.
  induction 1; simpl.
  - reflexivity.
  - congruence.
  - ring.
  - congruence.
Qed.

Lemma total_Permutation (l l' : list Qc) :
  Permutation l l' -> total l = total l'.
Proof. intros Hp. rewrite !total_sumQ. apply sumQ_Permutation, Hp. Qed.

Lemma of_count_add (a b : nat) :
  of_count (A := Qc) (a + b) = (of_count a + of_count b)%Qc.
Proof.
  qc_ops. apply Qc_is_canon. unfold Qcplus, Q2Qc. cbn [this].
  rewrite !Qred_correct, Nat2Z.inj_add, inject_Z_plus. reflexivity.
Qed.

Lemma of_count_nonzero (n : nat) : (0 < n)%nat -> of_count (A := Qc) n <> 0%Qc.
Proof.
  intros Hn E. qc_ops. apply (f_equal this) in E.
  unfold Q2Qc in E. cbn [this] in E. apply Qred_eq_iff in E.
  unfold Qeq in E. simpl in E. lia.
Qed.

(** The literal [1e-6] of the program is the binary64 value [EPS]. *)
Example EPS_is_1e_6 : Number (js "1e-6") = EPS (A := float).
Proof. vm_compute. reflexivity. Qed.

(** ** Green and red percentages *)

(** C7, as the code has it: the percentages are the counts of green and
    red entries divided by their sum and scaled to 100, both 0 when no
    entry is green or red, whatever the arithmetic; in exact arithmetic
    they add up to 100 whenever an entry is green or red.  In binary64
    each quotient and product is rounded, so the sum is 100 only up to
    rounding. *)
Theorem green_red_percentages :
  (forall (A : Type) (N : Num A) (data : list (record A))
          (grupos : list (grupo A)),
      let o := overview (buildStatsFromData data grupos) in
      let greens := count (is_green (A := A)) grupos in
      let reds := count (is_red (A := A)) grupos in
      ((greens + reds = 0)%nat ->
       greenPercent o = nzero /\ redPercent o = nzero)
      /\ ((0 < greens + reds)%nat ->
          greenPercent o
          = nmul (ndiv (of_count greens) (of_count (greens + reds))) n100
          /\ redPercent o
             = nmul (ndiv (of_count reds) (of_count (greens + reds))) n100))
  /\ (forall (data : list (record Qc)) (grupos : list (grupo Qc)),
        let o := overview (buildStatsFromData data grupos) in
        (0 < count (is_green (A := Qc)) grupos
             + count (is_red (A := Qc)) grupos)%nat ->
        (greenPercent o + redPercent o)%Qc = n100).
Proof.
  split.
  - intros A N data grupos o greens reds. subst o. simpl.
    fold (is_green (A := A)). fold (is_red (A := A)).
    fold greens. fold reds. split.
    + intros ->. split; reflexivity.
    + intros Hpos. apply Nat.ltb_lt in Hpos. rewrite Hpos. split; reflexivity.
  - intros data grupos o Hpos. subst o.
    cbn [overview buildStatsFromData greenPercent redPercent].
    change (fun g : grupo Qc => nltb EPS (lucroTotal g))
      with (is_green (A := Qc)).
    change (fun g : grupo Qc => nltb (lucroTotal g) (nopp EPS))
      with (is_red (A := Qc)).
    set (g := count (is_green (A := Qc)) grupos) in *.
    set (r := count (is_red (A := Qc)) grupos) in *.
    pose proof (of_count_nonzero _ Hpos) as Hnz.
    apply Nat.ltb_lt in Hpos. rewrite Hpos.
    rewrite of_count_add in *.
    change (@nmul Qc Qc_Num) with Qcmult.
    change (@ndiv Qc Qc_Num) with Qcdiv.
    field. exact Hnz.
Qed.

Lemma green_red_percentages_witness :
  let grupos := @group_entries Qc _ ascii_platform [exact_a; exact_b] in
  let o := overview (buildStatsFromData [exact_a; exact_b] grupos) in
  (0 < count (is_green (A := Qc)) grupos
       + count (is_red (A := Qc)) grupos)%nat
  /\ (greenPercent o + redPercent o)%Qc = n100.
Proof.
  split; [vm_compute; lia|].
  apply (proj2 green_red_percentages).
  vm_compute; lia.
Defined.

(** C7 fails as stated: with one green entry and two red ones the two
    binary64 percentages add up to less than 100. *)
Lemma percentages_do_not_add_to_100 :
  let data := overview_data bets_sheet
                (request_for "1") rows_one_green_two_red in
  let grupos := @group_entries float _ ascii_platform data in
  let o := overview (buildStatsFromData data grupos) in
  count (is_green (A := float)) grupos = 1%nat
  /\ count (is_red (A := float)) grupos = 2%nat
  /\ PrimFloat.eqb (greenPercent o + redPercent o) 100 = false
  /\ PrimFloat.ltb (greenPercent o + redPercent o) 100 = true.
Proof. vm_compute. repeat split; reflexivity. Qed.

(** ** The porCasa breakdown *)

Section CasaFacts.

Context {A : Type} `{Num A}.

Lemma selected_casa_items (data : list (record A)) (k : jsstring) :
  selected item_skip fst k (casa_items data)
  = List.map (fun d => (casa d, (lucro d, stake d)))
      (filter (fun d => negb (str_eqb (casa d) [])
                        && (negb (inherited (casa d))
                            && str_eqb (casa d) k)) data).
Proof.
  unfold selected, casa_items.
  induction data as [|d data IH]; simpl; [reflexivity|].
  destruct (str_eqb (casa d) []); simpl; [exact IH|].
  unfold item_skip at 1. simpl fst.
  destruct (negb (inherited (casa d)) && str_eqb (casa d) k); simpl;
    rewrite IH; reflexivity.
Qed.

(** A porCasa element stands for the records of one non-empty casa: it
    counts them and adds their profits and stakes in order. *)
Lemma porCasa_In (data : list (record A)) (grupos : list (grupo A))
    (g : breakdown A) :
  In g (porCasa (buildStatsFromData data grupos)) ->
  let sel := filter (fun d => str_eqb (casa d) (b_key g)) data in
  b_key g <> [] /\ inherited (b_key g) = false /\ sel <> []
  /\ b_entradas g = List.length sel
  /\ b_lucro g = total (List.map lucro sel)
  /\ b_stake_total g = total (List.map stake sel).
Proof.
  cbn [porCasa buildStatsFromData]. rewrite casa_fold_items.
  intros Hin. apply finish_In in Hin.
  destruct Hin as (it & its & Hsel & Hn & Hl & Hs).
  rewrite selected_casa_items in Hsel.
  set (k := b_key g) in *.
  assert (Hd : exists d, In d data /\ casa d = k
                         /\ casa d <> [] /\ inherited (casa d) = false).
  { assert (Hi : In it (it :: its)) by (left; reflexivity).
    rewrite <- Hsel in Hi. apply in_map_iff in Hi.
    destruct Hi as (d & _ & Hi). apply filter_In in Hi.
    destruct Hi as [Hi Hp]. exists d.
    rewrite !andb_true_iff, !negb_true_iff in Hp.
    destruct Hp as (Hne & Hinh & Hk).
    apply str_eqb_eq in Hk. apply str_eqb_neq in Hne. auto. }
  destruct Hd as (d0 & Hd0 & Hk & Hne & Hinh). rewrite Hk in Hne, Hinh.
  assert (Hf : filter (fun d => negb (str_eqb (casa d) [])
                               && (negb (inherited (casa d))
                                   && str_eqb (casa d) k)) data
               = filter (fun d => str_eqb (casa d) k) data).
  { apply filter_ext. intros d.
    destruct (str_eqb (casa d) k) eqn:E; [|rewrite !andb_false_r; reflexivity].
    apply str_eqb_eq in E. rewrite E, Hinh.
    apply str_eqb_neq in Hne. rewrite Hne. reflexivity. }
  rewrite Hf in Hsel. simpl. fold k.
  rewrite Hn, Hl, Hs, <- Hsel, !map_map, length_map. simpl.
  repeat split; trivial.
  intros E. rewrite E in Hsel. discriminate.
Qed.

End CasaFacts.

Section ExactCounters.

Local Abbreviation profit :=
  (fun kv : jsstring * acc Qc => a_lucro (snd kv)).

Lemma sumQ_adjust (k : jsstring) (f : acc Qc -> acc Qc)
    (m : list (jsstring * acc Qc)) :
  sumQ (List.map profit (alist_adjust k f m))
  = match alist_get k m with
    | Some o => (sumQ (List.map profit m) - a_lucro o + a_lucro (f o))%Qc
    | None => sumQ (List.map profit m)
    end.
Proof.
  induction m as [|[k' o] m IH]; simpl; [reflexivity|].
  destruct (str_eqb k k'); simpl.
  - ring.
  - rewrite IH. destruct (alist_get k m); ring.
Qed.

Lemma sumQ_item_step (m : list (jsstring * acc Qc)) (it : item) :
  item_skip it = false ->
  sumQ (List.map profit (item_step m it))
  = (sumQ (List.map profit m) + fst (snd it))%Qc.
Proof.
  intros Hs. unfold item_step, acc_step. unfold item_skip in Hs. rewrite Hs.
  rewrite sumQ_adjust, alist_get_ensure, str_eqb_refl.
  unfold alist_ensure.
  destruct (alist_get (fst it) m) as [o|]; cbn [a_lucro]; qc_ops.
  - ring.
  - rewrite map_app, sumQ_app. simpl. ring.
Qed.

Lemma sumQ_item_fold (items : list item) (m : list (jsstring * acc Qc)) :
  Forall (fun it => item_skip it = false) items ->
  sumQ (List.map profit (fold_left item_step items m))
  = (sumQ (List.map profit m)
     + sumQ (List.map (fun it : item => fst (snd it)) items))%Qc.
Proof.
  intros Hall. revert m.
  induction Hall as [|it items Hit _ IH]; intros m; simpl.
  - ring.
  - rewrite IH, (sumQ_item_step _ _ Hit). ring.
Qed.

Lemma sumQ_finish (m : list (jsstring * acc Qc)) :
  sumQ (List.map (@b_lucro Qc) (finish m)) = sumQ (List.map profit m).
Proof.
  unfold finish. rewrite map_map. simpl.
  apply sumQ_Permutation, Permutation_map, own_entries_Permutation.
Qed.

End ExactCounters.

(** C6, as the code has it: in any arithmetic, binary64 included, every
    porCasa element stands for one non-empty casa and holds the number
    of its records and the sums, in record order, of their profits and
    stakes, while the overview total adds the profit of every record in
    record order.  In exact arithmetic, and when no casa is the name of
    a property that objects inherit, the profits of the porCasa elements
    add up to the profit of the records whose casa is not empty.  In
    binary64 the two sums can differ by more than rounding: for the
    profits 1e308, -1e308 and 1e308 at the houses A, B and A the records
    add up to 1e308 and the porCasa elements to Infinity. *)
Theorem porCasa_profit_sum :
  (forall (A : Type) (N : Num A) (data : list (record A))
          (grupos : list (grupo A)) (g : breakdown A),
      In g (porCasa (buildStatsFromData data grupos)) ->
      let sel := filter (fun d => str_eqb (casa d) (b_key g)) data in
      b_key g <> [] /\ sel <> []
      /\ b_entradas g = List.length sel
      /\ b_lucro g = total (List.map lucro sel)
      /\ b_stake_total g = total (List.map stake sel))
  /\ (forall (A : Type) (N : Num A) (data : list (record A))
             (grupos : list (grupo A)),
        totalLucro (overview (buildStatsFromData data grupos))
        = total (List.map lucro data))
  /\ (forall (data : list (record Qc)) (grupos : list (grupo Qc)),
        Forall (fun d => inherited (casa d) = false) data ->
        total (List.map (@b_lucro Qc)
                 (porCasa (buildStatsFromData data grupos)))
        = total (List.map lucro
                   (filter (fun d => negb (str_eqb (casa d) [])) data)))
  /\ (let data := overview_data bets_sheet (request_for "1") rows_huge in
      let s := buildStatsFromData data
                 (@group_entries float _ ascii_platform data) in
      forallb (fun d => negb (inherited (casa d))
                        && negb (str_eqb (casa d) [])) data = true
      /\ List.map lucro data = [huge; PrimFloat.opp huge; huge]
      /\ totalLucro (overview s) = huge
      /\ total (List.map lucro
                  (filter (fun d => negb (str_eqb (casa d) [])) data))
         = huge
      /\ total (List.map (@b_lucro float) (porCasa s)) = infinity).
Proof.
  split; [|split; [|split]]; [| | |vm_compute; repeat split; reflexivity].
  - intros A N data grupos g Hin.
    destruct (porCasa_In data grupos g Hin) as (H1 & _ & H3 & H4 & H5 & H6).
    cbv zeta. auto.
  - intros A N data grupos.
    cbn [overview buildStatsFromData totalLucro]. unfold total.
    generalize (@nzero A N).
    induction data as [|d data IH]; intros a; simpl; [reflexivity|apply IH].
  - intros data grupos Hinh.
    cbn [porCasa buildStatsFromData].
    rewrite !total_sumQ, casa_fold_items, sumQ_finish, sumQ_item_fold.
    + simpl. unfold casa_items. rewrite map_map. simpl.
      exact (Qcplus_0_l _).
    + unfold casa_items. apply Forall_forall. intros it Hit.
      apply in_map_iff in Hit. destruct Hit as (d & <- & Hd).
      apply filter_In in Hd. destruct Hd as [Hd _].
      rewrite Forall_forall in Hinh. exact (Hinh d Hd).
Qed.

Lemma porCasa_profit_sum_witness :
  let data := [exact_a; exact_b] in
  let grupos := @group_entries Qc _ ascii_platform data in
  Forall (fun d => inherited (casa d) = false) data
  /\ total (List.map (@b_lucro Qc)
              (porCasa (buildStatsFromData data grupos)))
     = total (List.map lucro
                (filter (fun d => negb (str_eqb (casa d) [])) data)).
Proof.
  assert (H : Forall (fun d : record Qc => inherited (casa d) = false)
                [exact_a; exact_b])
    by (repeat constructor).
  split; [exact H|].
  exact (proj1 (proj2 (proj2 porCasa_profit_sum)) _ _ H).
Defined.

(** C6 fails as stated: for three records at two houses the binary64 sum
    of the porCasa profits is not the sum of the profits of the records,
    all of which have a casa. *)
Lemma porCasa_sum_differs :
  let data := overview_data bets_sheet
                (request_for "1") rows_two_houses in
  let s := buildStatsFromData data (@group_entries float _ ascii_platform data) in
  filter (fun d => negb (str_eqb (casa d) [])) data = data
  /\ total (List.map lucro data) = 2.5%float
  /\ totalLucro (overview s) = 2.5%float
  /\ PrimFloat.ltb 2.5 (total (List.map (@b_lucro float) (porCasa s))) = true
  /\ PrimFloat.eqb (total (List.map (@b_lucro float) (porCasa s)))
       (total (List.map lucro
                 (filter (fun d => negb (str_eqb (casa d) [])) data)))
     = false.
Proof. vm_compute. repeat split; reflexivity. Qed.

(** ** Order of strings and the sort of lucroPorDia *)

Lemma str_ltb_irrefl (a : jsstring) : str_ltb a a = false.
Proof.
  induction a as [|x a IH]; simpl; [reflexivity|].
  rewrite N.ltb_irrefl, N.eqb_refl, IH. reflexivity.
Qed.

Lemma str_ltb_trans (a b c : jsstring) :
  str_ltb a b = true -> str_ltb b c = true -> str_ltb a c = true.
Proof.
  revert b c. induction a as [|x a IH]; intros [|y b] [|z c]; simpl;
    try discriminate; trivial.
  rewrite !orb_true_iff, !andb_true_iff, !N.ltb_lt, !N.eqb_eq.
  intros [Hxy | [Hxy Hab]] [Hyz | [Hyz Hbc]].
  - left. lia.
  - left. lia.
  - left. lia.
  - right. split; [lia|]. exact (IH b c Hab Hbc).
Qed.

Lemma str_ltb_total (a b : jsstring) :
  str_ltb a b = false -> a <> b -> str_ltb b a = true.
Proof.
  revert b. induction a as [|x a IH]; intros [|y b]; simpl;
    try discriminate; trivial.
  - intros _ Hne. exfalso. apply Hne. reflexivity.
  - rewrite orb_false_iff, andb_false_iff, N.ltb_ge, N.eqb_neq.
    rewrite orb_true_iff, andb_true_iff, N.ltb_lt, N.eqb_eq.
    intros [Hxy Hrest] Hne.
    destruct (N.eq_dec x y) as [E | E].
    + right. split; [lia|]. subst y. apply IH.
      * destruct Hrest as [Hc | Hc]; [congruence | exact Hc].
      * intros E. apply Hne. rewrite E. reflexivity.
    + left. lia.
Qed.

Lemma filter_Permutation (T : Type) (p : T -> bool) (l l' : list T) :
  Permutation l l' -> Permutation (filter p l) (filter p l').
Proof.
  induction 1; simpl.
  - reflexivity.
  - destruct (p x); [apply perm_skip|]; assumption.
  - destruct (p x), (p y); try reflexivity. apply perm_swap.
  - etransitivity; eassumption.
Qed.

Lemma count_Permutation (T : Type) (p : T -> bool) (l l' : list T) :
  Permutation l l' -> count p l = count p l'.
Proof.
  intros Hp. unfold count.
  apply Permutation_length, filter_Permutation, Hp.
Qed.

Section SortFacts.

Variable V : Type.

Implicit Types (x : jsstring * V) (l : list (jsstring * V)).

Lemma insert_by_date_Permutation x l :
  Permutation (insert_by_date x l) (x :: l).
Proof.
  induction l as [|y l IH]; simpl; [reflexivity|].
  destruct (str_ltb (fst x) (fst y)); [reflexivity|].
  rewrite IH. apply perm_swap.
Qed.

Lemma sort_by_date_Permutation l : Permutation (sort_by_date l) l.
Proof.
  induction l as [|x l IH]; simpl; [reflexivity|].
  rewrite insert_by_date_Permutation. apply perm_skip, IH.
Qed.

Lemma insert_by_date_sorted x l :
  StronglySorted (@key_lt V) l ->
  ~ In (fst x) (List.map fst l) ->
  StronglySorted (@key_lt V) (insert_by_date x l).
Proof.
  induction l as [|y l IH]; simpl; intros Hs Hx.
  - repeat constructor.
  - apply StronglySorted_inv in Hs. destruct Hs as [Hs Hy].
    destruct (str_ltb (fst x) (fst y)) eqn:E.
    + constructor; [constructor; assumption|].
      constructor; [exact E|].
      eapply Forall_impl; [|exact Hy]. intros z Hz.
      exact (str_ltb_trans _ _ _ E Hz).
    + constructor.
      * apply IH; [exact Hs | tauto].
      * apply (Permutation_Forall
                 (Permutation_sym (insert_by_date_Permutation x l))).
        constructor; [|exact Hy].
        apply str_ltb_total; [exact E|]. intros Heq. apply Hx. left.
        symmetry. exact Heq.
Qed.

Lemma sort_by_date_sorted l :
  NoDup (List.map fst l) -> StronglySorted (@key_lt V) (sort_by_date l).
Proof.
  induction l as [|x l IH]; simpl; intros Hnd; [constructor|].
  inversion Hnd as [|? ? Hx Hnd']; subst.
  apply insert_by_date_sorted; [exact (IH Hnd')|].
  intros Hin. apply Hx.
  apply (Permutation_in _
           (Permutation_map fst (sort_by_date_Permutation l)) Hin).
Qed.

Lemma sorted_unique l l' :
  StronglySorted (@key_lt V) l -> StronglySorted (@key_lt V) l' ->
  Permutation l l' -> l = l'.
Proof.
  intros Hs. revert l'.
  induction Hs as [|a t Hs IH Ha]; intros l' Hs' Hp.
  - apply Permutation_nil in Hp. symmetry. exact Hp.
  - destruct l' as [|b t'].
    + apply Permutation_sym, Permutation_nil in Hp. discriminate.
    + apply StronglySorted_inv in Hs'. destruct Hs' as [Hs' Hb].
      assert (Hab : a = b).
      { assert (Hina : In a (b :: t'))
          by (apply (Permutation_in _ Hp); left; reflexivity).
        assert (Hinb : In b (a :: t))
          by (apply (Permutation_in _ (Permutation_sym Hp)); left;
              reflexivity).
        destruct Hina as [E | Hina]; [symmetry; exact E|].
        destruct Hinb as [E | Hinb]; [exact E|].
        rewrite Forall_forall in Ha, Hb.
        pose proof (str_ltb_trans _ _ _ (Ha b Hinb) (Hb a Hina)) as Hcyc.
        rewrite str_ltb_irrefl in Hcyc. discriminate. }
      subst b. f_equal. apply IH; [exact Hs'|].
      exact (Permutation_cons_inv Hp).
Qed.

Lemma sort_by_date_unique l l' :
  NoDup (List.map fst l) -> Permutation l l' ->
  sort_by_date l = sort_by_date l'.
Proof.
  intros Hnd Hp. apply sorted_unique.
  - apply sort_by_date_sorted, Hnd.
  - apply sort_by_date_sorted.
    exact (Permutation_NoDup (Permutation_map fst Hp) Hnd).
  - rewrite !sort_by_date_Permutation. exact Hp.
Qed.

End SortFacts.

(** ** Order independence in exact arithmetic *)

Section ExactOrder.

Context `{Platform}.

Lemma counter_of_Permutation (k : jsstring) (its its' : list (@item Qc)) :
  Permutation its its' -> counter_of k its = counter_of k its'.
Proof.
  intros Hp. unfold counter_of. f_equal.
  - apply Permutation_length, Hp.
  - apply total_Permutation, Permutation_map, Hp.
  - apply total_Permutation, Permutation_map, Hp.
Qed.

(** A breakdown holds the same elements whatever the order in which its
    items arrive. *)
Lemma finish_Permutation (items items' : list (@item Qc)) :
  Permutation items items' ->
  Permutation (finish (fold_left item_step items []))
              (finish (fold_left item_step items' [])).
Proof.
  intros Hp. unfold finish. apply Permutation_map.
  rewrite !own_entries_Permutation.
  apply same_lookup_Permutation; try apply item_fold_NoDup.
  intros k. rewrite !item_fold_get.
  pose proof (selected_Permutation _ item_skip fst _ _ k Hp) as Hs.
  destruct (selected item_skip fst k items) as [|it sel].
  - apply Permutation_nil in Hs. rewrite Hs. reflexivity.
  - destruct (selected item_skip fst k items') as [|it' sel'].
    + apply Permutation_sym, Permutation_nil in Hs. discriminate.
    + rewrite (counter_of_Permutation k _ _ Hs). reflexivity.
Qed.

Lemma casa_items_Permutation (data data' : list (record Qc)) :
  Permutation data data' ->
  Permutation (casa_items data) (casa_items data').
Proof.
  intros Hp. unfold casa_items.
  apply Permutation_map, filter_Permutation, Hp.
Qed.

Lemma esporte_items_Permutation (data data' : list (record Qc)) :
  Permutation data data' ->
  Permutation (esporte_items data) (esporte_items data').
Proof.
  intros Hp. unfold esporte_items.
  apply Permutation_map, filter_Permutation, Hp.
Qed.

Lemma group_step_keyed (m : list (jsstring * grupo Qc)) (d : record Qc) :
  group_step m d
  = keyed_step (fun _ => false) entry_key new_grupo add_to_grupo m d.
Proof. reflexivity. Qed.

Lemma add_to_grupo_fold (sel : list (record Qc)) (g : grupo Qc) :
  operador_item (fold_left (fun v d => add_to_grupo d v) sel g)
  = (g_operador g,
     ((lucroTotal g + sumQ (List.map lucro sel))%Qc,
      (stakeTotal g + sumQ (List.map stake sel))%Qc)).
Proof.
  revert g. induction sel as [|d sel IH]; intros g; simpl.
  - unfold operador_item. rewrite !Qcplus_0_r. reflexivity.
  - rewrite IH. cbn [add_to_grupo g_operador lucroTotal stakeTotal]. qc_ops.
    rewrite !Qcplus_assoc. reflexivity.
Qed.

(** What porOperador and the counts of green and red entries read of
    the entries does not depend on the order of the records. *)
Lemma operador_items_Permutation (data data' : list (record Qc)) :
  Permutation data data' ->
  key_fixes_operador data ->
  Permutation (List.map (@operador_item Qc) (group_entries data))
              (List.map (@operador_item Qc) (group_entries data')).
Proof.
  intros Hp Hkey. unfold group_entries.
  assert (Hm : forall m : list (jsstring * grupo Qc),
             List.map (@operador_item Qc) (List.map snd m)
             = List.map snd
                 (List.map (fun kv => (fst kv, operador_item (snd kv))) m)).
  { intros m. rewrite !map_map. reflexivity. }
  rewrite !Hm. apply Permutation_map.
  apply (keyed_fold_Permutation _ _ (fun _ => false) entry_key new_grupo
           add_to_grupo _ (@operador_item Qc)).
  intros k.
  pose proof (selected_Permutation _ (fun _ : record Qc => false) entry_key
                _ _ k Hp) as Hs.
  destruct (selected _ entry_key k data) as [|d sel] eqn:E.
  - apply Permutation_nil in Hs. rewrite Hs. reflexivity.
  - destruct (selected _ entry_key k data') as [|d' sel'] eqn:E'.
    + apply Permutation_sym, Permutation_nil in Hs. discriminate.
    + unfold built, option_map. rewrite !add_to_grupo_fold.
      cbn [new_grupo g_operador lucroTotal stakeTotal].
      assert (Hsel : forall x l (dat : list (record Qc)),
                 selected (fun _ : record Qc => false) entry_key k dat = l ->
                 In x l -> In x dat /\ entry_key x = k).
      { intros x l dat <- Hin. unfold selected in Hin.
        apply filter_In in Hin. destruct Hin as [Hin Hk]. simpl in Hk.
        apply str_eqb_eq in Hk. auto. }
      destruct (Hsel d _ _ E (or_introl eq_refl)) as [Hd Hkd].
      destruct (Hsel d' _ _ E' (or_introl eq_refl)) as [Hd' Hkd'].
      apply (Permutation_in _ (Permutation_sym Hp)) in Hd'.
      rewrite (Hkey d d' Hd Hd' (eq_trans Hkd (eq_sym Hkd'))).
      rewrite (sumQ_Permutation _ _ (Permutation_map lucro Hs)).
      rewrite (sumQ_Permutation _ _ (Permutation_map stake Hs)).
      reflexivity.
Qed.

Lemma dia_step_keyed (m : list (jsstring * Qc)) (d : record Qc) :
  dia_step m d
  = keyed_step undated date_key (fun _ => 0%Qc)
      (fun d v => (v + lucro d)%Qc) m d.
Proof.
  unfold dia_step, keyed_step, undated, date_key.
  destruct (dataAposta d) as [[|c k]|]; try reflexivity.
  unfold alist_ensure. qc_ops.
  destruct (alist_get (c :: k) m) as [v|] eqn:E; [|reflexivity].
  destruct (Qc_eq_bool v 0) eqn:Ez; [|reflexivity].
  apply Qc_eq_bool_correct in Ez. subst v.
  rewrite (alist_adjust_same _ _ _ _ E). reflexivity.
Qed.

Lemma dia_fold_keyed (data : list (record Qc)) (m : list (jsstring * Qc)) :
  fold_left dia_step data m
  = fold_left (keyed_step undated date_key (fun _ => 0%Qc)
                 (fun d v => (v + lucro d)%Qc)) data m.
Proof.
  revert m. induction data as [|d data IH]; intros m; simpl; [reflexivity|].
  rewrite dia_step_keyed. apply IH.
Qed.

Lemma dia_Permutation (data data' : list (record Qc)) :
  Permutation data data' ->
  Permutation (fold_left dia_step data []) (fold_left dia_step data' []).
Proof.
  intros Hp. rewrite !dia_fold_keyed.
  apply same_lookup_Permutation; try (apply keyed_fold_NoDup; constructor).
  intros k. rewrite !keyed_fold_get. simpl alist_get.
  pose proof (selected_Permutation _ undated date_key _ _ k Hp) as Hs.
  destruct (selected undated date_key k data) as [|d sel].
  - apply Permutation_nil in Hs. rewrite Hs. reflexivity.
  - destruct (selected undated date_key k data') as [|d' sel'].
    + apply Permutation_sym, Permutation_nil in Hs. discriminate.
    + unfold built. f_equal.
      assert (Hsum : forall (l : list (record Qc)) (a : Qc),
                 fold_left (fun v x => (v + lucro x)%Qc) l a
                 = (a + sumQ (List.map lucro l))%Qc).
      { induction l as [|x l IH]; intros a; simpl; [ring|].
        rewrite IH. ring. }
      rewrite !Hsum.
      rewrite (sumQ_Permutation _ _ (Permutation_map lucro Hs)).
      reflexivity.
Qed.

Lemma dia_fold_NoDup (data : list (record Qc)) :
  NoDup (List.map fst (fold_left dia_step data [])).
Proof. rewrite dia_fold_keyed. apply keyed_fold_NoDup. constructor. Qed.

Lemma reduce_total (T : Type) (f : T -> Qc) (l : list T) :
  fold_left (fun sum d => nadd sum (f d)) l nzero = total (List.map f l).
Proof.
  unfold total. generalize (@nzero Qc _).
  induction l as [|x l IH]; intros a; simpl; [reflexivity|apply IH].
Qed.

(** In exact arithmetic, when records with the same entry key have the
    same operador, a permutation of the records leaves the overview and
    lucroPorDia unchanged and permutes the elements of the three
    breakdowns. *)
Lemma exact_stats_up_to_order (data data' : list (record Qc)) :
  Permutation data data' ->
  key_fixes_operador data ->
  let s := buildStatsFromData data (group_entries data) in
  let s' := buildStatsFromData data' (group_entries data') in
  overview s = overview s'
  /\ lucroPorDia s = lucroPorDia s'
  /\ Permutation (porOperador s) (porOperador s')
  /\ Permutation (porCasa s) (porCasa s')
  /\ Permutation (porEsporte s) (porEsporte s').
Proof.
  intros Hp Hkey s s'. subst s s'.
  pose proof (operador_items_Permutation _ _ Hp Hkey) as Hg.
  assert (Hcount : forall p : @item Qc -> bool,
             count (fun g => p (operador_item g)) (group_entries data)
             = count (fun g => p (operador_item g)) (group_entries data')).
  { intros p. unfold count.
    rewrite <- !(length_map (@operador_item Qc)).
    assert (Hf : forall l : list (grupo Qc),
               List.map (@operador_item Qc)
                 (filter (fun g => p (operador_item g)) l)
               = filter p (List.map (@operador_item Qc) l)).
    { induction l as [|g l IH]; simpl; [reflexivity|].
      destruct (p (operador_item g)); simpl; rewrite IH; reflexivity. }
    rewrite !Hf. apply Permutation_length, filter_Permutation, Hg. }
  repeat split.
  - cbn [overview buildStatsFromData].
    rewrite !reduce_total.
    rewrite (total_Permutation _ _ (Permutation_map stake Hp)).
    rewrite (total_Permutation _ _ (Permutation_map lucro Hp)).
    rewrite <- (length_map (@operador_item Qc) (group_entries data)).
    rewrite (Permutation_length Hg), length_map.
    rewrite (Hcount (fun it => nltb EPS (fst (snd it)))).
    rewrite (Hcount (fun it => nltb (fst (snd it)) (nopp EPS))).
    reflexivity.
  - cbn [lucroPorDia buildStatsFromData].
    apply sort_by_date_unique.
    + apply (Permutation_NoDup
               (Permutation_map fst
                  (Permutation_sym (own_entries_Permutation _ _)))).
      apply dia_fold_NoDup.
    + rewrite !own_entries_Permutation. apply dia_Permutation, Hp.
  - cbn [porOperador buildStatsFromData].
    rewrite !operador_fold_items. apply finish_Permutation. exact Hg.
  - cbn [porCasa buildStatsFromData].
    rewrite !casa_fold_items.
    apply finish_Permutation, casa_items_Permutation, Hp.
  - cbn [porEsporte buildStatsFromData].
    rewrite !esporte_fold_items.
    apply finish_Permutation, esporte_items_Permutation, Hp.
Qed.

End ExactOrder.

(** ** Order independence in any arithmetic *)

Section AnyArithmeticOrder.

Context {A : Type} `{Num A} `{Platform}.

Lemma finish_keys (items : list (@item A)) :
  List.map (@b_key A) (finish (fold_left item_step items []))
  = List.map fst (own_entries (fold_left item_step items [])).
Proof.
  unfold finish. rewrite map_map. apply map_ext_in.
  intros [k o] Hin. simpl.
  apply (Permutation_in _ (own_entries_Permutation _ _)) in Hin.
  apply (alist_In_get _ _ _ _ (item_fold_NoDup items)) in Hin.
  rewrite item_fold_get in Hin.
  destruct (selected item_skip fst k items); [discriminate|].
  injection Hin as <-. reflexivity.
Qed.

Lemma finish_keys_Permutation (items items' : list (@item A)) :
  Permutation items items' ->
  Permutation (List.map (@b_key A) (finish (fold_left item_step items [])))
              (List.map (@b_key A) (finish (fold_left item_step items' []))).
Proof.
  intros Hp. rewrite !finish_keys.
  rewrite !(Permutation_map fst (own_entries_Permutation _ _)).
  rewrite !item_fold_keyed. apply keyed_fold_keys_Permutation, Hp.
Qed.

(** Whatever the arithmetic, binary64 included, a permutation of the
    records leaves the number of entries unchanged and keeps the houses
    and the sports that porCasa and porEsporte list. *)
Lemma entries_and_keys_up_to_order (data data' : list (record A)) :
  Permutation data data' ->
  let s := buildStatsFromData data (group_entries data) in
  let s' := buildStatsFromData data' (group_entries data') in
  totalApostas (overview s) = totalApostas (overview s')
  /\ Permutation (List.map (@b_key A) (porCasa s))
                 (List.map (@b_key A) (porCasa s'))
  /\ Permutation (List.map (@b_key A) (porEsporte s))
                 (List.map (@b_key A) (porEsporte s')).
Proof.
  intros Hp. cbv zeta. repeat split.
  - cbn [overview buildStatsFromData totalApostas]. unfold group_entries.
    rewrite !length_map, <- !(length_map fst).
    apply Permutation_length.
    exact (keyed_fold_keys_Permutation _ _ (fun _ => false) entry_key
             new_grupo add_to_grupo data data' Hp).
  - cbn [porCasa buildStatsFromData]. rewrite !casa_fold_items.
    apply finish_keys_Permutation. unfold casa_items.
    apply Permutation_map, filter_Permutation, Hp.
  - cbn [porEsporte buildStatsFromData]. rewrite !esporte_fold_items.
    apply finish_keys_Permutation. unfold esporte_items.
    apply Permutation_map, filter_Permutation, Hp.
Qed.

End AnyArithmeticOrder.

(** ** Order independence of the statistics *)

(** C9, as the code has it: in any arithmetic, binary64 included, a
    permutation of the records leaves the number of entries unchanged
    and keeps the houses and sports that porCasa and porEsporte list; in
    exact arithmetic, and when records with the same entry key have the
    same operador, it also leaves the overview and lucroPorDia unchanged
    and permutes the elements of porOperador, porCasa and porEsporte,
    whose order follows the insertion of their keys.  In binary64 the
    sums can change with the order by more than rounding: three records
    of one day with the profits Infinity, -Infinity and 5 give that day
    the profit 5, and NaN when they come in the reverse order.  The
    dates of the records are those parseDateISO returns, or null. *)
Theorem stats_up_to_order :
  (forall (A : Type) (N : Num A) (P : Platform) (data data' : list (record A)),
      Permutation data data' ->
      let s := buildStatsFromData data (group_entries data) in
      let s' := buildStatsFromData data' (group_entries data') in
      totalApostas (overview s) = totalApostas (overview s')
      /\ Permutation (List.map (@b_key A) (porCasa s))
                     (List.map (@b_key A) (porCasa s'))
      /\ Permutation (List.map (@b_key A) (porEsporte s))
                     (List.map (@b_key A) (porEsporte s')))
  /\ (forall (P : Platform) (data data' : list (record Qc)),
        Permutation data data' ->
        key_fixes_operador data ->
        let s := buildStatsFromData data (group_entries data) in
        let s' := buildStatsFromData data' (group_entries data') in
        overview s = overview s'
        /\ lucroPorDia s = lucroPorDia s'
        /\ Permutation (porOperador s) (porOperador s')
        /\ Permutation (porCasa s) (porCasa s')
        /\ Permutation (porEsporte s) (porEsporte s'))
  /\ (let data :=
        overview_data bets_sheet (request_for "1") rows_infinite in
      let s := buildStatsFromData data
                 (@group_entries float _ ascii_platform data) in
      let s' := buildStatsFromData (rev data)
                  (@group_entries float _ ascii_platform (rev data)) in
      Permutation data (rev data)
      /\ List.map lucro data = [infinity; neg_infinity; 5%float]
      /\ lucroPorDia s = [(js "2025-01-01", 5%float)]
      /\ lucroPorDia s' = [(js "2025-01-01", nan)]).
Proof.
  split; [|split].
  - intros A N P data data' Hp.
    exact (entries_and_keys_up_to_order data data' Hp).
  - intros P data data' Hp Hk.
    exact (exact_stats_up_to_order data data' Hp Hk).
  - cbv zeta. split; [apply Permutation_rev|].
    vm_compute. repeat split; reflexivity.
Qed.

Lemma stats_up_to_order_witness :
  Permutation [exact_a; exact_b] [exact_b; exact_a]
  /\ key_fixes_operador (H := ascii_platform) [exact_a; exact_b]
  /\ (let s := buildStatsFromData [exact_a; exact_b]
                 (@group_entries Qc _ ascii_platform [exact_a; exact_b]) in
      let s' := buildStatsFromData [exact_b; exact_a]
                  (@group_entries Qc _ ascii_platform [exact_b; exact_a]) in
      overview s = overview s'
      /\ lucroPorDia s = lucroPorDia s'
      /\ Permutation (porOperador s) (porOperador s')
      /\ Permutation (porCasa s) (porCasa s')
      /\ Permutation (porEsporte s) (porEsporte s')).
Proof.
  assert (Hp : Permutation [exact_a; exact_b] [exact_b; exact_a])
    by apply perm_swap.
  assert (Hk : key_fixes_operador (H := ascii_platform) [exact_a; exact_b]).
  { intros d d' [<- | [<- | []]] [<- | [<- | []]] _; reflexivity. }
  split; [exact Hp|]. split; [exact Hk|].
  exact (proj1 (proj2 stats_up_to_order) ascii_platform _ _ Hp Hk).
Defined.

(** C9 fails as stated: porCasa lists the houses in the order in which
    the records first name them, so reversing two records reverses it. *)
Lemma breakdown_order_follows_records :
  let data := overview_data bets_sheet (request_for "1") rows_a_then_b in
  let s := buildStatsFromData data
             (@group_entries float _ ascii_platform data) in
  let s' := buildStatsFromData (rev data)
              (@group_entries float _ ascii_platform (rev data)) in
  Permutation data (rev data)
  /\ List.map (@b_key float) (porCasa s) = [js "A"; js "B"]
  /\ List.map (@b_key float) (porCasa s') = [js "B"; js "A"]
  /\ s <> s'.
Proof.
  cbv zeta. split; [apply Permutation_rev|].
  assert (H1 : List.map (@b_key float)
                 (porCasa
                    (buildStatsFromData
                       (overview_data bets_sheet (request_for "1")
                          rows_a_then_b)
                       (@group_entries float _ ascii_platform
                          (overview_data bets_sheet (request_for "1")
                             rows_a_then_b))))
               = [js "A"; js "B"]) by (vm_compute; reflexivity).
  assert (H2 : List.map (@b_key float)
                 (porCasa
                    (buildStatsFromData
                       (rev (overview_data bets_sheet (request_for "1")
                               rows_a_then_b))
                       (@group_entries float _ ascii_platform
                          (rev (overview_data bets_sheet (request_for "1")
                                  rows_a_then_b)))))
               = [js "B"; js "A"]) by (vm_compute; reflexivity).
  split; [exact H1|]. split; [exact H2|].
  intros E. rewrite E, H2 in H1. clear E H2. vm_compute in H1.
  discriminate H1.
Qed.

(** ** What the hypotheses of the exact statements leave out *)

(** A casa named [constructor] finds the function every object inherits
    under that name: no counter is created for it and its record is
    absent from porCasa. *)
Lemma inherited_casa_is_left_out :
  let data := overview_data bets_sheet (request_for "1") rows_inherited_name in
  List.map casa data = [js "constructor"]
  /\ porCasa (buildStatsFromData data
                (@group_entries float _ ascii_platform data)) = [].
Proof. vm_compute. split; reflexivity. Qed.

(** In binary64 the overview total itself depends on the order of the
    records. *)
Lemma total_depends_on_order :
  let data := overview_data bets_sheet (request_for "1") rows_two_houses in
  let data' :=
    match data with
    | [a; b; c] => [a; c; b]
    | _ => data
    end in
  Permutation data data'
  /\ totalLucro (overview (buildStatsFromData data
                             (@group_entries float _ ascii_platform data)))
     = 2.5%float
  /\ PrimFloat.ltb 2.5
       (totalLucro
          (overview (buildStatsFromData data'
                       (@group_entries float _ ascii_platform data'))))
     = true.
Proof.
  cbv zeta. split.
  - assert (E : exists a b c,
               overview_data bets_sheet (request_for "1") rows_two_houses
               = [a; b; c]) by (vm_compute; eauto).
    destruct E as (a & b & c & ->). apply perm_skip, perm_swap.
  - vm_compute. split; reflexivity.
Qed.

(** Two records of different operators with the same entry key text
    form one entry, filed under the operator of whichever comes first. *)
Lemma colliding_keys_mix_operators :
  entry_key (H0 := ascii_platform) collide_1
  = entry_key (H0 := ascii_platform) collide_2
  /\ List.map (@b_key float)
       (porOperador
          (buildStatsFromData [collide_1; collide_2]
             (@group_entries float _ ascii_platform [collide_1; collide_2])))
     = [js "z"]
  /\ List.map (@b_key float)
       (porOperador
          (buildStatsFromData [collide_2; collide_1]
             (@group_entries float _ ascii_platform [collide_2; collide_1])))
     = [js "y|z"].
Proof. vm_compute. repeat split; reflexivity. Qed.

(** ** The two-tab example of the specification *)

(** Tab A has the header [DATA APOSTA, LUCRO, STAKE] and one row; tab B
    words its header differently and has one row.  Both rows are read
    with the header of tab A and give the dates and profits expected. *)
Example two_tabs :
  let rows :=
    getSheetRows_tabs (H := ascii_platform)
      [ {| title := Some (js "A"); fetched := Some tab_a |};
        {| title := Some (js "B"); fetched := Some tab_b |} ] in
  let data := overview_data bets_sheet (request_for "1") rows in
  List.map (List.map fst) rows = [header_a; header_a]
  /\ List.map dataAposta data
     = [Some (js "2025-01-01"); Some (js "2025-01-02")]
  /\ List.map lucro data = [100.5%float; (-20)%float].
Proof. vm_compute. repeat split; reflexivity. Qed.

(** * Further properties of the code *)

(** ** What [Number] and [parseNumber] read *)

Lemma span_digits_app (s : jsstring) :
  s = fst (span_digits s) ++ snd (span_digits s)
  /\ forallb is_digit (fst (span_digits s)) = true.
Proof.
  induction s as [|c t [IH1 IH2]]; simpl; [split; reflexivity|].
  destruct (is_digit c) eqn:Ec.
  - destruct (span_digits t) as [ds r]; simpl in *.
    rewrite Ec, IH2. split; [f_equal; exact IH1 | reflexivity].
  - split; reflexivity.
Qed.

Lemma span_digits_In (s : jsstring) (c : codeunit) :
  In c s -> is_digit c = false -> In c (snd (span_digits s)).
Proof.
  intros Hin Hc. destruct (span_digits_app s) as [Hs Hd].
  rewrite Hs in Hin. apply in_app_or in Hin. destruct Hin as [Hin | Hin].
  - rewrite forallb_forall in Hd. rewrite (Hd _ Hin) in Hc. discriminate.
  - exact Hin.
Qed.

Lemma span_digits_all (ds r : jsstring) :
  forallb is_digit ds = true ->
  match r with
  | [] => True
  | c :: _ => is_digit c = false
  end ->
  span_digits (ds ++ r) = (ds, r).
Proof.
  intros Hd Hr. induction ds as [|d ds IH]; simpl.
  - destruct r as [|c r]; [reflexivity|]. simpl. rewrite Hr. reflexivity.
  - simpl in Hd. apply andb_true_iff in Hd. destruct Hd as [Hd Hds].
    rewrite Hd, (IH Hds). reflexivity.
Qed.

Lemma hex_val_unit (c : codeunit) (d : Z) :
  hex_val c = Some d -> literal_unit c = true.
Proof.
  unfold hex_val, literal_unit, is_letter.
  destruct (is_digit c); [reflexivity|].
  destruct ((65 <=? c) && (c <=? 70)) eqn:E1.
  - intros _. apply andb_true_iff in E1. destruct E1 as [E1 E2].
    apply N.leb_le in E1, E2.
    replace (c <=? 90) with true by (symmetry; apply N.leb_le; lia).
    replace (65 <=? c) with true by (symmetry; apply N.leb_le; lia).
    reflexivity.
  - destruct ((97 <=? c) && (c <=? 102)) eqn:E2; [|discriminate].
    intros _. apply andb_true_iff in E2. destruct E2 as [E2 E3].
    apply N.leb_le in E2, E3.
    replace (c <=? 122) with true by (symmetry; apply N.leb_le; lia).
    replace (97 <=? c) with true by (symmetry; apply N.leb_le; lia).
    simpl. rewrite !orb_true_r. reflexivity.
Qed.

Lemma radix_value_units (base : Z) (s : jsstring) :
  forall acc v,
    radix_value base acc s = Some v -> forallb literal_unit s = true.
Proof.
  induction s as [|c t IH]; intros acc v Hv; simpl in *; [reflexivity|].
  destruct (hex_val c) as [d|] eqn:Ec; [|discriminate].
  rewrite (hex_val_unit _ _ Ec).
  destruct (d <? base)%Z; [|discriminate].
  exact (IH _ _ Hv).
Qed.

Lemma parse_nondecimal_shape (t : jsstring) (n : float) :
  parse_nondecimal t = Some n -> exists p d ds, t = 48 :: p :: d :: ds.
Proof.
  unfold parse_nondecimal.
  destruct t as [|a [|p [|d ds]]]; try discriminate;
    (destruct a as [|a]; [discriminate|]);
    do 6 (destruct a as [a|a|]; try discriminate).
  intros _. exists p, d, ds. reflexivity.
Qed.

Lemma parse_nondecimal_units (t : jsstring) (n : float) :
  parse_nondecimal t = Some n -> forallb literal_unit t = true.
Proof.
  intros Hn. destruct (parse_nondecimal_shape _ _ Hn) as (p & d & ds & ->).
  unfold parse_nondecimal in Hn.
  set (base := if (p =? 120) || (p =? 88) then Some 16%Z
               else if (p =? 111) || (p =? 79) then Some 8%Z
               else if (p =? 98) || (p =? 66) then Some 2%Z else None) in Hn.
  assert (Hp : base <> None -> literal_unit p = true).
  { unfold base, literal_unit, is_letter.
    destruct (p =? 120) eqn:E1; [apply N.eqb_eq in E1; subst; reflexivity|].
    destruct (p =? 88) eqn:E2; [apply N.eqb_eq in E2; subst; reflexivity|].
    destruct (p =? 111) eqn:E3; [apply N.eqb_eq in E3; subst; reflexivity|].
    destruct (p =? 79) eqn:E4; [apply N.eqb_eq in E4; subst; reflexivity|].
    destruct (p =? 98) eqn:E5; [apply N.eqb_eq in E5; subst; reflexivity|].
    destruct (p =? 66) eqn:E6; [apply N.eqb_eq in E6; subst; reflexivity|].
    simpl. congruence. }
  destruct base as [b|]; [|discriminate].
  destruct (radix_value b 0 (d :: ds)) as [v|] eqn:Ev; [|discriminate].
  change (forallb literal_unit (48 :: p :: d :: ds)) with
    (literal_unit 48 && (literal_unit p && forallb literal_unit (d :: ds))).
  rewrite Hp by discriminate.
  rewrite (radix_value_units _ _ _ _ Ev). reflexivity.
Qed.

Lemma parse_exponent_units (s : jsstring) (e : Z) :
  parse_exponent s = Some e -> forallb literal_unit s = true.
Proof.
  unfold parse_exponent. destruct s as [|c t]; [reflexivity|].
  destruct ((c =? 101) || (c =? 69)) eqn:Ec; [|discriminate].
  assert (Hc : literal_unit c = true).
  { apply orb_true_iff in Ec.
    destruct Ec as [Ec | Ec]; apply N.eqb_eq in Ec; subst; reflexivity. }
  assert (Hd : forall u, forallb is_digit u = true ->
                         forallb literal_unit u = true).
  { intros u Hu. rewrite forallb_forall in *. intros x Hx.
    unfold literal_unit. rewrite (Hu x Hx). reflexivity. }
  assert (Hspan : forall u,
             match span_digits u with
             | ((_ :: _) as ds, []) =>
                 Some (digits_value ds)
             | _ => None
             end <> None -> forallb literal_unit u = true).
  { intros u Hu. destruct (span_digits_app u) as [Hs Hall].
    destruct (span_digits u) as [ds r]; simpl in *.
    destruct ds as [|d ds]; [congruence|].
    destruct r; [|congruence].
    rewrite Hs, app_nil_r. apply Hd, Hall. }
  intros He. cbn [forallb]. rewrite Hc. simpl.
  assert (Hsign : forall u neg,
             match span_digits u with
             | ((_ :: _) as ds, []) =>
                 Some (if neg : bool then (- digits_value ds)%Z
                       else digits_value ds)
             | _ => None
             end = Some e -> forallb literal_unit u = true).
  { intros u neg Hu. apply Hspan.
    destruct (span_digits u) as [[|d ds] [|x r]]; congruence. }
  destruct t as [|x u]; [discriminate He|].
  destruct (x =? 43) eqn:E43.
  { apply N.eqb_eq in E43; subst x. cbn [forallb].
    change (literal_unit 43) with true. simpl. exact (Hsign u false He). }
  destruct (x =? 45) eqn:E45.
  { apply N.eqb_eq in E45; subst x. cbn [forallb].
    change (literal_unit 45) with true. simpl. exact (Hsign u true He). }
  apply (Hsign (x :: u) false).
  destruct x as [|x]; [exact He|].
  do 6 (destruct x as [x|x|]; try exact He); discriminate.
Qed.

Lemma digits_are_units (u : jsstring) :
  forallb is_digit u = true -> forallb literal_unit u = true.
Proof.
  intros Hu. rewrite forallb_forall in *. intros x Hx.
  unfold literal_unit. rewrite (Hu x Hx). reflexivity.
Qed.

Lemma parse_unsigned_decimal_units (u : jsstring) (l : numlit) :
  parse_unsigned_decimal u = Some l -> forallb literal_unit u = true.
Proof.
  unfold parse_unsigned_decimal.
  destruct (str_eqb u (js "Infinity")) eqn:Ei.
  { intros _. apply str_eqb_eq in Ei. subst u. reflexivity. }
  destruct (span_digits_app u) as [Hu Hip].
  destruct (span_digits u) as [ip r1]; simpl in Hu, Hip.
  assert (Hrest : forall fp r2 (ok : bool),
             (if ok
              then match parse_exponent r2 with
                   | Some e =>
                       Some (LitDec (digits_value (ip ++ fp))
                               (e - Z.of_nat (List.length fp)))
                   | None => None
                   end
              else None) = Some l ->
             forallb literal_unit r2 = true).
  { intros fp r2 ok. destruct ok; [|discriminate].
    destruct (parse_exponent r2) as [e|] eqn:Ee; [|discriminate].
    intros _. exact (parse_exponent_units _ _ Ee). }
  assert (Hplain :
            (if negb (Nat.eqb (List.length ip) 0)
             then match parse_exponent r1 with
                  | Some e =>
                      Some (LitDec (digits_value (ip ++ []))
                              (e - Z.of_nat (List.length (@nil codeunit))))
                  | None => None
                  end
             else None) = Some l ->
            forallb literal_unit u = true).
  { intros Hl. rewrite Hu, forallb_app, (digits_are_units _ Hip).
    exact (Hrest _ _ _ Hl). }
  destruct r1 as [|x r]; [exact Hplain|].
  destruct (x =? 46) eqn:Ex.
  - apply N.eqb_eq in Ex; subst x.
    destruct (span_digits_app r) as [Hr Hfp].
    destruct (span_digits r) as [fp r2]; simpl in Hr, Hfp.
    intros Hl. rewrite Hu, forallb_app, (digits_are_units _ Hip).
    cbn [forallb andb]. change (literal_unit 46) with true.
    rewrite Hr, forallb_app, (digits_are_units _ Hfp).
    exact (Hrest _ _ _ Hl).
  - intros Hl. apply Hplain.
    destruct x as [|x]; [exact Hl|].
    do 6 (destruct x as [x|x|]; try exact Hl); discriminate.
Qed.

Lemma parse_decimal_units (t : jsstring) (n : float) :
  parse_decimal t = Some n -> forallb literal_unit t = true.
Proof.
  unfold parse_decimal.
  assert (Hu : forall neg u,
             option_map (numlit_value neg) (parse_unsigned_decimal u)
             = Some n -> forallb literal_unit u = true).
  { intros neg u. destruct (parse_unsigned_decimal u) as [l|] eqn:El;
      [|discriminate].
    intros _. exact (parse_unsigned_decimal_units _ _ El). }
  destruct t as [|x u]; [reflexivity|].
  destruct (x =? 43) eqn:E43.
  { apply N.eqb_eq in E43; subst x. intros Hn. cbn [forallb].
    change (literal_unit 43) with true. exact (Hu _ _ Hn). }
  destruct (x =? 45) eqn:E45.
  { apply N.eqb_eq in E45; subst x. intros Hn. cbn [forallb].
    change (literal_unit 45) with true. exact (Hu _ _ Hn). }
  intros Hn. apply (Hu false (x :: u)).
  destruct x as [|x]; [exact Hn|].
  do 6 (destruct x as [x|x|]; try exact Hn); discriminate.
Qed.

(** A text free of white space that holds a code unit no literal is
    made of is not a number. *)
Lemma Number_not_a_literal (t : jsstring) (c : codeunit) :
  forallb (fun x => negb (is_ws x)) t = true ->
  In c t -> literal_unit c = false -> Number t = nan.
Proof.
  intros Hws Hin Hc. unfold Number. rewrite (trim_no_ws _ Hws).
  destruct t as [|x t']; [destruct Hin|].
  assert (Hbad : forallb literal_unit (x :: t') = false).
  { apply not_true_iff_false. intros Hall. rewrite forallb_forall in Hall.
    rewrite (Hall _ Hin) in Hc. discriminate. }
  destruct (parse_nondecimal (x :: t')) as [n|] eqn:En.
  { rewrite (parse_nondecimal_units _ _ En) in Hbad. discriminate. }
  destruct (parse_decimal (x :: t')) as [n|] eqn:Ed.
  { rewrite (parse_decimal_units _ _ Ed) in Hbad. discriminate. }
  reflexivity.
Qed.

Lemma parseNumber_cleaned (s : jsstring) :
  parseNumber (VStr s) = nan_to_zero (Number (cleaned s)).
Proof. reflexivity. Qed.

(** Facts proved for a text and for its tail at once follow the
    recursion of [strip_currency], which skips two code units. *)
Lemma strip_currency_ind (P : jsstring -> jsstring -> Prop) :
  P [] [] ->
  (forall c, P [c] [c]) ->
  (forall c d t, is_R c && (d =? 36) = true ->
                 P t (strip_currency t) ->
                 P (c :: d :: t) (strip_currency t)) ->
  (forall c d t, is_R c && (d =? 36) = false ->
                 P (d :: t) (strip_currency (d :: t)) ->
                 P (c :: d :: t) (c :: strip_currency (d :: t))) ->
  forall s, P s (strip_currency s).
Proof.
  intros H0 H1 H2 H3 s.
  assert (Hboth : P s (strip_currency s)
                  /\ P (tl s) (strip_currency (tl s))).
  { induction s as [|c t [IHt IHtl]]; [split; exact H0|].
    split; [|exact IHt].
    destruct t as [|d t']; [exact (H1 c)|].
    change (strip_currency (c :: d :: t')) with
      (if is_R c && (d =? 36) then strip_currency t'
       else c :: strip_currency (d :: t')).
    destruct (is_R c && (d =? 36)) eqn:E.
    - apply H2; [exact E | exact IHtl].
    - apply H3; [exact E | exact IHt]. }
  exact (proj1 Hboth).
Qed.

Lemma commas_strip_currency (s : jsstring) :
  commas (strip_currency s) = commas s.
Proof.
  apply (strip_currency_ind (fun s r => commas r = commas s)).
  - reflexivity.
  - reflexivity.
  - intros c d t E IH. rewrite IH. unfold commas. cbn [filter].
    apply andb_true_iff in E. destruct E as [Ec Ed].
    apply N.eqb_eq in Ed; subst d.
    unfold is_R in Ec. apply orb_true_iff in Ec.
    destruct Ec as [Ec | Ec]; apply N.eqb_eq in Ec; subst c; reflexivity.
  - intros c d t E IH. unfold commas in *. cbn [filter] in *.
    destruct (44 =? c); cbn [List.length]; rewrite IH; reflexivity.
Qed.

Lemma commas_filter (p : codeunit -> bool) (s : jsstring) :
  p 44 = true -> commas (filter p s) = commas s.
Proof.
  intros Hp. unfold commas. induction s as [|c t IH]; [reflexivity|].
  cbn [filter]. destruct (p c) eqn:Ec; cbn [filter].
  - destruct (44 =? c); cbn [List.length]; rewrite IH; reflexivity.
  - destruct (44 =? c) eqn:E; [|exact IH].
    apply N.eqb_eq in E; subst c. congruence.
Qed.

Lemma commas_replace_first (s : jsstring) :
  commas (replace_first_comma s) = Nat.pred (commas s).
Proof.
  unfold commas. induction s as [|c t IH]; [reflexivity|].
  cbn [replace_first_comma]. destruct (c =? 44) eqn:E.
  - apply N.eqb_eq in E; subst c. reflexivity.
  - cbn [filter]. rewrite N.eqb_sym, E. exact IH.
Qed.

Lemma commas_cleaned (s : jsstring) : commas (cleaned s) = Nat.pred (commas s).
Proof.
  unfold cleaned. rewrite commas_replace_first.
  unfold strip_dots, strip_ws.
  rewrite !commas_filter by reflexivity.
  rewrite commas_strip_currency. reflexivity.
Qed.

Lemma commas_In (s : jsstring) : (0 < commas s)%nat -> In 44 s.
Proof.
  unfold commas. intros H.
  destruct (filter (N.eqb 44) s) as [|x l] eqn:E; [simpl in H; lia|].
  assert (Hx : In x (filter (N.eqb 44) s)) by (rewrite E; left; reflexivity).
  apply filter_In in Hx. destruct Hx as [Hx Heq].
  apply N.eqb_eq in Heq. subst x. exact Hx.
Qed.

(** X1: a text that still holds, once cleaned, a code unit no numeric
    literal is made of reads as 0; so does every text with two commas,
    of which only the first becomes the decimal point. *)
Theorem parseNumber_unreadable_text :
  (forall s c,
      In c (cleaned s) -> literal_unit c = false ->
      parseNumber (VStr s) = 0%float)
  /\ (forall a b c,
        parseNumber (VStr (a ++ [44] ++ b ++ [44] ++ c)) = 0%float).
Proof.
  assert (H1 : forall s c,
             In c (cleaned s) -> literal_unit c = false ->
             parseNumber (VStr s) = 0%float).
  { intros s c Hin Hc. rewrite parseNumber_cleaned.
    pose proof (Number_not_a_literal (cleaned s) c (cleaned_no_ws s) Hin Hc)
      as E.
    rewrite E. reflexivity. }
  split; [exact H1|].
  intros a b c. apply (H1 _ 44); [|reflexivity].
  apply commas_In. rewrite commas_cleaned.
  unfold commas. rewrite !filter_app, !length_app. simpl. lia.
Qed.

Lemma parseNumber_unreadable_text_witness :
  In 37 (cleaned (js "10%")) /\ literal_unit 37 = false
  /\ parseNumber (VStr (js "10%")) = 0%float.
Proof.
  assert (Hin : In 37 (cleaned (js "10%")))
    by (vm_compute; right; right; left; reflexivity).
  split; [exact Hin|]. split; [reflexivity|].
  exact (proj1 parseNumber_unreadable_text (js "10%") 37 Hin eq_refl).
Defined.

Lemma strip_currency_no_dollar (s : jsstring) :
  ~ In 36 s -> strip_currency s = s.
Proof.
  apply (strip_currency_ind (fun s r => ~ In 36 s -> r = s)).
  - reflexivity.
  - reflexivity.
  - intros c d t E _ Hno. exfalso. apply Hno.
    apply andb_true_iff in E. destruct E as [_ Ed].
    apply N.eqb_eq in Ed. subst d. right; left; reflexivity.
  - intros c d t _ IH Hno. f_equal. apply IH.
    intros Hin. apply Hno. right. exact Hin.
Qed.

Lemma filter_all (T : Type) (p : T -> bool) (l : list T) :
  forallb p l = true -> filter p l = l.
Proof.
  induction l as [|x l IH]; simpl; [reflexivity|].
  rewrite andb_true_iff. intros [-> Hl]. rewrite (IH Hl). reflexivity.
Qed.

Lemma filter_idem (T : Type) (p : T -> bool) (l : list T) :
  filter p (filter p l) = filter p l.
Proof.
  apply filter_all. apply forallb_forall. intros x Hx.
  apply filter_In in Hx. tauto.
Qed.

Lemma filter_comm (T : Type) (p q : T -> bool) (l : list T) :
  filter p (filter q l) = filter q (filter p l).
Proof.
  induction l as [|x l IH]; simpl; [reflexivity|].
  destruct (p x) eqn:Ep, (q x) eqn:Eq; simpl; rewrite ?Ep, ?Eq, IH;
    reflexivity.
Qed.

(** X2: a currency sign in front, white space and dots do not change
    what is read: dots are taken for thousands separators wherever they
    stand, so that a decimal point is lost. *)
Theorem parseNumber_ignores_separators :
  (forall s, parseNumber (VStr (js "R$" ++ s)) = parseNumber (VStr s))
  /\ (forall s,
        ~ In 36 s ->
        parseNumber (VStr s) = parseNumber (VStr (strip_dots (strip_ws s))))
  /\ parseNumber (VStr (js "10.50")) = parseNumber (VStr (js "1050")).
Proof.
  split; [reflexivity|]. split; [|reflexivity].
  intros s Hno. rewrite !parseNumber_cleaned. f_equal. f_equal.
  unfold cleaned.
  rewrite (strip_currency_no_dollar s Hno).
  rewrite (strip_currency_no_dollar (strip_dots (strip_ws s))).
  - unfold strip_dots, strip_ws.
    rewrite (filter_comm _ (fun c => negb (is_ws c || (c =? 0xA0)))
               (fun c => negb (c =? 46))).
    rewrite !filter_idem. reflexivity.
  - intros Hin. apply Hno. unfold strip_dots, strip_ws in Hin.
    apply filter_In in Hin. destruct Hin as [Hin _].
    apply filter_In in Hin. tauto.
Qed.

Lemma parseNumber_ignores_separators_witness :
  ~ In 36 (js " 1.080,00")
  /\ parseNumber (VStr (js " 1.080,00")) = parseNumber (VStr (js "1080,00")).
Proof.
  assert (Hno : ~ In 36 (js " 1.080,00")).
  { intros Hin. vm_compute in Hin.
    repeat (destruct Hin as [Hin | Hin]; [discriminate Hin|]).
    exact Hin. }
  split; [exact Hno|].
  exact (proj1 (proj2 parseNumber_ignores_separators) _ Hno).
Defined.

Lemma replace_first_comma_app (a b : jsstring) :
  ~ In 44 a -> replace_first_comma (a ++ 44 :: b) = a ++ 46 :: b.
Proof.
  induction a as [|c a IH]; intros Hno; simpl; [reflexivity|].
  destruct (c =? 44) eqn:E.
  - apply N.eqb_eq in E. subst c. exfalso. apply Hno. left; reflexivity.
  - rewrite IH; [reflexivity|]. intros Hin. apply Hno. right; exact Hin.
Qed.

Lemma digit_bounds (c : codeunit) : is_digit c = true <-> 48 <= c <= 57.
Proof.
  unfold is_digit. rewrite andb_true_iff, !N.leb_le. tauto.
Qed.

Lemma digits_not (x : codeunit) (ds : jsstring) :
  forallb is_digit ds = true -> is_digit x = false -> ~ In x ds.
Proof.
  intros Hd Hx Hin. rewrite forallb_forall in Hd.
  rewrite (Hd _ Hin) in Hx. discriminate.
Qed.

(** A text that starts with a digit has no sign to drop and is not
    [Infinity]. *)
Lemma parse_decimal_digit_first (d : codeunit) (t : jsstring) :
  is_digit d = true ->
  parse_decimal (d :: t)
  = option_map (numlit_value false) (parse_unsigned_decimal (d :: t))
  /\ str_eqb (d :: t) (js "Infinity") = false.
Proof.
  intros Hd. apply digit_bounds in Hd. split.
  - unfold parse_decimal.
    destruct d as [|d]; [reflexivity|].
    do 6 (destruct d as [d|d|]; try reflexivity); lia.
  - change (js "Infinity") with (73 :: js "nfinity"). cbn [str_eqb].
    replace (d =? 73) with false; [reflexivity|].
    symmetry. apply N.eqb_neq. lia.
Qed.

Lemma parse_unsigned_decimal_point (ip fp : jsstring) :
  ip <> [] -> forallb is_digit ip = true -> forallb is_digit fp = true ->
  parse_unsigned_decimal (ip ++ 46 :: fp)
  = Some (LitDec (digits_value (ip ++ fp)) (- Z.of_nat (List.length fp))).
Proof.
  intros Hne Hip Hfp. unfold parse_unsigned_decimal.
  destruct ip as [|d ip']; [congruence|].
  assert (Hd : is_digit d = true)
    by (simpl in Hip; apply andb_true_iff in Hip; tauto).
  change ((d :: ip') ++ 46 :: fp) with (d :: (ip' ++ 46 :: fp)).
  rewrite (proj2 (parse_decimal_digit_first d _ Hd)).
  change (d :: (ip' ++ 46 :: fp)) with ((d :: ip') ++ 46 :: fp).
  rewrite (span_digits_all (d :: ip') (46 :: fp) Hip) by reflexivity.
  pose proof (span_digits_all fp [] Hfp I) as Efp.
  rewrite app_nil_r in Efp. rewrite Efp.
  cbn [List.length Nat.add Nat.eqb negb parse_exponent].
  f_equal.
Qed.

Lemma parse_nondecimal_none (t : jsstring) :
  match t with
  | 48 :: p :: _ => is_letter p = false
  | _ => True
  end ->
  parse_nondecimal t = None.
Proof.
  intros Ht. destruct (parse_nondecimal t) as [n|] eqn:E; [|reflexivity].
  destruct (parse_nondecimal_shape _ _ E) as (p & d & ds & ->).
  pose proof (parse_nondecimal_units _ _ E) as Hu.
  exfalso. unfold parse_nondecimal in E.
  destruct (p =? 120) eqn:E1;
    [apply N.eqb_eq in E1; subst; discriminate Ht|].
  destruct (p =? 88) eqn:E2;
    [apply N.eqb_eq in E2; subst; discriminate Ht|].
  destruct (p =? 111) eqn:E3;
    [apply N.eqb_eq in E3; subst; discriminate Ht|].
  destruct (p =? 79) eqn:E4;
    [apply N.eqb_eq in E4; subst; discriminate Ht|].
  destruct (p =? 98) eqn:E5;
    [apply N.eqb_eq in E5; subst; discriminate Ht|].
  destruct (p =? 66) eqn:E6;
    [apply N.eqb_eq in E6; subst; discriminate Ht|].
  discriminate E.
Qed.

(** X3: digits, a comma and digits, with or without a minus sign in
    front, read as that decimal number rounded to the nearest binary64
    value. *)
Theorem parseNumber_decimal_comma (neg : bool) (ip fp : jsstring) :
  ip <> [] -> forallb is_digit ip = true -> forallb is_digit fp = true ->
  parseNumber (VStr (sign_text neg ++ ip ++ [44] ++ fp))
  = nan_to_zero
      (round_decimal neg (digits_value (ip ++ fp))
         (- Z.of_nat (List.length fp))).
Proof.
  intros Hne Hip Hfp.
  set (s := sign_text neg ++ ip ++ [44] ++ fp).
  assert (Hunits : forall x, In x s ->
                             is_digit x = true \/ x = 44 \/ x = 45).
  { intros x Hx. unfold s in Hx. rewrite forallb_forall in Hip, Hfp.
    apply in_app_or in Hx. destruct Hx as [Hx | Hx].
    - destruct neg; simpl in Hx; [|tauto].
      destruct Hx as [<- | []]. auto.
    - apply in_app_or in Hx. destruct Hx as [Hx | Hx]; [auto|].
      destruct Hx as [<- | Hx]; auto. }
  assert (Hclean : cleaned s = sign_text neg ++ ip ++ 46 :: fp).
  { unfold cleaned. rewrite strip_currency_no_dollar.
    2:{ intros Hin. destruct (Hunits _ Hin) as [Hd | [Hd | Hd]];
          discriminate Hd. }
    assert (Hw : strip_ws s = s).
    { apply filter_all, forallb_forall. intros x Hx.
      destruct (Hunits _ Hx) as [Hd | [-> | ->]]; [|reflexivity..].
      apply digit_bounds in Hd. apply negb_true_iff, orb_false_iff.
      split; [|apply N.eqb_neq; lia].
      apply not_true_iff_false. intros Hc. ws_facts Hc. lia. }
    assert (Hdots : strip_dots s = s).
    { apply filter_all, forallb_forall. intros x Hx.
      destruct (Hunits _ Hx) as [Hd | [-> | ->]]; [|reflexivity..].
      apply digit_bounds in Hd. apply negb_true_iff, N.eqb_neq. lia. }
    rewrite Hw, Hdots.
    unfold s. rewrite app_assoc.
    change ([44] ++ fp) with (44 :: fp).
    rewrite replace_first_comma_app; [rewrite <- app_assoc; reflexivity|].
    intros Hin. apply in_app_or in Hin. destruct Hin as [Hin | Hin].
    - destruct neg; simpl in Hin; [|tauto].
      destruct Hin as [Hin | []]. discriminate Hin.
    - exact (digits_not 44 ip Hip eq_refl Hin). }
  rewrite parseNumber_cleaned. f_equal.
  pose proof (cleaned_no_ws s) as Hws. fold (cleaned s) in Hws.
  unfold Number. rewrite (trim_no_ws _ Hws), Hclean.
  destruct ip as [|d ip']; [congruence|].
  assert (Hd : is_digit d = true)
    by (simpl in Hip; apply andb_true_iff in Hip; tauto).
  pose proof (parse_unsigned_decimal_point (d :: ip') fp Hne Hip Hfp) as Eu.
  destruct neg; cbn [sign_text app].
  - rewrite parse_nondecimal_none by exact I.
    unfold parse_decimal. change ((d :: ip') ++ 46 :: fp) with
      (d :: ip' ++ 46 :: fp) in Eu.
    rewrite Eu. reflexivity.
  - rewrite parse_nondecimal_none.
    + rewrite (proj1 (parse_decimal_digit_first d _ Hd)).
      change ((d :: ip') ++ 46 :: fp) with (d :: ip' ++ 46 :: fp) in Eu.
      rewrite Eu. reflexivity.
    + assert (H2 : match ip' ++ 46 :: fp with
                   | p :: _ => is_letter p = false
                   | [] => True
                   end).
      { destruct ip' as [|d2 ip'']; [reflexivity|].
        cbn [forallb] in Hip. apply andb_true_iff in Hip.
        destruct Hip as [_ Hip]. apply andb_true_iff in Hip.
        destruct Hip as [Hd2 _]. apply digit_bounds in Hd2.
        cbn [app]. unfold is_letter.
        apply orb_false_iff. split; apply andb_false_iff.
        - left. apply N.leb_gt. lia.
        - left. apply N.leb_gt. lia. }
      destruct (ip' ++ 46 :: fp) as [|p rest].
      * destruct d as [|d]; [exact I|].
        do 6 (destruct d as [d|d|]; try exact I).
      * destruct d as [|d]; [exact I|].
        do 6 (destruct d as [d|d|]; try exact I). exact H2.
Qed.

Lemma parseNumber_decimal_comma_witness :
  js "12" <> [] /\ forallb is_digit (js "12") = true
  /\ forallb is_digit (js "50") = true
  /\ parseNumber (VStr (js "-12,50")) = (-12.5)%float.
Proof.
  assert (H1 : js "12" <> []) by discriminate.
  split; [exact H1|]. split; [reflexivity|]. split; [reflexivity|].
  exact (parseNumber_decimal_comma true (js "12") (js "50") H1
           eq_refl eq_refl).
Defined.

(** ** Dates *)

Lemma match_date_iso (t iso : jsstring) :
  match_date t = Some iso -> is_iso_date iso = true.
Proof.
  unfold match_date.
  destruct t as [|d1 [|d2 [|s1 [|m1 [|m2 [|s2 [|y1 [|y2 [|y3 [|y4 [|x t]]]]]]]]]]];
    try discriminate.
  destruct (forallb is_digit [d1; d2; m1; m2; y1; y2; y3; y4]
            && (s1 =? 47) && (s2 =? 47)) eqn:E; [|discriminate].
  intros [= <-]. apply andb_true_iff in E. destruct E as [E _].
  apply andb_true_iff in E. destruct E as [E _].
  cbn [forallb] in E. repeat rewrite andb_true_iff in E.
  destruct E as (H1 & H2 & H3 & H4 & H5 & H6 & H7 & H8 & _).
  cbn [is_iso_date forallb]. rewrite H1, H2, H3, H4, H5, H6, H7, H8.
  reflexivity.
Qed.

Lemma parseDateISO_iso (v : value) (iso : jsstring) :
  parseDateISO v = Some iso -> is_iso_date iso = true.
Proof.
  unfold parseDateISO. destruct (truthy v); [|discriminate].
  destruct v; try discriminate. apply match_date_iso.
Qed.

Lemma is_iso_date_shape (s : jsstring) :
  is_iso_date s = true ->
  exists y1 y2 y3 y4 m1 m2 d1 d2,
    s = [y1; y2; y3; y4; 45; m1; m2; 45; d1; d2]
    /\ Forall (fun c => 48 <= c <= 57) [y1; y2; y3; y4; m1; m2; d1; d2].
Proof.
  unfold is_iso_date.
  destruct s as [|y1 [|y2 [|y3 [|y4 [|s1 [|m1 [|m2 [|s2 [|d1 [|d2 [|x t]]]]]]]]]]];
    try discriminate.
  intros E. apply andb_true_iff in E. destruct E as [E E2].
  apply andb_true_iff in E. destruct E as [E E1].
  apply N.eqb_eq in E1, E2. subst s1 s2.
  exists y1, y2, y3, y4, m1, m2, d1, d2. split; [reflexivity|].
  rewrite forallb_forall in E. apply Forall_forall.
  intros c Hc. apply digit_bounds. exact (E c Hc).
Qed.

Lemma digit_val_bounds (c : N) :
  48 <= c <= 57 -> (0 <= digit_val c <= 9)%Z.
Proof. unfold digit_val. lia. Qed.

Lemma date_number_digits (y1 y2 y3 y4 m1 m2 d1 d2 : N) :
  Forall (fun c => 48 <= c <= 57) [y1; y2; y3; y4; m1; m2; d1; d2] ->
  date_number [y1; y2; y3; y4; 45; m1; m2; 45; d1; d2]
  = (10000000 * digit_val y1 + 1000000 * digit_val y2
     + 100000 * digit_val y3 + 10000 * digit_val y4
     + 1000 * digit_val m1 + 100 * digit_val m2
     + 10 * digit_val d1 + digit_val d2)%Z.
Proof.
  intros H. unfold date_number. cbn [filter].
  repeat match goal with
         | H : Forall _ (_ :: _) |- _ => inversion H; subst; clear H
         end.
  repeat match goal with
         | H : 48 <= ?c <= 57 |- _ =>
             rewrite (proj2 (digit_bounds c) H); clear H
         end.
  change (is_digit 45) with false. cbv iota.
  unfold digits_value. cbn [fold_left].
  generalize (digit_val y1) (digit_val y2) (digit_val y3) (digit_val y4)
             (digit_val m1) (digit_val m2) (digit_val d1) (digit_val d2).
  intros. lia.
Qed.

(** Order of two code units that are digits, on their values. *)
Lemma digit_order (x y : N) :
  48 <= x <= 57 -> 48 <= y <= 57 ->
  ((x <? y) = true /\ (x =? y) = false /\ (digit_val x < digit_val y)%Z)
  \/ ((x <? y) = false /\ (x =? y) = true /\ digit_val x = digit_val y)
  \/ ((x <? y) = false /\ (x =? y) = false
      /\ (digit_val y < digit_val x)%Z).
Proof.
  intros Hx Hy. unfold digit_val.
  destruct (N.ltb_spec x y) as [L | L].
  - left. split; [reflexivity|]. split; [apply N.eqb_neq|]; lia.
  - right. destruct (N.eqb_spec x y) as [E | E].
    + left. subst. auto.
    + right. repeat split; try reflexivity. lia.
Qed.

Lemma iso_date_order (a b : jsstring) :
  is_iso_date a = true -> is_iso_date b = true ->
  str_ltb a b = (date_number a <? date_number b)%Z
  /\ str_eqb a b = (date_number a =? date_number b)%Z.
Proof.
  intros Ha Hb.
  destruct (is_iso_date_shape _ Ha)
    as (y1 & y2 & y3 & y4 & m1 & m2 & d1 & d2 & -> & Fa).
  destruct (is_iso_date_shape _ Hb)
    as (z1 & z2 & z3 & z4 & n1 & n2 & e1 & e2 & -> & Fb).
  rewrite (date_number_digits _ _ _ _ _ _ _ _ Fa).
  rewrite (date_number_digits _ _ _ _ _ _ _ _ Fb).
  clear Ha Hb.
  repeat match goal with
         | H : Forall _ (_ :: _) |- _ => inversion H; subst; clear H
         | H : Forall _ [] |- _ => clear H
         end.
  pose proof (digit_order y1 z1) as O1. pose proof (digit_order y2 z2) as O2.
  pose proof (digit_order y3 z3) as O3. pose proof (digit_order y4 z4) as O4.
  pose proof (digit_order m1 n1) as O5. pose proof (digit_order m2 n2) as O6.
  pose proof (digit_order d1 e1) as O7. pose proof (digit_order d2 e2) as O8.
  repeat match goal with
         | O : 48 <= ?x <= 57 -> _, H : 48 <= ?x <= 57 |- _ =>
             specialize (O H)
         end.
  repeat match goal with
         | H : 48 <= ?x <= 57 |- _ =>
             apply digit_val_bounds in H; revert H
         end.
  cbn [str_ltb str_eqb]. change (45 <? 45) with false.
  change (45 =? 45) with true. cbn [orb andb].
  generalize dependent (digit_val y1). generalize dependent (digit_val y2).
  generalize dependent (digit_val y3). generalize dependent (digit_val y4).
  generalize dependent (digit_val m1). generalize dependent (digit_val m2).
  generalize dependent (digit_val d1). generalize dependent (digit_val d2).
  generalize dependent (digit_val z1). generalize dependent (digit_val z2).
  generalize dependent (digit_val z3). generalize dependent (digit_val z4).
  generalize dependent (digit_val n1). generalize dependent (digit_val n2).
  generalize dependent (digit_val e1). generalize dependent (digit_val e2).
  intros.
  date_digit O1. date_digit O2. date_digit O3. date_digit O4.
  date_digit O5. date_digit O6. date_digit O7. date_digit O8.
  date_leaf.
Qed.

(** X4: the results of parseDateISO have the shape [yyyy-mm-dd], and on
    texts of that shape the order of strings, which the [from] and [to]
    filters use, is the order of the dates. *)
Theorem iso_text_order_is_date_order :
  (forall v iso, parseDateISO v = Some iso -> is_iso_date iso = true)
  /\ (forall a b,
        is_iso_date a = true -> is_iso_date b = true ->
        str_ltb a b = (date_number a <? date_number b)%Z
        /\ str_eqb a b = (date_number a =? date_number b)%Z).
Proof.
  split; [exact parseDateISO_iso | exact iso_date_order].
Qed.

Lemma iso_text_order_is_date_order_witness :
  parseDateISO (VStr (js "03/11/2025 22:29:54")) = Some (js "2025-11-03")
  /\ is_iso_date (js "2025-11-03") = true
  /\ is_iso_date (js "2025-12-01") = true
  /\ str_ltb (js "2025-11-03") (js "2025-12-01")
     = (date_number (js "2025-11-03") <? date_number (js "2025-12-01"))%Z.
Proof.
  assert (H1 : parseDateISO (VStr (js "03/11/2025 22:29:54"))
               = Some (js "2025-11-03")) by reflexivity.
  split; [exact H1|].
  assert (H2 : is_iso_date (js "2025-11-03") = true)
    by exact (proj1 iso_text_order_is_date_order _ _ H1).
  split; [exact H2|]. split; [reflexivity|].
  exact (proj1 (proj2 iso_text_order_is_date_order (js "2025-11-03")
                  (js "2025-12-01") H2 eq_refl)).
Defined.

Lemma trimEnd_app_no_ws (t r : jsstring) :
  t <> [] -> forallb (fun c => negb (is_ws c)) t = true ->
  trimEnd (t ++ r) = t ++ trimEnd r.
Proof.
  induction t as [|c t IH]; intros Hne Hws; [congruence|].
  cbn [forallb] in Hws. apply andb_true_iff in Hws.
  destruct Hws as [Hc Ht]. apply negb_true_iff in Hc.
  change ((c :: t) ++ r) with (c :: (t ++ r)). cbn [trimEnd].
  destruct t as [|c' t'].
  - cbn [app]. destruct (trimEnd r); [rewrite Hc|]; reflexivity.
  - rewrite IH by (discriminate || exact Ht). reflexivity.
Qed.

Lemma before_first_space_app (t r : jsstring) :
  forallb (fun c => negb (is_ws c)) t = true ->
  before_first_space (t ++ 32 :: r) = t /\ before_first_space t = t.
Proof.
  induction t as [|c t IH]; intros Hws; [split; reflexivity|].
  cbn [forallb] in Hws. apply andb_true_iff in Hws.
  destruct Hws as [Hc Ht]. destruct (IH Ht) as [IH1 IH2].
  assert (Hn : (c =? 32) = false).
  { apply N.eqb_neq. intros ->. discriminate Hc. }
  cbn [app before_first_space]. rewrite Hn, IH1, IH2. split; reflexivity.
Qed.

(** X5: whatever follows the first space -- the time of day in the
    sheets -- does not change the date that is read. *)
Theorem parseDateISO_ignores_time (t rest : jsstring) :
  t <> [] -> forallb (fun c => negb (is_ws c)) t = true ->
  parseDateISO (VStr (t ++ [32] ++ rest)) = parseDateISO (VStr t)
  /\ parseDateISO (VStr t) = match_date t.
Proof.
  intros Hne Hws.
  assert (Ht : parseDateISO (VStr t) = match_date t).
  { unfold parseDateISO. destruct t as [|c t']; [congruence|].
    cbn [truthy str_eqb negb]. rewrite (trim_no_ws _ Hws).
    rewrite (proj2 (before_first_space_app _ [] Hws)). reflexivity. }
  split; [|exact Ht]. rewrite Ht.
  unfold parseDateISO. destruct t as [|c t']; [congruence|].
  cbn [app truthy str_eqb negb].
  change (c :: t' ++ 32 :: rest) with ((c :: t') ++ 32 :: rest).
  unfold trim.
  assert (Hs : trimStart ((c :: t') ++ 32 :: rest)
               = (c :: t') ++ 32 :: rest).
  { cbn [forallb] in Hws. apply andb_true_iff in Hws.
    destruct Hws as [Hc _]. apply negb_true_iff in Hc.
    cbn [app trimStart]. rewrite Hc. reflexivity. }
  rewrite Hs, (trimEnd_app_no_ws _ _ Hne Hws).
  f_equal.
  destruct (trimEnd (32 :: rest)) as [|x u] eqn:E.
  - rewrite app_nil_r. exact (proj2 (before_first_space_app _ [] Hws)).
  - assert (Hx : x = 32).
    { cbn [trimEnd] in E. destruct (trimEnd rest); [discriminate E|].
      congruence. }
    subst x. exact (proj1 (before_first_space_app _ u Hws)).
Qed.

Lemma parseDateISO_ignores_time_witness :
  js "03/11/2025" <> []
  /\ forallb (fun c => negb (is_ws c)) (js "03/11/2025") = true
  /\ parseDateISO (VStr (js "03/11/2025 22:29:54 ")) = Some (js "2025-11-03").
Proof.
  assert (H1 : js "03/11/2025" <> []) by discriminate.
  split; [exact H1|]. split; [reflexivity|].
  exact (proj1 (parseDateISO_ignores_time (js "03/11/2025")
                  (js "22:29:54 ") H1 eq_refl)).
Defined.

(** ** The row extractor *)

Lemma findIndex_none (A : Type) (p : A -> bool) (l : list A) :
  existsb p l = false -> findIndex p l = None.
Proof.
  induction l as [|x l IH]; simpl; [reflexivity|].
  destruct (p x); simpl; [discriminate|].
  intros Hl. rewrite (IH Hl). reflexivity.
Qed.

Lemma findIndex_app (A : Type) (p : A -> bool) (pre post : list A) (x : A) :
  forallb (fun y => negb (p y)) pre = true -> p x = true ->
  findIndex p (pre ++ x :: post) = Some (List.length pre).
Proof.
  intros Hpre Hx. induction pre as [|y pre IH]; simpl.
  - rewrite Hx. reflexivity.
  - simpl in Hpre. apply andb_true_iff in Hpre. destruct Hpre as [Hy Hpre].
    apply negb_true_iff in Hy. rewrite Hy, (IH Hpre). reflexivity.
Qed.

Section Extractor.

Context `{Platform}.

Lemma extract_without_header (values : grid)
    (mainHeader : option (list jsstring)) :
  existsb is_header_row values = false ->
  extractRowsFromValues values mainHeader
  = {| header := mainHeader; rows := [] |}.
Proof.
  intros Hno. unfold extractRowsFromValues.
  destruct values as [|row values']; [reflexivity|].
  rewrite (findIndex_none _ _ _ Hno). reflexivity.
Qed.

Lemma extract_at_header (pre post : grid)
    (headerRow : list jsstring) (mainHeader : option (list jsstring)) :
  forallb (fun r => negb (is_header_row r)) pre = true ->
  is_header_row headerRow = true ->
  extractRowsFromValues (pre ++ headerRow :: post) mainHeader
  = {| header := Some (header_in_use mainHeader headerRow);
       rows := List.map
                 (fun row =>
                    project_from 0 (header_in_use mainHeader headerRow)
                      row [])
                 (filter is_data_row post) |}.
Proof.
  intros Hpre Hhdr. unfold extractRowsFromValues.
  rewrite (findIndex_app _ _ pre post headerRow Hpre Hhdr).
  rewrite nth_middle.
  replace (skipn (S (List.length pre)) (pre ++ headerRow :: post))
    with post.
  2:{ change (pre ++ headerRow :: post) with (pre ++ [headerRow] ++ post).
      rewrite app_assoc.
      replace (S (List.length pre)) with (List.length (pre ++ [headerRow]))
        by (rewrite length_app; simpl; lia).
      rewrite skipn_app, skipn_all, Nat.sub_diag. reflexivity. }
  destruct (pre ++ headerRow :: post) eqn:E.
  - destruct pre; discriminate E.
  - unfold header_in_use. destruct mainHeader; reflexivity.
Qed.

(** X6: the rows come from below the first header row only, one for
    each row that is not blank and in the same order; the rows above the
    header row and the header row itself give none, and a grid without
    a header row gives no rows at all and hands back the header it was
    given. *)
Theorem rows_come_from_below_the_header :
  (forall (values : grid) (mainHeader : option (list jsstring)),
      existsb is_header_row values = false ->
      extractRowsFromValues values mainHeader
      = {| header := mainHeader; rows := [] |})
  /\ (forall (pre post : grid) (headerRow : list jsstring)
             (mainHeader : option (list jsstring)),
        forallb (fun r => negb (is_header_row r)) pre = true ->
        is_header_row headerRow = true ->
        extractRowsFromValues (pre ++ headerRow :: post) mainHeader
        = {| header := Some (header_in_use mainHeader headerRow);
             rows := List.map
                       (fun row =>
                          project_from 0
                            (header_in_use mainHeader headerRow) row [])
                       (filter is_data_row post) |}).
Proof.
  split; [exact extract_without_header | exact extract_at_header].
Qed.

(** *** The object built for a row *)

Lemma obj_get_None (o : row_obj) (k : jsstring) :
  obj_get k o = None <-> ~ In k (List.map fst o).
Proof.
  induction o as [|[k' v] o IH]; simpl; [tauto|].
  destruct (str_eqb k k') eqn:E.
  - apply str_eqb_eq in E. subst k'. split; [discriminate | tauto].
  - apply str_eqb_neq in E. rewrite IH. split.
    + intros Hn [Heq | Hin]; [congruence | tauto].
    + tauto.
Qed.

Lemma obj_get_Some_In (o : row_obj) (k v : jsstring) :
  obj_get k o = Some v -> In k (List.map fst o).
Proof.
  induction o as [|[k' v'] o IH]; simpl; [discriminate|].
  destruct (str_eqb k k') eqn:E.
  - apply str_eqb_eq in E. subst k'. tauto.
  - intros Hg. right. exact (IH Hg).
Qed.

Lemma obj_replace_keys (o : row_obj) (k v : jsstring) :
  List.map fst (obj_replace k v o) = List.map fst o.
Proof.
  induction o as [|[k' v'] o IH]; simpl; [reflexivity|].
  destruct (str_eqb k k'); simpl; [|rewrite IH]; reflexivity.
Qed.

Lemma obj_get_replace (o : row_obj) (k k' v : jsstring) :
  obj_get k' (obj_replace k v o)
  = if str_eqb k' k
    then option_map (fun _ => v) (obj_get k o)
    else obj_get k' o.
Proof.
  induction o as [|[k0 v0] o IH]; simpl.
  - destruct (str_eqb k' k); reflexivity.
  - destruct (str_eqb k k0) eqn:E; simpl.
    + apply str_eqb_eq in E. subst k0.
      destruct (str_eqb k' k); reflexivity.
    + rewrite IH. destruct (str_eqb k' k) eqn:E'.
      * apply str_eqb_eq in E'. subst k'. rewrite E. reflexivity.
      * reflexivity.
Qed.

Lemma obj_get_app (o o' : row_obj) (k : jsstring) :
  obj_get k (o ++ o')
  = match obj_get k o with
    | Some v => Some v
    | None => obj_get k o'
    end.
Proof.
  induction o as [|[k' v] o IH]; simpl; [reflexivity|].
  destruct (str_eqb k k'); [reflexivity | exact IH].
Qed.

(** Reading back what [obj[k] = v] stored. *)
Lemma obj_get_set (o : row_obj) (k k' v : jsstring) :
  str_eqb k (js "__proto__") = false ->
  obj_get k' (obj_set k v o)
  = if str_eqb k' k then Some v else obj_get k' o.
Proof.
  intros Hk. unfold obj_set. rewrite Hk.
  destruct (obj_get k o) as [v0|] eqn:E.
  - rewrite obj_get_replace, E. reflexivity.
  - rewrite obj_get_app. simpl.
    destruct (str_eqb k' k) eqn:E'.
    + apply str_eqb_eq in E'. subst k'. rewrite E. reflexivity.
    + destruct (obj_get k' o); reflexivity.
Qed.

Lemma obj_set_keys (o : row_obj) (k v : jsstring) :
  List.map fst (obj_set k v o)
  = if str_eqb k (js "__proto__") then List.map fst o
    else match obj_get k o with
         | Some _ => List.map fst o
         | None => List.map fst o ++ [k]
         end.
Proof.
  unfold obj_set. destruct (str_eqb k (js "__proto__")); [reflexivity|].
  destruct (obj_get k o).
  - apply obj_replace_keys.
  - rewrite map_app. reflexivity.
Qed.

Lemma project_from_get (header row : list jsstring) (col : jsstring) :
  is_property_name col = true ->
  forall idx obj,
    obj_get col (project_from idx header row obj)
    = match last_index_from idx col header with
      | Some i => Some (nth i row [])
      | None => obj_get col obj
      end.
Proof.
  intros Hcol. unfold is_property_name in Hcol.
  apply andb_true_iff in Hcol. destruct Hcol as [Hne Hnp].
  apply negb_true_iff in Hne, Hnp.
  induction header as [|c rest IH]; intros idx obj; [reflexivity|].
  cbn [project_from last_index_from]. rewrite IH.
  destruct (last_index_from (S idx) col rest); [reflexivity|].
  destruct (str_eqb col c) eqn:E.
  - apply str_eqb_eq in E. subst c. rewrite Hne.
    rewrite (obj_get_set _ _ _ _ Hnp), str_eqb_refl. reflexivity.
  - destruct (str_eqb c []); [reflexivity|].
    destruct (str_eqb c (js "__proto__")) eqn:Ep.
    + unfold obj_set. rewrite Ep. reflexivity.
    + rewrite (obj_get_set _ _ _ _ Ep), E. reflexivity.
Qed.

Lemma project_from_keys (header : list jsstring) :
  forall idx idx' row row' obj obj',
    List.map fst obj = List.map fst obj' ->
    List.map fst (project_from idx header row obj)
    = List.map fst (project_from idx' header row' obj').
Proof.
  induction header as [|c rest IH]; intros idx idx' row row' obj obj' Hk;
    [exact Hk|].
  cbn [project_from]. apply IH.
  destruct (str_eqb c []); [exact Hk|].
  rewrite !obj_set_keys.
  destruct (str_eqb c (js "__proto__")); [exact Hk|].
  assert (Hg : obj_get c obj = None <-> obj_get c obj' = None)
    by (rewrite !obj_get_None, Hk; tauto).
  destruct (obj_get c obj), (obj_get c obj'); try (rewrite Hk; reflexivity).
  - exfalso. destruct Hg as [_ Hg]. discriminate (Hg eq_refl).
  - exfalso. destruct Hg as [Hg _]. discriminate (Hg eq_refl).
Qed.

Lemma obj_set_NoDup (o : row_obj) (k v : jsstring) :
  NoDup (List.map fst o) -> NoDup (List.map fst (obj_set k v o)).
Proof.
  intros Hnd. rewrite obj_set_keys.
  destruct (str_eqb k (js "__proto__")); [exact Hnd|].
  destruct (obj_get k o) eqn:E; [exact Hnd|].
  apply obj_get_None in E.
  apply NoDup_app; [exact Hnd | constructor; [tauto | constructor] |].
  intros x Hx [<- | []]. exact (E Hx).
Qed.

Lemma project_from_NoDup (header row : list jsstring) :
  forall idx obj,
    NoDup (List.map fst obj) ->
    NoDup (List.map fst (project_from idx header row obj)).
Proof.
  induction header as [|c rest IH]; intros idx obj Hnd; [exact Hnd|].
  cbn [project_from]. apply IH.
  destruct (str_eqb c []); [exact Hnd|]. apply obj_set_NoDup, Hnd.
Qed.

Lemma project_from_In (header row : list jsstring) (k : jsstring) :
  forall idx obj,
    In k (List.map fst (project_from idx header row obj))
    <-> In k (List.map fst obj)
        \/ (In k header /\ is_property_name k = true).
Proof.
  induction header as [|c rest IH]; intros idx obj.
  - simpl. tauto.
  - cbn [project_from]. rewrite IH. unfold is_property_name.
    destruct (str_eqb c []) eqn:Ee.
    + apply str_eqb_eq in Ee. subst c. simpl. split.
      * intros [Hin | [Hin Hp]]; [tauto|]. right. tauto.
      * intros [Hin | [[<- | Hin] Hp]]; [tauto | discriminate Hp | tauto].
    + rewrite obj_set_keys.
      destruct (str_eqb c (js "__proto__")) eqn:Ep.
      * apply str_eqb_eq in Ep. subst c. simpl. split.
        -- intros [Hin | [Hin Hp]]; [tauto|]. right. tauto.
        -- intros [Hin | [[<- | Hin] Hp]]; [tauto | | tauto].
           rewrite str_eqb_refl in Hp. rewrite andb_false_r in Hp.
           discriminate Hp.
      * assert (Hc : negb (str_eqb c []) && negb (str_eqb c (js "__proto__"))
                     = true) by (rewrite Ee, Ep; reflexivity).
        destruct (obj_get c obj) eqn:Eg.
        -- split.
           ++ intros [Hin | [Hin Hp]]; [tauto|]. right. simpl. tauto.
           ++ intros [Hin | [[<- | Hin] Hp]]; [tauto | | tauto].
              left. exact (obj_get_Some_In _ _ _ Eg).
        -- rewrite in_app_iff. simpl. split.
           ++ intros [[Hin | [<- | []]] | [Hin Hp]]; tauto.
           ++ intros [Hin | [[<- | Hin] Hp]]; tauto.
Qed.

(** X7: in every row object the property named after a column holds
    the cell of the last column with that canonical name, the empty
    text where the row is too short to have it; a name that no column
    has is not an own property. *)
Theorem row_cells_by_last_column (pre post : grid)
    (headerRow : list jsstring) (mainHeader : option (list jsstring))
    (col : jsstring) :
  forallb (fun r => negb (is_header_row r)) pre = true ->
  is_header_row headerRow = true ->
  is_property_name col = true ->
  List.map (obj_get col)
    (rows (extractRowsFromValues (pre ++ headerRow :: post) mainHeader))
  = List.map
      (fun row =>
         option_map (fun i => nth i row [])
           (last_index_from 0 col (header_in_use mainHeader headerRow)))
      (filter is_data_row post).
Proof.
  intros Hpre Hhdr Hcol.
  rewrite (extract_at_header pre post headerRow mainHeader Hpre Hhdr).
  cbn [rows]. rewrite map_map. apply map_ext. intros row.
  rewrite (project_from_get _ _ _ Hcol).
  destruct (last_index_from 0 col (header_in_use mainHeader headerRow));
    reflexivity.
Qed.

(** X8: the row objects of one extraction all have the same own
    properties, created in the same order: one for each distinct column
    name of the header that is neither empty nor [__proto__]. *)
Theorem row_objects_share_properties (values : grid)
    (mainHeader : option (list jsstring)) (h : list jsstring) (r : row_obj) :
  header (extractRowsFromValues values mainHeader) = Some h ->
  In r (rows (extractRowsFromValues values mainHeader)) ->
  NoDup (List.map fst r)
  /\ (forall k, In k (List.map fst r)
                <-> In k h /\ is_property_name k = true)
  /\ (forall r', In r' (rows (extractRowsFromValues values mainHeader)) ->
                 List.map fst r' = List.map fst r).
Proof.
  intros Hh Hr.
  destruct (existsb is_header_row values) eqn:Ex.
  2:{ unfold extractRowsFromValues in Hr.
      destruct values; [destruct Hr|].
      rewrite (findIndex_none _ _ _ Ex) in Hr. destruct Hr. }
  destruct (findIndex_first _ _ _ Ex)
    as (pre & headerRow & post & -> & Hpre & Hhdr & _).
  rewrite (extract_at_header pre post headerRow mainHeader Hpre Hhdr)
    in Hh, Hr |- *.
  cbn [header rows] in *. injection Hh as <-.
  apply in_map_iff in Hr. destruct Hr as (row & <- & _).
  split; [apply project_from_NoDup; constructor|].
  split.
  - intros k. rewrite project_from_In. simpl. tauto.
  - intros r' Hr'. apply in_map_iff in Hr'. destruct Hr' as (row' & <- & _).
    apply project_from_keys. reflexivity.
Qed.

End Extractor.

Lemma rows_come_from_below_the_header_witness :
  existsb (is_header_row (H := ascii_platform))
    [[js "Fevereiro"]; [js "02/01/2025"; js "10,00"]] = false
  /\ extractRowsFromValues (H := ascii_platform)
       [[js "Fevereiro"]; [js "02/01/2025"; js "10,00"]] (Some header_a)
     = {| header := Some header_a; rows := [] |}
  /\ forallb (fun r => negb (is_header_row (H := ascii_platform) r))
       [[js "Fevereiro"]] = true
  /\ is_header_row (H := ascii_platform)
       [js "data  aposta (hora)"; js "Profit"; js "Valor"] = true
  /\ rows (extractRowsFromValues (H := ascii_platform) tab_b None) = [row_b].
Proof.
  split; [reflexivity|]. split.
  { apply (proj1 (@rows_come_from_below_the_header ascii_platform)).
    reflexivity. }
  split; [reflexivity|]. split; [reflexivity|].
  change tab_b with
    ([[js "Fevereiro"]]
       ++ [js "data  aposta (hora)"; js "Profit"; js "Valor"]
       :: [[js "02/01/2025"; js "-20,00"; js "10,00"]]).
  rewrite (proj2 (@rows_come_from_below_the_header ascii_platform)
             [[js "Fevereiro"]]
             [[js "02/01/2025"; js "-20,00"; js "10,00"]]
             [js "data  aposta (hora)"; js "Profit"; js "Valor"] None
             eq_refl eq_refl).
  reflexivity.
Defined.

Lemma row_cells_by_last_column_witness :
  forallb (fun r => negb (is_header_row (H := ascii_platform) r)) [] = true
  /\ is_header_row (H := ascii_platform)
       [js "Data Aposta"; js "Casa"; js "Bookmaker"] = true
  /\ is_property_name (js "CASA") = true
  /\ List.map (obj_get (js "CASA"))
       (rows (extractRowsFromValues (H := ascii_platform)
                [ [js "Data Aposta"; js "Casa"; js "Bookmaker"];
                  [js "01/01/2025"; js "A"; js "B"];
                  [js "02/01/2025"; js "C"] ] None))
     = [Some (js "B"); Some []].
Proof.
  split; [reflexivity|]. split; [reflexivity|]. split; [reflexivity|].
  exact (@row_cells_by_last_column ascii_platform []
           [ [js "01/01/2025"; js "A"; js "B"]; [js "02/01/2025"; js "C"] ]
           [js "Data Aposta"; js "Casa"; js "Bookmaker"] None (js "CASA")
           eq_refl eq_refl eq_refl).
Defined.

Lemma row_objects_share_properties_witness :
  header (extractRowsFromValues (H := ascii_platform) tab_b None)
  = Some header_in_use_b
  /\ In row_b (rows (extractRowsFromValues (H := ascii_platform) tab_b None))
  /\ NoDup (List.map fst row_b).
Proof.
  assert (H1 : header (extractRowsFromValues (H := ascii_platform) tab_b None)
               = Some header_in_use_b) by reflexivity.
  assert (H2 : In row_b
                 (rows (extractRowsFromValues (H := ascii_platform)
                          tab_b None))) by (left; reflexivity).
  split; [exact H1|]. split; [exact H2|].
  exact (proj1 (@row_objects_share_properties ascii_platform tab_b None
                  header_in_use_b row_b H1 H2)).
Defined.

(** ** Reading a spreadsheet *)

Lemma includes_app_r (a b needle : jsstring) :
  includes b needle = true -> includes (a ++ b) needle = true.
Proof.
  intros Hb. induction a as [|c a IH]; [exact Hb|].
  cbn [app includes]. rewrite IH. apply orb_true_r.
Qed.

Lemma includes_head (c : codeunit) (s : jsstring) :
  includes (c :: s) [c] = true.
Proof. cbn [includes starts_with]. rewrite N.eqb_refl. reflexivity. Qed.

Section TabFacts.

Context `{Platform}.

Lemma tab_step_skips (st : list row_obj * option (list jsstring)) (t : tab) :
  tab_has_values t = false -> tab_step st t = st.
Proof.
  unfold tab_has_values, tab_step. destruct st as [allRows mainHeader].
  destruct (title t) as [[|c ti]|]; try reflexivity.
  destruct (fetched t) as [[|row values]|]; try reflexivity.
  discriminate.
Qed.

(** X9: [getSheetRows] throws exactly when its one call for the whole
    spreadsheet throws -- the read of the range when the range names a
    tab, the read of the list of tabs otherwise -- and then with the
    same error; a failure to read one tab among all never surfaces. *)
Theorem getSheetRows_throws_with_the_service (api : sheets_api)
    (sheetId : jsstring) (range : option jsstring) (e : exn) :
  let r := match range with
           | Some r => r
           | None => js "NOVEMBRO!A1:Z1000"
           end in
  getSheetRows api sheetId range = Thrown e
  <-> (includes r (js "!") = true /\ values_get api sheetId r = Thrown e)
      \/ (includes r (js "!") = false /\ meta_get api sheetId = Thrown e).
Proof.
  intros r. unfold getSheetRows. fold r.
  destruct (includes r (js "!")).
  - destruct (values_get api sheetId r) as [v | e'].
    + split; [discriminate|]. intros [[_ Hv] | [Hf _]]; discriminate.
    + split.
      * intros [= ->]. left. split; reflexivity.
      * intros [[_ Hv] | [Hf _]]; [congruence | discriminate].
  - destruct (meta_get api sheetId) as [m | e'].
    + split; [discriminate|]. intros [[Hf _] | [_ Hm]]; discriminate.
    + split.
      * intros [= ->]. right. split; reflexivity.
      * intros [[Hf _] | [_ Hm]]; [discriminate | congruence].
Qed.

(** X10: a tab without a title, a tab whose read throws and a tab
    without values change nothing: the result is the one for the other
    tabs alone. *)
Theorem unreadable_tabs_are_skipped (tabs : list tab) :
  getSheetRows_tabs tabs = getSheetRows_tabs (filter tab_has_values tabs).
Proof.
  unfold getSheetRows_tabs. f_equal.
  apply fold_left_filter_skip. intros st t. apply tab_step_skips.
Qed.

(** X11: a spreadsheet with one tab reads the same tab by tab as when
    the range names that tab. *)
Theorem single_tab_reads_alike (api : sheets_api)
    (sheetId range tabTitle : jsstring) (v : option grid) :
  range <> [] -> tabTitle <> [] ->
  includes range (js "!") = false ->
  meta_get api sheetId = Returned (Some [Some tabTitle]) ->
  values_get api sheetId (tabTitle ++ js "!" ++ range) = Returned v ->
  getSheetRows api sheetId (Some range)
  = getSheetRows api sheetId (Some (tabTitle ++ js "!" ++ range)).
Proof.
  intros Hr Ht Hno Hmeta Hval. unfold getSheetRows.
  rewrite Hno, Hmeta.
  rewrite (includes_app_r tabTitle (js "!" ++ range) (js "!"))
    by apply includes_head.
  rewrite Hval. f_equal.
  destruct range as [|c range']; [congruence|].
  destruct tabTitle as [|d ti]; [congruence|].
  cbn [or_nil List.map]. unfold getSheetRows_tabs, read_tab.
  cbn [fold_left]. rewrite Hval.
  unfold tab_step, getSheetRows_one. cbn [title fetched].
  destruct (or_nil v) as [|row values]; [reflexivity|].
  cbn [fst]. reflexivity.
Qed.

End TabFacts.

Lemma trimStart_nil (s : jsstring) :
  trimStart s = [] <-> forallb is_ws s = true.
Proof.
  induction s as [|c t IH]; simpl; [tauto|].
  destruct (is_ws c); simpl; [exact IH|]. split; discriminate.
Qed.

Lemma trimEnd_nil_head (c : codeunit) (t : jsstring) :
  is_ws c = false -> trimEnd (c :: t) <> [].
Proof.
  intros Hc. cbn [trimEnd]. destruct (trimEnd t); [rewrite Hc|]; discriminate.
Qed.

Lemma trim_nil (s : jsstring) : trim s = [] <-> forallb is_ws s = true.
Proof.
  unfold trim. rewrite <- trimStart_nil. split.
  - intros Ht. destruct (trimStart_head s) as [E | (c & t & E & Hc)];
      [exact E|].
    rewrite E in Ht. exfalso. exact (trimEnd_nil_head c t Hc Ht).
  - intros ->. reflexivity.
Qed.

(** *** The shape of a normalized text *)

Lemma collapse_from_spaces (s : jsstring) :
  forall b, forallb space_or_other (collapse_from b s) = true.
Proof.
  induction s as [|c t IH]; intros b; [reflexivity|].
  cbn [collapse_from]. destruct (is_ws c) eqn:Ec.
  - destruct b; [apply IH|]. cbn [forallb]. rewrite IH. reflexivity.
  - cbn [forallb]. unfold space_or_other at 1. rewrite Ec, IH. reflexivity.
Qed.

Lemma collapse_from_single (s : jsstring) :
  forall b,
    no_double_space (collapse_from b s) = true
    /\ (b = true -> head_ws (collapse_from b s) = false).
Proof.
  induction s as [|c t IH]; intros b; [split; reflexivity|].
  cbn [collapse_from]. destruct (is_ws c) eqn:Ec.
  - destruct b; [apply IH|].
    destruct (IH true) as [IH1 IH2]. split; [|discriminate].
    cbn [no_double_space]. rewrite (IH2 eq_refl), IH1, andb_false_r.
    reflexivity.
  - destruct (IH false) as [IH1 _]. split.
    + cbn [no_double_space]. rewrite Ec, IH1. reflexivity.
    + intros _. exact Ec.
Qed.

Lemma no_double_space_tail (c : codeunit) (t : jsstring) :
  no_double_space (c :: t) = true -> no_double_space t = true.
Proof. cbn [no_double_space]. rewrite andb_true_iff. tauto. Qed.

Lemma trimStart_keeps (s : jsstring) :
  forallb space_or_other s = true -> no_double_space s = true ->
  forallb space_or_other (trimStart s) = true
  /\ no_double_space (trimStart s) = true.
Proof.
  induction s as [|c t IH]; intros Hs Hd; [split; reflexivity|].
  cbn [trimStart]. destruct (is_ws c); [|split; assumption].
  cbn [forallb] in Hs. apply andb_true_iff in Hs.
  apply IH; [tauto | exact (no_double_space_tail c t Hd)].
Qed.

Lemma trimEnd_prefix (s : jsstring) : exists w, s = trimEnd s ++ w.
Proof.
  induction s as [|c t [w IH]]; [exists []; reflexivity|].
  cbn [trimEnd]. destruct (trimEnd t) as [|x u] eqn:E.
  - destruct (is_ws c); [exists (c :: t) | exists t]; reflexivity.
  - exists w. cbn [app]. f_equal. exact IH.
Qed.

Lemma no_double_space_prefix (a w : jsstring) :
  no_double_space (a ++ w) = true -> no_double_space a = true.
Proof.
  induction a as [|c a IH]; [reflexivity|].
  cbn [app no_double_space]. rewrite !andb_true_iff. intros [Hc Ha].
  split; [|exact (IH Ha)].
  destruct a as [|d a']; [rewrite andb_false_r; reflexivity | exact Hc].
Qed.

Lemma trimEnd_keeps (s : jsstring) :
  forallb space_or_other s = true -> no_double_space s = true ->
  forallb space_or_other (trimEnd s) = true
  /\ no_double_space (trimEnd s) = true.
Proof.
  intros Hs Hd. destruct (trimEnd_prefix s) as [w Hw].
  rewrite Hw in Hs, Hd. rewrite forallb_app in Hs.
  apply andb_true_iff in Hs. split; [tauto|].
  exact (no_double_space_prefix _ _ Hd).
Qed.

Section NormShape.

Context `{Platform}.

(** X12: whatever the cell, its normalized text has no white space at
    either end, and inside it only single spaces: every white space
    code unit of it is U+0020 and no two of them follow each other. *)
Theorem norm_is_single_spaced (cell : jsstring) :
  trim (norm cell) = norm cell
  /\ forallb space_or_other (norm cell) = true
  /\ no_double_space (norm cell) = true.
Proof.
  unfold norm. split; [apply trim_idem|].
  set (u := strip_marks (normalizeNFD (toUpperCase cell))).
  unfold trim, collapse_ws.
  destruct (trimStart_keeps _ (collapse_from_spaces u false)
              (proj1 (collapse_from_single u false))) as [H1 H2].
  exact (trimEnd_keeps _ H1 H2).
Qed.

End NormShape.

Section HeaderNames.

Context `{PlatformLaws}.

Lemma norm_blank (s : jsstring) : forallb is_ws s = true -> norm s = [].
Proof.
  induction s as [|c t IH]; intros Hs.
  - unfold norm. rewrite (upper_ascii []) by reflexivity.
    cbn [List.map]. rewrite (nfd_ascii []) by reflexivity. reflexivity.
  - simpl in Hs. apply andb_true_iff in Hs. destruct Hs as [Hc Ht].
    rewrite (norm_ws_head c t Hc). exact (IH Ht).
Qed.

(** X13: the canonical name of a header cell is empty exactly when the
    cell is blank, and a column without a name is left out of the row
    objects. *)
Theorem blank_header_has_no_name (raw : jsstring) :
  (canonicalHeaderName raw = [] <-> forallb is_ws raw = true)
  /\ (forall header row,
         ~ In [] (List.map fst (project_from 0 header row []))).
Proof.
  split.
  - rewrite <- trim_nil. split.
    + unfold canonicalHeaderName.
      repeat match goal with
             | |- (if ?b then _ else _) = [] -> _ =>
                 destruct b; [discriminate|]
             end.
      tauto.
    + intros Ht. unfold canonicalHeaderName.
      rewrite norm_blank by (apply trim_nil; exact Ht). exact Ht.
  - intros header row Hin. apply project_from_In in Hin.
    destruct Hin as [[] | [_ Hp]]. discriminate Hp.
Qed.

(** X14: canonical names are stable: the canonical name of a canonical
    name is itself, and it has no white space around it. *)
Theorem canonical_name_is_stable (raw : jsstring) :
  canonicalHeaderName (canonicalHeaderName raw) = canonicalHeaderName raw
  /\ trim (canonicalHeaderName raw) = canonicalHeaderName raw.
Proof.
  split; [apply canonicalHeaderName_idem|].
  unfold canonicalHeaderName.
  repeat match goal with
         | |- trim (if ?b then _ else _) = _ => destruct b; [reflexivity|]
         end.
  apply trim_idem.
Qed.

Lemma tab_step_follows_header
    (st : list row_obj * option (list jsstring)) (t : tab) :
  rows_follow_header st -> rows_follow_header (tab_step st t).
Proof.
  intros Hst. destruct (tab_has_values t) eqn:Et.
  2:{ rewrite (tab_step_skips st t Et). exact Hst. }
  unfold tab_has_values in Et. unfold tab_step.
  destruct st as [allRows mainHeader].
  destruct (title t) as [[|c ti]|]; try discriminate.
  destruct (fetched t) as [[|row values']|]; try discriminate.
  set (values := row :: values').
  destruct (existsb is_header_row values) eqn:Ex.
  - destruct (findIndex_first _ _ _ Ex)
      as (pre & headerRow & post & Hv & Hpre & Hhdr & _).
    rewrite Hv, (extract_at_header pre post headerRow mainHeader Hpre Hhdr).
    cbn [header rows]. unfold rows_follow_header in *. cbn [fst snd] in *.
    assert (Hfix : List.map canonicalHeaderName
                     (header_in_use mainHeader headerRow)
                   = header_in_use mainHeader headerRow).
    { unfold header_in_use. rewrite map_map. apply map_ext.
      intros x. apply canonicalHeaderName_idem. }
    destruct mainHeader as [h|].
    + destruct Hst as [Hh Hrows]. split; [exact Hh|].
      assert (Hin : header_in_use (Some h) headerRow = h) by exact Hh.
      rewrite Hin. intros r Hr. apply in_app_or in Hr.
      destruct Hr as [Hr | Hr]; [exact (Hrows r Hr)|].
      apply in_map_iff in Hr. destruct Hr as (row' & <- & _).
      apply project_from_keys. reflexivity.
    + split; [exact Hfix|]. rewrite Hst. cbn [app].
      intros r Hr. apply in_map_iff in Hr. destruct Hr as (row' & <- & _).
      apply project_from_keys. reflexivity.
  - rewrite (extract_without_header values mainHeader Ex).
    cbn [header rows]. rewrite app_nil_r.
    destruct mainHeader; exact Hst.
Qed.

(** X15: all the rows read from a spreadsheet, whatever tab they come
    from, have the same own properties, created in the same order. *)
Theorem rows_of_all_tabs_share_properties (tabs : list tab)
    (r r' : row_obj) :
  In r (getSheetRows_tabs tabs) -> In r' (getSheetRows_tabs tabs) ->
  List.map fst r = List.map fst r'.
Proof.
  unfold getSheetRows_tabs.
  assert (Hinv : rows_follow_header (fold_left tab_step tabs ([], None))).
  { assert (Hgen : forall st, rows_follow_header st ->
                              rows_follow_header (fold_left tab_step tabs st)).
    { induction tabs as [|t tabs IH]; intros st Hst; [exact Hst|].
      cbn [fold_left]. apply IH, tab_step_follows_header, Hst. }
    apply Hgen. reflexivity. }
  unfold rows_follow_header in Hinv.
  destruct (fold_left tab_step tabs ([], None)) as [allRows mainHeader].
  cbn [fst snd] in *. destruct mainHeader as [h|].
  - destruct Hinv as [_ Hrows]. intros Hr Hr'.
    rewrite (Hrows r Hr), (Hrows r' Hr'). reflexivity.
  - subst allRows. intros [].
Qed.

End HeaderNames.

Lemma blank_header_has_no_name_witness :
  forallb is_ws (js "   ") = true
  /\ canonicalHeaderName (H := ascii_platform) (js "   ") = [].
Proof.
  split; [reflexivity|].
  exact (proj2 (proj1 (@blank_header_has_no_name ascii_platform ascii_laws
                         (js "   "))) eq_refl).
Defined.

Lemma canonical_name_is_stable_witness :
  canonicalHeaderName (H := ascii_platform)
    (canonicalHeaderName (H := ascii_platform) (js " Bookmaker "))
  = canonicalHeaderName (H := ascii_platform) (js " Bookmaker ").
Proof.
  exact (proj1 (@canonical_name_is_stable ascii_platform ascii_laws
                  (js " Bookmaker "))).
Defined.

Lemma rows_of_all_tabs_share_properties_witness :
  let tabs := [ {| title := Some (js "A"); fetched := Some tab_a |};
                {| title := Some (js "B"); fetched := Some tab_b |} ] in
  In row_a (getSheetRows_tabs (H := ascii_platform) tabs)
  /\ In row_b_as_a (getSheetRows_tabs (H := ascii_platform) tabs)
  /\ List.map fst row_a = List.map fst row_b_as_a.
Proof.
  intros tabs.
  assert (H1 : In row_a (getSheetRows_tabs (H := ascii_platform) tabs))
    by (left; reflexivity).
  assert (H2 : In row_b_as_a (getSheetRows_tabs (H := ascii_platform) tabs))
    by (right; left; reflexivity).
  split; [exact H1|]. split; [exact H2|].
  exact (@rows_of_all_tabs_share_properties ascii_platform ascii_laws tabs
           row_a row_b_as_a H1 H2).
Defined.

(** ** The header lock *)

Section HeaderLoop.

Context `{PlatformLaws}.

Lemma below_header_row (pre post : grid) (headerRow : list jsstring) :
  forallb (fun r => negb (is_header_row r)) pre = true ->
  is_header_row headerRow = true ->
  rows_below_header (pre ++ headerRow :: post) = filter is_data_row post
  /\ own_header (pre ++ headerRow :: post)
     = Some (List.map canonicalHeaderName headerRow).
Proof.
  intros Hpre Hrow. unfold rows_below_header, own_header.
  rewrite (findIndex_app _ _ pre post headerRow Hpre Hrow), nth_middle.
  split; [|reflexivity]. f_equal.
  clear. induction pre as [|x pre IH]; [reflexivity | exact IH].
Qed.

Lemma no_header_row (values : grid) :
  existsb is_header_row values = false ->
  rows_below_header values = [] /\ own_header values = None.
Proof.
  intros Hno. unfold rows_below_header, own_header.
  rewrite (findIndex_none _ _ _ Hno). split; reflexivity.
Qed.

Lemma tab_step_locked (allRows : list row_obj) (h : list jsstring) (t : tab) :
  established h ->
  tab_step (allRows, Some h) t
  = (allRows ++ List.map (fun row => project_from 0 h row []) (tab_rows t),
     Some h).
Proof.
  intros Hest. unfold tab_rows. destruct (tab_has_values t) eqn:Et.
  2:{ rewrite (tab_step_skips _ t Et). cbn [List.map].
      rewrite app_nil_r. reflexivity. }
  unfold tab_has_values in Et. unfold tab_step.
  destruct (title t) as [[|c ti]|]; try discriminate.
  destruct (fetched t) as [[|row values']|]; try discriminate.
  cbn [or_nil]. set (values := row :: values').
  destruct (existsb is_header_row values) eqn:Ex.
  - destruct (findIndex_first _ _ _ Ex)
      as (pre & headerRow & post & Hv & Hpre & Hrow & _).
    rewrite Hv, (extract_at_header pre post headerRow (Some h) Hpre Hrow).
    rewrite (proj1 (below_header_row pre post headerRow Hpre Hrow)).
    unfold header_in_use. rewrite (established_fixed h Hest). reflexivity.
  - rewrite (extract_without_header values (Some h) Ex).
    rewrite (proj1 (no_header_row values Ex)). reflexivity.
Qed.

Lemma tab_step_unlocked (t : tab) :
  tab_step ([], None) t
  = match tab_header t with
    | Some h =>
        (List.map (fun row => project_from 0 h row []) (tab_rows t), Some h)
    | None => ([], None)
    end
  /\ (forall h, tab_header t = Some h -> established h).
Proof.
  unfold tab_rows, tab_header. destruct (tab_has_values t) eqn:Et.
  2:{ rewrite (tab_step_skips _ t Et). split; [reflexivity | discriminate]. }
  unfold tab_has_values in Et. unfold tab_step.
  destruct (title t) as [[|c ti]|]; try discriminate.
  destruct (fetched t) as [[|row values']|]; try discriminate.
  cbn [or_nil]. set (values := row :: values').
  destruct (existsb is_header_row values) eqn:Ex.
  - destruct (findIndex_first _ _ _ Ex)
      as (pre & headerRow & post & Hv & Hpre & Hrow & _).
    rewrite Hv, (extract_at_header pre post headerRow None Hpre Hrow).
    destruct (below_header_row pre post headerRow Hpre Hrow) as [-> ->].
    split; [reflexivity|].
    intros h [= <-]. exists headerRow. reflexivity.
  - rewrite (extract_without_header values None Ex).
    destruct (no_header_row values Ex) as [-> ->].
    split; [reflexivity | discriminate].
Qed.

Lemma tabs_locked (after : list tab) (h : list jsstring) :
  established h ->
  forall allRows,
    fold_left tab_step after (allRows, Some h)
    = (allRows
       ++ List.map (fun row => project_from 0 h row [])
            (flat_map tab_rows after),
       Some h).
Proof.
  intros Hest. induction after as [|t after IH]; intros allRows.
  - cbn. rewrite app_nil_r. reflexivity.
  - cbn [fold_left flat_map]. rewrite (tab_step_locked allRows h t Hest), IH.
    rewrite map_app, app_assoc. reflexivity.
Qed.

Lemma tabs_unlocked (before : list tab) :
  Forall (fun t => tab_header t = None) before ->
  fold_left tab_step before ([], None) = ([], None).
Proof.
  induction 1 as [|t before Ht _ IH]; [reflexivity|].
  cbn [fold_left]. rewrite (proj1 (tab_step_unlocked t)), Ht. exact IH.
Qed.

(** C5: given a header established by an earlier tab and a grid with a
    row holding a cell whose normalized text contains [DATA APOSTA],
    extractRowsFromValues returns exactly the header it was given; the
    first such row only tells where the data rows start, its own text
    plays no part in the result.  In the loop of getSheetRows a header
    once set is never replaced and the header a tab sets is an
    established one; a tab read under an established header leaves it in
    place and adds its non-blank rows below its own header row, built
    with that header.  So when the tabs before some tab have no header
    row and that tab has one, the loop ends with the canonical names of
    that row as the header, and its rows are those of that tab and of
    every tab after it, in order, all built with that one header. *)
Theorem established_header_is_reused :
  (forall (values : grid) (mainHeader : list jsstring),
      established mainHeader ->
      existsb is_header_row values = true ->
      header (extractRowsFromValues values (Some mainHeader))
      = Some mainHeader
      /\ (exists pre headerRow post,
             values = pre ++ headerRow :: post
             /\ forallb (fun r => negb (is_header_row r)) pre = true
             /\ is_header_row headerRow = true
             /\ rows (extractRowsFromValues values (Some mainHeader))
                = List.map (fun row => project_from 0 mainHeader row [])
                    (filter is_data_row post)))
  /\ (forall (allRows : list row_obj) (mainHeader : list jsstring) (t : tab),
         snd (tab_step (allRows, Some mainHeader) t) = Some mainHeader)
  /\ (forall (allRows : list row_obj) (t : tab) (h : list jsstring),
         snd (tab_step (allRows, None) t) = Some h -> established h)
  /\ (forall (allRows : list row_obj) (h : list jsstring) (t : tab),
         established h ->
         tab_step (allRows, Some h) t
         = (allRows
            ++ List.map (fun row => project_from 0 h row []) (tab_rows t),
            Some h))
  /\ (forall (before after : list tab) (first : tab) (h : list jsstring),
         Forall (fun t => tab_header t = None) before ->
         tab_header first = Some h ->
         fold_left tab_step (before ++ first :: after) ([], None)
         = (List.map (fun row => project_from 0 h row [])
              (flat_map tab_rows (first :: after)),
            Some h)
         /\ getSheetRows_tabs (before ++ first :: after)
            = List.map (fun row => project_from 0 h row [])
                (flat_map tab_rows (first :: after))).
Proof.
  split; [|split; [|split; [|split]]].
  - intros values mainHeader Hest Hex.
    destruct (findIndex_first _ _ _ Hex)
      as (pre & headerRow & post & Hv & Hpre & Hrow & _).
    assert (Hextract :
              extractRowsFromValues values (Some mainHeader)
              = {| header := Some mainHeader;
                   rows := List.map
                             (fun row => project_from 0 mainHeader row [])
                             (filter is_data_row post) |}).
    { rewrite Hv, (extract_at_header pre post headerRow _ Hpre Hrow).
      unfold header_in_use. rewrite (established_fixed _ Hest).
      reflexivity. }
    split; [rewrite Hextract; reflexivity|].
    exists pre, headerRow, post. rewrite Hextract. auto.
  - intros allRows mainHeader t. unfold tab_step.
    destruct (title t) as [[|c s]|]; try reflexivity.
    destruct (fetched t) as [[|v vs]|]; reflexivity.
  - intros allRows t h. unfold tab_step.
    destruct (title t) as [[|c s]|]; try discriminate.
    destruct (fetched t) as [[|v vs]|]; try discriminate.
    destruct (header (extractRowsFromValues (v :: vs) None)) as [h'|] eqn:Eh;
      simpl snd; [|discriminate].
    intros [= <-]. revert Eh. unfold extractRowsFromValues.
    destruct (findIndex is_header_row (v :: vs)); [|discriminate].
    simpl header. intros [= <-]. eexists. reflexivity.
  - exact tab_step_locked.
  - intros before after first h Hbefore Hfirst.
    assert (Hloop : fold_left tab_step (before ++ first :: after) ([], None)
                    = (List.map (fun row => project_from 0 h row [])
                         (flat_map tab_rows (first :: after)),
                       Some h)).
    { rewrite fold_left_app, (tabs_unlocked before Hbefore).
      cbn [fold_left flat_map].
      destruct (tab_step_unlocked first) as [Hstep Hest].
      rewrite Hstep, Hfirst, (tabs_locked after h (Hest h Hfirst)), map_app.
      reflexivity. }
    split; [exact Hloop|].
    unfold getSheetRows_tabs. rewrite Hloop. reflexivity.
Qed.

End HeaderLoop.

Lemma established_header_is_reused_witness :
  let note := {| title := Some (js "Notas");
                 fetched := Some [[js "Fevereiro"]] |} in
  let a := {| title := Some (js "A"); fetched := Some tab_a |} in
  let b := {| title := Some (js "B"); fetched := Some tab_b |} in
  Forall (fun t => tab_header (H := ascii_platform) t = None) [note]
  /\ tab_header (H := ascii_platform) a = Some header_a
  /\ List.map (fun row => project_from 0 header_a row [])
       (flat_map (tab_rows (H := ascii_platform)) [a; b])
     = [row_a; row_b_as_a]
  /\ getSheetRows_tabs (H := ascii_platform) [note; a; b]
     = List.map (fun row => project_from 0 header_a row [])
         (flat_map (tab_rows (H := ascii_platform)) [a; b]).
Proof.
  intros note a b.
  assert (H1 : Forall (fun t => tab_header (H := ascii_platform) t = None)
                 [note])
    by (repeat constructor).
  assert (H2 : tab_header (H := ascii_platform) a = Some header_a)
    by reflexivity.
  split; [exact H1|]. split; [exact H2|]. split; [reflexivity|].
  exact (proj2 (proj2 (proj2 (proj2 (proj2
           (@established_header_is_reused ascii_platform ascii_laws))))
           [note] [b] a header_a H1 H2)).
Defined.

(** ** The cache *)

Lemma cache_get_app (id : N) (c c' : cache) :
  cache_get id (c ++ c')
  = match cache_get id c with
    | Some rs => Some rs
    | None => cache_get id c'
    end.
Proof.
  induction c as [|[id' rs] c IH]; simpl; [reflexivity|].
  destruct (id =? id'); [reflexivity | exact IH].
Qed.

Lemma cache_get_map (id id' : N) (rs : list row_obj) (c : cache) :
  cache_get id'
    (List.map (fun e : N * list row_obj =>
                 if id =? fst e then (fst e, rs) else e) c)
  = if id' =? id then option_map (fun _ => rs) (cache_get id c)
    else cache_get id' c.
Proof.
  induction c as [|[i r] c IH]; simpl.
  - destruct (id' =? id); reflexivity.
  - destruct (id =? i) eqn:E; simpl.
    + apply N.eqb_eq in E. subst i.
      destruct (id' =? id); [reflexivity | exact IH].
    + rewrite IH. destruct (id' =? id) eqn:E'.
      * apply N.eqb_eq in E'. subst id'. rewrite E. reflexivity.
      * reflexivity.
Qed.

(** Reading the cache after [sheetRowsCache.set(id, ...)]. *)
Lemma cache_get_set (id id' : N) (rs : list row_obj) (c : cache) :
  cache_get id' (cache_set id rs c)
  = if id' =? id then Some rs else cache_get id' c.
Proof.
  unfold cache_set. destruct (cache_get id c) as [old|] eqn:E.
  - rewrite cache_get_map, E. reflexivity.
  - rewrite cache_get_app. simpl.
    destruct (id' =? id) eqn:E'.
    + apply N.eqb_eq in E'. subst id'. rewrite E. reflexivity.
    + destruct (cache_get id' c); reflexivity.
Qed.

(** Reading the cache after [sheetRowsCache.delete(id)]. *)
Lemma cache_get_delete (id id' : N) (c : cache) :
  cache_get id' (cache_delete id c)
  = if id' =? id then None else cache_get id' c.
Proof.
  unfold cache_delete. induction c as [|[i r] c IH]; simpl.
  - destruct (id' =? id); reflexivity.
  - destruct (id =? i) eqn:E; simpl.
    + apply N.eqb_eq in E. subst i. rewrite IH.
      destruct (id' =? id); reflexivity.
    + rewrite IH. destruct (id' =? id) eqn:E'.
      * apply N.eqb_eq in E'. subst id'. rewrite E. reflexivity.
      * reflexivity.
Qed.

Section CacheFacts.

Context `{Platform}.

Lemma cached_rows_again (w w' : world) (s : sheet) (c c' : cache)
    (rs : list row_obj) :
  getCachedSheetRows w s c = (Returned rs, c') ->
  getCachedSheetRows w' s c' = (Returned rs, c')
  /\ forall id, id <> sheet_id s -> cache_get id c' = cache_get id c.
Proof.
  unfold getCachedSheetRows.
  destruct (cache_get (sheet_id s) c) as [old|] eqn:E.
  - intros [= <- <-]. rewrite E. split; reflexivity.
  - destruct (fetch_rows w s) as [rows | e]; [|discriminate].
    intros [= <- <-]. rewrite cache_get_set, N.eqb_refl.
    split; [reflexivity|]. intros id Hid. rewrite cache_get_set.
    apply N.eqb_neq in Hid. rewrite Hid. reflexivity.
Qed.



(** X16: once the rows of a sheet were read, every later call gives the
    same rows whatever the spreadsheet holds by then, and leaves the
    cache as it is; the rows cached for the other sheets are not
    touched.  A read that fails is not cached: the cache is left as it
    was, and the next call asks the service again. *)
Theorem cached_rows_are_served_again :
  (forall (w w' : world) (s : sheet) (c c' : cache) (rs : list row_obj),
      getCachedSheetRows w s c = (Returned rs, c') ->
      getCachedSheetRows w' s c' = (Returned rs, c')
      /\ forall id, id <> sheet_id s -> cache_get id c' = cache_get id c)
  /\ (forall (w w' : world) (s : sheet) (c c' : cache) (e : exn),
        getCachedSheetRows w s c = (Thrown e, c') ->
        c' = c
        /\ fetch_rows w s = Thrown e
        /\ fst (getCachedSheetRows w' s c') = fetch_rows w' s).
Proof.
  split; [exact cached_rows_again|].
  intros w w' s c c' e. unfold getCachedSheetRows.
  destruct (cache_get (sheet_id s) c) as [old|] eqn:E; [discriminate|].
  destruct (fetch_rows w s) as [rows | e'] eqn:Ef; [discriminate|].
  intros [= <- <-]. rewrite E. split; [reflexivity|].
  split; [reflexivity|]. destruct (fetch_rows w' s); reflexivity.
Qed.

End CacheFacts.

(** ** The handlers *)

Section HandlerOutcomes.

Context `{Platform}.

(** X17: every handler answers with one of its own status codes, and
    with 500 exactly when a statement under its [try] threw;
    [/api/dashboard/refresh-sheets] always answers 200. *)
Theorem handler_status_codes (ep : endpoint) (w : world) (req : request)
    (c : cache) :
  In (status (fst (handle ep w req c))) (statuses ep)
  /\ (status (fst (handle ep w req c)) = 500%nat
      <-> exists e c', handler_body ep w req c = (Thrown e, c')).
Proof.
  unfold handle, try_catch.
  destruct (handler_body ep w req c) as [[r | e] c'] eqn:Eb; cbn [fst].
  - assert (Hr : In (status r) (statuses ep) /\ status r <> 500%nat).
    { destruct ep; cbn [handler_body] in Eb;
        unfold bind, await, ret, modify in Eb.
      - destruct (db_all_desc w); answered Eb.
      - destruct (negb (given (b_name req))
                  || negb (given (b_googleSheetId req))); [answered Eb|].
        destruct (db_insert w _ _ _); [|discriminate].
        destruct (db_get w _); answered Eb.
      - destruct (db_get w _) as [[s|]|]; [| |discriminate].
        + destruct (db_delete w _); answered Eb.
        + answered Eb.
      - answered Eb.
      - destruct (negb (given (q_sheetDbId req))); [answered Eb|].
        destruct (db_get w _) as [[s|]|]; [| |discriminate].
        + destruct (getCachedSheetRows w s c) as [[rows | e] c0];
            answered Eb.
        + answered Eb.
      - destruct (db_all w) as [[|s sheets] | e]; [| |discriminate].
        + answered Eb.
        + destruct (all_sheets_loop w req (s :: sheets) ([], []) c)
            as [[st | e] c0]; answered Eb. }
    destruct Hr as [Hin Hne]. split; [exact Hin|].
    split; [intros E; contradiction | intros (e & c0 & E); discriminate E].
  - split.
    + destruct ep; cbn; auto 6.
      exfalso. cbn [handler_body] in Eb. discriminate Eb.
    + split; [intros _; eauto|]. intros _. destruct ep; reflexivity.
Qed.

(** X18: which requests are refused: a sheet without name or
    spreadsheet id and a dashboard without [sheetDbId] with 400, a
    dashboard of all sheets with 400 when no sheet is registered, and a
    sheet that the database does not have with 404. *)
Theorem request_validation (w : world) (req : request) (c : cache) :
  (status (fst (handle PostSheets w req c)) = 400%nat
   <-> given (b_name req) = false \/ given (b_googleSheetId req) = false)
  /\ (status (fst (handle Overview w req c)) = 400%nat
      <-> given (q_sheetDbId req) = false)
  /\ (status (fst (handle OverviewAll w req c)) = 400%nat
      <-> db_all w = Returned [])
  /\ (status (fst (handle DeleteSheet w req c)) = 404%nat
      <-> db_get w (VStr (p_id req)) = Returned None)
  /\ (status (fst (handle Overview w req c)) = 404%nat
      <-> given (q_sheetDbId req) = true
          /\ db_get w (VStr (or_default (q_sheetDbId req) []))
             = Returned None).
Proof.
  unfold handle, try_catch. cbn [handler_body].
  unfold bind, await, ret, modify.
  split; [|split; [|split; [|split]]].
  - split.
    + destruct (given (b_name req)), (given (b_googleSheetId req));
        cbn [negb orb]; auto.
      destruct (db_insert w _ _ _); [|discriminate].
      destruct (db_get w _); discriminate.
    + intros [E | E]; rewrite E; cbn [negb orb]; [reflexivity|].
      rewrite orb_true_r. reflexivity.
  - split.
    + destruct (given (q_sheetDbId req)); cbn [negb]; [|reflexivity].
      destruct (db_get w _) as [[s|]|]; try discriminate.
      destruct (getCachedSheetRows w s c) as [[rows | e] c0]; discriminate.
    + intros ->. reflexivity.
  - split.
    + destruct (db_all w) as [[|s sheets] | e]; try reflexivity;
        try discriminate.
      destruct (all_sheets_loop w req (s :: sheets) ([], []) c)
        as [[st | e] c0]; discriminate.
    + intros ->. reflexivity.
  - split.
    + destruct (db_get w _) as [[s|]|]; try reflexivity; try discriminate.
      destruct (db_delete w _); discriminate.
    + intros ->. reflexivity.
  - split.
    + destruct (given (q_sheetDbId req)); cbn [negb]; [|discriminate].
      destruct (db_get w _) as [[s|]|]; try (split; reflexivity);
        try discriminate.
      destruct (getCachedSheetRows w s c) as [[rows | e] c0]; discriminate.
    + intros [-> ->]. reflexivity.
Qed.

(** X19: how the handlers change the cache: refreshing empties it, a
    sheet that was added (201) empties it, a sheet that was deleted
    (200) removes the rows of that sheet and of no other, and every
    other answer of these handlers leaves it as it was. *)
Theorem cache_invalidation (w : world) (req : request) (c : cache) :
  snd (handle RefreshSheets w req c) = []
  /\ snd (handle GetSheets w req c) = c
  /\ (let r := handle PostSheets w req c in
      if Nat.eqb (status (fst r)) 201 then snd r = [] else snd r = c)
  /\ (let r := handle DeleteSheet w req c in
      if Nat.eqb (status (fst r)) 200
      then exists s,
             db_get w (VStr (p_id req)) = Returned (Some s)
             /\ forall id,
                  cache_get id (snd r)
                  = if id =? sheet_id s then None else cache_get id c
      else snd r = c).
Proof.
  unfold handle, try_catch. cbn [handler_body].
  unfold bind, await, ret, modify.
  split; [reflexivity|]. split; [destruct (db_all_desc w); reflexivity|].
  split.
  - destruct (negb (given (b_name req))
              || negb (given (b_googleSheetId req))); [reflexivity|].
    destruct (db_insert w _ _ _); [|reflexivity].
    destruct (db_get w _); reflexivity.
  - destruct (db_get w (VStr (p_id req))) as [[s|]|]; try reflexivity.
    destruct (db_delete w _); [|reflexivity].
    cbn. exists s. split; [reflexivity|]. intros id.
    apply cache_get_delete.
Qed.

(** X20: a dashboard answered from the rows of a sheet is answered the
    same way again, whatever the spreadsheet holds by then, as long as
    the cache is not emptied. *)
Theorem overview_repeats_until_refresh (w w' : world) (req : request)
    (c : cache) :
  db_get w' = db_get w ->
  status (fst (handle Overview w req c)) = 200%nat ->
  handle Overview w' req (snd (handle Overview w req c))
  = handle Overview w req c.
Proof.
  intros Hdb. unfold handle, try_catch. cbn [handler_body].
  unfold bind, await, ret. rewrite Hdb.
  destruct (negb (given (q_sheetDbId req))); [discriminate|].
  destruct (db_get w _) as [[s|]|]; try discriminate.
  destruct (getCachedSheetRows w s c) as [[rows | e] c0] eqn:Eg;
    [|discriminate].
  intros _. cbn [snd].
  rewrite (proj1 (cached_rows_again w w' s c c0 rows Eg)). reflexivity.
Qed.

(** *** The records a dashboard is computed from *)

Lemma overview_row_step_app (s : sheet) (q : request)
    (data : list (record float)) (r : row_obj) :
  overview_row_step s q data r = data ++ overview_row_step s q [] r.
Proof.
  unfold overview_row_step.
  destruct (parseDateISO (cell r "DATA APOSTA")) as [[|x iso]|];
    try (rewrite app_nil_r; reflexivity).
  destruct (given (q_operador q) && _); [rewrite app_nil_r; reflexivity|].
  destruct (out_of_range q (x :: iso)); [rewrite app_nil_r|]; reflexivity.
Qed.

Lemma overview_fold_flat (s : sheet) (q : request) (rows : list row_obj) :
  forall data,
    fold_left (overview_row_step s q) rows data
    = data ++ flat_map (overview_row_step s q []) rows.
Proof.
  induction rows as [|r rows IH]; intros data; cbn [fold_left flat_map].
  - rewrite app_nil_r. reflexivity.
  - rewrite IH, (overview_row_step_app s q data r), app_assoc. reflexivity.
Qed.

Lemma overview_data_flat (s : sheet) (q : request) (rows : list row_obj) :
  overview_data s q rows = flat_map (overview_row_step s q []) rows.
Proof. unfold overview_data. apply overview_fold_flat. Qed.

Lemma flat_map_filter (S T : Type) (keep : T -> bool) (g : S -> list T)
    (xs : list S) :
  flat_map (fun x => filter keep (g x)) xs = filter keep (flat_map g xs).
Proof.
  induction xs as [|x xs IH]; [reflexivity|].
  cbn [flat_map]. rewrite filter_app, IH. reflexivity.
Qed.

Lemma flat_map_nil (A B : Type) (f : A -> list B) (l : list A) :
  (forall x, f x = []) -> flat_map f l = [].
Proof.
  intros Hf. induction l as [|x l IH]; [reflexivity|].
  cbn [flat_map]. rewrite Hf, IH. reflexivity.
Qed.

Lemma filters_select_records_aux (s : sheet) (q : request)
    (rows : list row_obj) :
  overview_data s q rows
  = if operador_passes q s
    then filter (in_range q) (overview_data s (without_filters q) rows)
    else [].
Proof.
  rewrite !overview_data_flat. unfold operador_passes.
  destruct (given (q_operador q)
            && negb (str_eqb (operador_of s) (or_default (q_operador q) [])))
    eqn:Eop; cbn [negb].
  - apply flat_map_nil. intros r. unfold overview_row_step.
    destruct (parseDateISO (cell r "DATA APOSTA")) as [[|x iso]|];
      try reflexivity.
    rewrite Eop. reflexivity.
  - rewrite <- flat_map_filter. apply flat_map_ext. intros r.
    unfold overview_row_step.
    destruct (parseDateISO (cell r "DATA APOSTA")) as [[|x iso]|];
      try reflexivity.
    rewrite Eop. cbn [without_filters q_operador given andb].
    unfold out_of_range at 2. cbn [without_filters q_from q_to given andb orb].
    cbn [app filter in_range make_record dataAposta].
    destruct (out_of_range q (x :: iso)); reflexivity.
Qed.

(** X21: the filters of a request select among the records of the
    sheet: the date bounds keep the records they let through, in the
    order of the rows, and an operator other than the sheet's leaves no
    record at all. *)
Theorem filters_select_records (s : sheet) (q : request)
    (rows : list row_obj) :
  overview_data s q rows
  = if operador_passes q s
    then filter (in_range q) (overview_data s (without_filters q) rows)
    else [].
Proof. exact (filters_select_records_aux s q rows). Qed.

(** X22: with bounds that are dates, the records kept are those dated
    from the first bound to the second, both included. *)
Theorem records_lie_within_bounds (s : sheet) (q : request)
    (rows : list row_obj) (from to : jsstring) (d : record float) :
  q_from q = Some from -> q_to q = Some to ->
  is_iso_date from = true -> is_iso_date to = true ->
  In d (overview_data s q rows) ->
  exists iso,
    dataAposta d = Some iso
    /\ (date_number from <= date_number iso <= date_number to)%Z.
Proof.
  intros Hfrom Hto Hf Ht Hin.
  rewrite overview_data_flat in Hin. apply in_flat_map in Hin.
  destruct Hin as (r & _ & Hd). unfold overview_row_step in Hd.
  destruct (parseDateISO (cell r "DATA APOSTA")) as [[|x iso]|] eqn:Ed;
    try destruct Hd.
  destruct (given (q_operador q) && _); [destruct Hd|].
  destruct (out_of_range q (x :: iso)) eqn:Er; [destruct Hd|].
  destruct Hd as [<- | []]. exists (x :: iso). split; [reflexivity|].
  pose proof (parseDateISO_iso _ _ Ed) as Hiso.
  unfold out_of_range in Er. rewrite Hfrom, Hto in Er.
  assert (Hgf : given (Some from) = true)
    by (destruct from; [discriminate Hf | reflexivity]).
  assert (Hgt : given (Some to) = true)
    by (destruct to; [discriminate Ht | reflexivity]).
  rewrite Hgf, Hgt in Er. cbn [andb] in Er.
  assert (Hof : or_default (Some from) [] = from)
    by (destruct from; reflexivity).
  assert (Hot : or_default (Some to) [] = to) by (destruct to; reflexivity).
  rewrite Hof, Hot in Er. apply orb_false_iff in Er. destruct Er as [E1 E2].
  rewrite (proj1 (iso_date_order _ _ Hiso Hf)) in E1.
  rewrite (proj1 (iso_date_order _ _ Ht Hiso)) in E2.
  apply Z.ltb_ge in E1, E2. lia.
Qed.

(** *** The dashboard of all sheets *)

Lemma fold_left_snoc (A B : Type) (f : A -> B -> A) (l : list B) (x : B)
    (a : A) :
  fold_left f (l ++ [x]) a = f (fold_left f l a) x.
Proof. rewrite fold_left_app. reflexivity. Qed.

Lemma all_row_step_groups (op : jsstring) (q : request)
    (st : list (record float) * list (jsstring * grupo float)) (r : row_obj) :
  groups_follow_records st -> groups_follow_records (all_row_step op q st r).
Proof.
  unfold groups_follow_records, all_row_step. intros Hst.
  destruct (parseDateISO (cell r "DATA APOSTA")) as [[|x iso]|];
    try exact Hst.
  destruct (out_of_range q (x :: iso)); [exact Hst|].
  cbn [fst snd]. rewrite fold_left_snoc, Hst. reflexivity.
Qed.

Lemma all_rows_groups (op : jsstring) (q : request) (rows : list row_obj) :
  forall st,
    groups_follow_records st ->
    groups_follow_records (fold_left (all_row_step op q) rows st).
Proof.
  induction rows as [|r rows IH]; intros st Hst; [exact Hst|].
  cbn [fold_left]. apply IH, all_row_step_groups, Hst.
Qed.

Lemma all_sheets_loop_groups (w : world) (q : request) (sheets : list sheet) :
  forall st c st' c',
    groups_follow_records st ->
    all_sheets_loop w q sheets st c = (Returned st', c') ->
    groups_follow_records st'.
Proof.
  induction sheets as [|s rest IH]; intros st c st' c' Hst.
  - cbn [all_sheets_loop]. unfold ret. intros [= <- _]. exact Hst.
  - cbn [all_sheets_loop].
    destruct (given (q_operador q) && _); [exact (IH _ _ _ _ Hst)|].
    unfold bind.
    destruct (getCachedSheetRows w s c) as [[rows | e] c0]; [|discriminate].
    apply IH, all_rows_groups, Hst.
Qed.

(** X23: the dashboard of all sheets groups the records while it
    collects them, sheet after sheet; what it answers is what the
    records collected give when they are grouped at the end, as the
    dashboard of one sheet does. *)
Theorem overview_all_groups_like_overview (w : world) (q : request)
    (sheets : list sheet) (c c' : cache)
    (st : list (record float) * list (jsstring * grupo float)) :
  all_sheets_loop w q sheets ([], []) c = (Returned st, c') ->
  all_result st = buildStatsFromData (fst st) (group_entries (fst st)).
Proof.
  intros Hloop. unfold all_result, group_entries.
  rewrite (all_sheets_loop_groups w q sheets ([], []) c st c' eq_refl Hloop).
  reflexivity.
Qed.








(** X25: [getCachedSheetRows] while other requests run during its
    [await].  A hit returns the cached rows and writes nothing.  After a
    miss it returns what the read gives; on the cache as the other
    requests left it, it sets the entry of its own sheet to the rows
    read and touches no other entry, so that no entry is lost, and a
    read that throws writes nothing.  Two requests that both miss
    therefore both read, and the cache ends with the rows of the one
    that resumes last.  With nothing in between this is
    [getCachedSheetRows] as the handlers run it. *)
Theorem cache_write_under_overlap :
  (forall (w : world) (s : sheet) (c : cache),
      getCachedSheetRows_overlapped w s (fun c0 => c0) c
      = getCachedSheetRows w s c)
  /\ (forall (w : world) (s : sheet) (others : cache -> cache) (c : cache)
             (rs : list row_obj),
        cache_get (sheet_id s) c = Some rs ->
        getCachedSheetRows_overlapped w s others c = (Returned rs, c))
  /\ (forall (w : world) (s : sheet) (others : cache -> cache) (c : cache),
        cache_get (sheet_id s) c = None ->
        let r := getCachedSheetRows_overlapped w s others c in
        fst r = fetch_rows w s
        /\ (forall id, id <> sheet_id s ->
                       cache_get id (snd r) = cache_get id (others c))
        /\ (forall id, cache_get id (others c) <> None ->
                       cache_get id (snd r) <> None)
        /\ (forall rs, fetch_rows w s = Returned rs ->
                       cache_get (sheet_id s) (snd r) = Some rs)
        /\ (forall e, fetch_rows w s = Thrown e -> snd r = others c))
  /\ (forall (w w' : world) (s : sheet) (c : cache) (rs rs' : list row_obj),
        cache_get (sheet_id s) c = None ->
        fetch_rows w s = Returned rs ->
        fetch_rows w' s = Returned rs' ->
        let other := getCachedSheetRows w' s in
        let r := getCachedSheetRows_overlapped w s
                   (fun c0 => snd (other c0)) c in
        fst (other c) = Returned rs'
        /\ cache_get (sheet_id s) (snd (other c)) = Some rs'
        /\ fst r = Returned rs
        /\ cache_get (sheet_id s) (snd r) = Some rs).
Proof.
  split; [|split; [|split]].
  - intros w s c. reflexivity.
  - intros w s others c rs Hc. unfold getCachedSheetRows_overlapped.
    rewrite Hc. reflexivity.
  - intros w s others c Hc. unfold getCachedSheetRows_overlapped.
    rewrite Hc. destruct (fetch_rows w s) as [rows | e]; cbn [fst snd].
    + split; [reflexivity|]. split; [|split; [|split]].
      * intros id Hid. rewrite cache_get_set.
        apply N.eqb_neq in Hid. rewrite Hid. reflexivity.
      * intros id Hid. rewrite cache_get_set.
        destruct (id =? sheet_id s); [discriminate | exact Hid].
      * intros rs [= <-]. rewrite cache_get_set, N.eqb_refl. reflexivity.
      * discriminate.
    + split; [reflexivity|]. split; [reflexivity|].
      split; [auto|]. split; [discriminate | reflexivity].
  - intros w w' s c rs rs' Hc Hw Hw'. cbv zeta.
    unfold getCachedSheetRows_overlapped, getCachedSheetRows.
    rewrite Hc, Hw, Hw'. cbn [fst snd].
    rewrite !cache_get_set, N.eqb_refl. repeat split; reflexivity.
Qed.

(** X26: a sheet that is read tab by tab gives a dashboard whenever the
    list of its tabs can be read, even if no tab can. *)
Theorem dashboard_survives_unreadable_tabs (api : sheets_api) (w : world)
    (req : request) (c : cache) (s : sheet)
    (m : option (list (option jsstring))) :
  given (q_sheetDbId req) = true ->
  db_get w (VStr (or_default (q_sheetDbId req) [])) = Returned (Some s) ->
  includes (sheet_range s) (js "!") = false ->
  meta_get api (google_sheet_id s) = Returned m ->
  status (fst (handle Overview (served_by api w) req c)) = 200%nat.
Proof.
  intros Hid Hget Hno Hmeta. unfold handle, try_catch. cbn [handler_body].
  unfold bind, await, ret. rewrite Hid. cbn [negb served_by db_get].
  rewrite Hget. unfold getCachedSheetRows.
  destruct (cache_get (sheet_id s) c); [reflexivity|].
  change (fetch_rows (served_by api w) s) with
    (getSheetRows api (google_sheet_id s) (Some (sheet_range s))).
  unfold getSheetRows. rewrite Hno, Hmeta. reflexivity.
Qed.

End HandlerOutcomes.

Lemma cached_rows_are_served_again_witness :
  getCachedSheetRows (world_one_sheet (Returned rows_a_then_b)) bets_sheet []
  = (Returned rows_a_then_b, [(1, rows_a_then_b)])
  /\ getCachedSheetRows (world_one_sheet (Thrown boom)) bets_sheet
       [(1, rows_a_then_b)]
     = (Returned rows_a_then_b, [(1, rows_a_then_b)])
  /\ getCachedSheetRows (world_one_sheet (Thrown boom)) bets_sheet []
     = (Thrown boom, [])
  /\ fst (getCachedSheetRows (world_one_sheet (Returned rows_a_then_b))
            bets_sheet [])
     = Returned rows_a_then_b.
Proof.
  assert (H1 : getCachedSheetRows (world_one_sheet (Returned rows_a_then_b))
                 bets_sheet []
               = (Returned rows_a_then_b, [(1, rows_a_then_b)]))
    by reflexivity.
  assert (H2 : getCachedSheetRows (world_one_sheet (Thrown boom))
                 bets_sheet [] = (Thrown boom, [])) by reflexivity.
  split; [exact H1|]. split.
  { exact (proj1 (proj1 cached_rows_are_served_again _
                    (world_one_sheet (Thrown boom)) _ _ _ _ H1)). }
  split; [exact H2|].
  exact (proj2 (proj2 (proj2 cached_rows_are_served_again _
                         (world_one_sheet (Returned rows_a_then_b))
                         _ _ _ _ H2))).
Defined.

Lemma overview_repeats_until_refresh_witness :
  let w := world_one_sheet (Returned rows_a_then_b) in
  let w' := world_one_sheet (Thrown boom) in
  db_get w' = db_get w
  /\ status (fst (handle (H := ascii_platform) Overview w
                    (request_for "1") [])) = 200%nat
  /\ handle (H := ascii_platform) Overview w' (request_for "1")
       (snd (handle (H := ascii_platform) Overview w (request_for "1") []))
     = handle (H := ascii_platform) Overview w (request_for "1") [].
Proof.
  intros w w'.
  assert (H1 : db_get w' = db_get w) by reflexivity.
  assert (H2 : status (fst (handle (H := ascii_platform) Overview w
                              (request_for "1") [])) = 200%nat)
    by reflexivity.
  split; [exact H1|]. split; [exact H2|].
  exact (@overview_repeats_until_refresh ascii_platform w w'
           (request_for "1") [] H1 H2).
Defined.

Lemma records_lie_within_bounds_witness :
  let q := request_between "2025-01-02" "2025-01-31" in
  let d := make_record (js "2025-01-02") (js "Op1")
             (bet_row "02/01/2025" "Jogo 3" "A" "10,00" "2,20") in
  In d (overview_data bets_sheet q rows_two_houses)
  /\ exists iso,
       dataAposta d = Some iso
       /\ (date_number (js "2025-01-02") <= date_number iso
           <= date_number (js "2025-01-31"))%Z.
Proof.
  intros q d.
  assert (Hin : In d (overview_data bets_sheet q rows_two_houses))
    by (left; reflexivity).
  split; [exact Hin|].
  exact (records_lie_within_bounds bets_sheet q rows_two_houses
           (js "2025-01-02") (js "2025-01-31") d
           eq_refl eq_refl eq_refl eq_refl Hin).
Defined.

Lemma overview_all_groups_like_overview_witness :
  let w := world_one_sheet (Returned rows_a_then_b) in
  let st := (overview_data bets_sheet (request_for "1") rows_a_then_b,
             fold_left (group_step (H0 := ascii_platform))
               (overview_data bets_sheet (request_for "1") rows_a_then_b)
               []) in
  all_sheets_loop (H := ascii_platform) w (request_for "1") [bets_sheet]
    ([], []) []
  = (Returned st, [(1, rows_a_then_b)])
  /\ all_result st
     = buildStatsFromData (fst st)
         (group_entries (H0 := ascii_platform) (fst st)).
Proof.
  intros w st.
  assert (H1 : all_sheets_loop (H := ascii_platform) w (request_for "1")
                 [bets_sheet] ([], []) []
               = (Returned st, [(1, rows_a_then_b)])) by reflexivity.
  split; [exact H1|].
  exact (@overview_all_groups_like_overview ascii_platform w
           (request_for "1") [bets_sheet] [] _ st H1).
Defined.


Lemma dashboard_survives_unreadable_tabs_witness :
  values_get api_tabs_fail (js "sheet-1") (js "A!A1:Z1000") = Thrown boom
  /\ status (fst (handle (H := ascii_platform) Overview
                    (served_by (H := ascii_platform) api_tabs_fail
                       (world_one_sheet (Thrown boom)))
                    (request_for "1") [])) = 200%nat.
Proof.
  split; [reflexivity|].
  exact (@dashboard_survives_unreadable_tabs ascii_platform api_tabs_fail
           (world_one_sheet (Thrown boom)) (request_for "1") [] bets_sheet
           _ eq_refl eq_refl eq_refl eq_refl).
Defined.

Lemma single_tab_reads_alike_witness :
  getSheetRows (H := ascii_platform) api_one_tab (js "sheet-1")
    (Some (js "A1:Z1000"))
  = Returned [row_a]
  /\ getSheetRows (H := ascii_platform) api_one_tab (js "sheet-1")
       (Some (js "A1:Z1000"))
     = getSheetRows (H := ascii_platform) api_one_tab (js "sheet-1")
         (Some (js "A!A1:Z1000")).
Proof.
  split; [reflexivity|].
  assert (H1 : js "A1:Z1000" <> []) by discriminate.
  assert (H2 : js "A" <> []) by discriminate.
  exact (@single_tab_reads_alike ascii_platform api_one_tab (js "sheet-1")
           (js "A1:Z1000") (js "A") (Some tab_a) H1 H2
           eq_refl eq_refl eq_refl).
Defined.

(** ** The aggregator *)

Section EntryFacts.

Context {A : Type} `{Num A} `{Platform}.

Lemma group_step_as_keyed (m : list (jsstring * grupo A)) (d : record A) :
  group_step m d
  = keyed_step (fun _ => false) entry_key new_grupo add_to_grupo m d.
Proof. reflexivity. Qed.

Lemma group_fold_as_keyed (data : list (record A))
    (m : list (jsstring * grupo A)) :
  fold_left group_step data m
  = fold_left (keyed_step (fun _ => false) entry_key new_grupo add_to_grupo)
      data m.
Proof. reflexivity. Qed.

Lemma keyed_step_length (X V : Type) (skip : X -> bool)
    (key : X -> jsstring) (init : X -> V) (upd : X -> V -> V)
    (m : list (jsstring * V)) (x : X) :
  (List.length m <= List.length (keyed_step skip key init upd m x)
   <= S (List.length m))%nat
  /\ (skip x = false -> keyed_step skip key init upd m x <> []).
Proof.
  unfold keyed_step. destruct (skip x); [split; [lia | discriminate]|].
  assert (Hl : List.length
                 (alist_adjust (key x) (upd x)
                    (alist_ensure (key x) (init x) m))
               = List.length (alist_ensure (key x) (init x) m)).
  { rewrite <- (length_map fst), alist_adjust_keys, length_map.
    reflexivity. }
  rewrite <- (length_map fst (alist_ensure _ _ _)) in Hl.
  rewrite alist_ensure_keys in Hl.
  destruct (alist_get (key x) m) eqn:E.
  - rewrite length_map in Hl. split; [lia|]. intros _ Hnil.
    rewrite Hnil in Hl. destruct m; [discriminate E | discriminate Hl].
  - rewrite length_app, length_map in Hl. simpl in Hl.
    split; [lia|]. intros _ Hnil. rewrite Hnil in Hl. simpl in Hl. lia.
Qed.

Lemma keyed_fold_length (X V : Type) (skip : X -> bool)
    (key : X -> jsstring) (init : X -> V) (upd : X -> V -> V) (xs : list X) :
  forall m,
    (List.length m
     <= List.length (fold_left (keyed_step skip key init upd) xs m)
     <= List.length m + List.length xs)%nat.
Proof.
  induction xs as [|x xs IH]; intros m; cbn [fold_left List.length]; [lia|].
  specialize (IH (keyed_step skip key init upd m x)).
  pose proof (proj1 (keyed_step_length X V skip key init upd m x)). lia.
Qed.

Lemma add_to_grupo_keeps (sel : list (record A)) (g : grupo A) :
  let g' := fold_left (fun v d => add_to_grupo d v) sel g in
  g_dataAposta g' = g_dataAposta g /\ g_operador g' = g_operador g
  /\ g_evento g' = g_evento g /\ g_esporte g' = g_esporte g.
Proof.
  revert g. induction sel as [|d sel IH]; intros g; cbn [fold_left];
    [repeat split|].
  destruct (IH (add_to_grupo d g)) as (H1 & H2 & H3 & H4).
  cbv zeta. rewrite H1, H2, H3, H4. repeat split.
Qed.

Lemma group_entries_In (data : list (record A)) (g : grupo A) :
  In g (group_entries data) ->
  exists d sel,
    selected (fun _ => false) entry_key (entry_key d) data = d :: sel
    /\ g = fold_left (fun v x => add_to_grupo x v) (d :: sel) (new_grupo d).
Proof.
  unfold group_entries. intros Hin. apply in_map_iff in Hin.
  destruct Hin as ([k g'] & Hg & Hin). simpl in Hg. subst g'.
  rewrite group_fold_as_keyed in Hin.
  apply alist_In_get in Hin; [|apply keyed_fold_NoDup; constructor].
  rewrite keyed_fold_get in Hin. simpl alist_get in Hin.
  unfold built in Hin.
  destruct (selected (fun _ => false) entry_key k data) as [|d sel] eqn:Es;
    [discriminate|].
  injection Hin as <-.
  assert (Hk : entry_key d = k).
  { assert (Hd : In d (selected (fun _ => false) entry_key k data))
      by (rewrite Es; left; reflexivity).
    unfold selected in Hd. apply filter_In in Hd. destruct Hd as [_ Hd].
    cbn [negb andb] in Hd. apply str_eqb_eq in Hd. exact Hd. }
  exists d, sel. rewrite Hk. split; [exact Es | reflexivity].
Qed.

End EntryFacts.

(** *** Sums over a dictionary, in exact arithmetic *)

Lemma sumQ_cons (x : Qc) (l : list Qc) : sumQ (x :: l) = (x + sumQ l)%Qc.
Proof. reflexivity. Qed.

Section ExactSums.

Variables (X V : Type).
Variable skip : X -> bool.
Variable key : X -> jsstring.
Variable init : X -> V.
Variable upd : X -> V -> V.

(** What is summed of a value, and what an element adds to it. *)
Variable measure : V -> Qc.
Variable weight : X -> Qc.

Hypothesis init_zero : forall x, measure (init x) = 0%Qc.
Hypothesis upd_adds :
  forall x v, measure (upd x v) = (measure v + weight x)%Qc.

Local Abbreviation msum :=
  (fun m : list (jsstring * V) =>
     sumQ (List.map (fun kv => measure (snd kv)) m)).

Lemma msum_adjust (k : jsstring) (f : V -> V) (m : list (jsstring * V)) :
  msum (alist_adjust k f m)
  = match alist_get k m with
    | Some o => (msum m - measure o + measure (f o))%Qc
    | None => msum m
    end.
Proof.
  cbv beta. induction m as [|[k' v] m IH]; [reflexivity|].
  cbn [alist_adjust alist_get]. destruct (str_eqb k k').
  - cbn [List.map snd]. rewrite !sumQ_cons. ring.
  - cbn [List.map snd]. rewrite !sumQ_cons, IH.
    destruct (alist_get k m); [ring | reflexivity].
Qed.

Lemma msum_keyed_step (m : list (jsstring * V)) (x : X) :
  msum (keyed_step skip key init upd m x)
  = if skip x then msum m else (msum m + weight x)%Qc.
Proof.
  unfold keyed_step. destruct (skip x); [reflexivity|].
  rewrite msum_adjust, alist_get_ensure, str_eqb_refl. cbv beta.
  unfold alist_ensure. destruct (alist_get (key x) m) as [o|] eqn:E.
  - rewrite upd_adds. ring.
  - rewrite map_app, sumQ_app. cbn [List.map snd].
    rewrite sumQ_cons, upd_adds, init_zero. cbn [sumQ fold_right]. ring.
Qed.

Lemma msum_keyed_fold (xs : list X) :
  forall m,
    msum (fold_left (keyed_step skip key init upd) xs m)
    = (msum m
       + sumQ (List.map weight (filter (fun x => negb (skip x)) xs)))%Qc.
Proof.
  induction xs as [|x xs IH]; intros m; cbn [fold_left filter].
  - cbn [List.map sumQ fold_right]. ring.
  - rewrite IH, msum_keyed_step. cbv beta. destruct (skip x); cbn [negb].
    + reflexivity.
    + cbn [List.map]. rewrite sumQ_cons. ring.
Qed.

End ExactSums.

Lemma filter_true (T : Type) (l : list T) : filter (fun _ => true) l = l.
Proof. induction l as [|x l IH]; simpl; [|rewrite IH]; reflexivity. Qed.

(** X27: the entries group the records: there are no more entries than
    records and at least one when there is a record, every entry has
    the date, the operator, the event and the sport of a record; and
    in exact arithmetic the profits and the stakes of the entries add
    up to those of the records. *)
Theorem entries_group_the_records :
  (forall (A : Type) (N : Num A) (P : Platform) (data : list (record A)),
      (List.length (group_entries data) <= List.length data)%nat
      /\ (data <> [] -> group_entries data <> [])
      /\ (forall g, In g (group_entries data) ->
                    exists d, In d data
                              /\ g_dataAposta g = dataAposta d
                              /\ g_operador g = operador d
                              /\ g_evento g = evento d
                              /\ g_esporte g = esporte d))
  /\ (forall (P : Platform) (data : list (record Qc)),
        total (List.map (@lucroTotal Qc) (group_entries data))
        = total (List.map lucro data)
        /\ total (List.map (@stakeTotal Qc) (group_entries data))
           = total (List.map stake data)).
Proof.
  split.
  - intros A N P data. split; [|split].
    + unfold group_entries. rewrite length_map, group_fold_as_keyed.
      pose proof (keyed_fold_length _ _ (fun _ : record A => false)
                    entry_key new_grupo add_to_grupo data []) as Hl.
      simpl in Hl. lia.
    + intros Hne Hnil. unfold group_entries in Hnil.
      apply map_eq_nil in Hnil.
      destruct (exists_last Hne) as (front & d & ->).
      rewrite fold_left_app in Hnil. cbn [fold_left] in Hnil.
      rewrite group_step_as_keyed in Hnil.
      exact (proj2 (keyed_step_length _ _ _ _ _ _ _ d) eq_refl Hnil).
    + intros g Hg. destruct (group_entries_In data g Hg)
        as (d & sel & Es & ->).
      exists d. split.
      * assert (Hd : In d (selected (fun _ => false) entry_key
                             (entry_key d) data))
          by (rewrite Es; left; reflexivity).
        unfold selected in Hd. apply filter_In in Hd. tauto.
      * destruct (add_to_grupo_keeps (d :: sel) (new_grupo d))
          as (H1 & H2 & H3 & H4).
        cbv zeta in *. rewrite H1, H2, H3, H4. repeat split.
  - intros P data. rewrite !total_sumQ. unfold group_entries.
    rewrite !map_map, group_fold_as_keyed.
    assert (Hl0 : forall r : record Qc, lucroTotal (new_grupo r) = 0%Qc)
      by (intros; reflexivity).
    assert (Hl : forall (x : record Qc) (v : grupo Qc),
               lucroTotal (add_to_grupo x v) = (lucroTotal v + lucro x)%Qc)
      by (intros; reflexivity).
    assert (Hs0 : forall r : record Qc, stakeTotal (new_grupo r) = 0%Qc)
      by (intros; reflexivity).
    assert (Hs : forall (x : record Qc) (v : grupo Qc),
               stakeTotal (add_to_grupo x v) = (stakeTotal v + stake x)%Qc)
      by (intros; reflexivity).
    split.
    + rewrite (msum_keyed_fold _ _ (fun _ => false) entry_key new_grupo
                 add_to_grupo (@lucroTotal Qc) lucro Hl0 Hl).
      cbn [List.map sumQ fold_right negb]. rewrite filter_true.
      apply Qcplus_0_l.
    + rewrite (msum_keyed_fold _ _ (fun _ => false) entry_key new_grupo
                 add_to_grupo (@stakeTotal Qc) stake Hs0 Hs).
      cbn [List.map sumQ fold_right negb]. rewrite filter_true.
      apply Qcplus_0_l.
Qed.

Lemma entries_group_the_records_witness :
  [exact_a; exact_b] <> []
  /\ @group_entries Qc _ ascii_platform [exact_a; exact_b] <> [].
Proof.
  assert (H1 : [exact_a; exact_b] <> []) by discriminate.
  split; [exact H1|].
  exact (proj1 (proj2 (proj1 entries_group_the_records Qc _ ascii_platform
                         [exact_a; exact_b])) H1).
Defined.

(** *** Profit by day *)

Section DayFacts.

Context {A : Type} `{Num A}.

Lemma dia_step_keys (m : list (jsstring * A)) (d : record A) :
  List.map fst (dia_step m d)
  = match dataAposta d with
    | None | Some [] => List.map fst m
    | Some k =>
        match alist_get k m with
        | Some _ => List.map fst m
        | None => List.map fst m ++ [k]
        end
    end.
Proof.
  unfold dia_step. destruct (dataAposta d) as [[|c k]|]; try reflexivity.
  rewrite alist_adjust_keys.
  destruct (alist_get (c :: k) m) as [v|].
  - destruct (nfalsy v); [apply alist_adjust_keys | reflexivity].
  - rewrite map_app. reflexivity.
Qed.

Lemma dia_fold_keys_NoDup (data : list (record A)) :
  forall m,
    NoDup (List.map fst m) ->
    NoDup (List.map fst (fold_left dia_step data m)).
Proof.
  induction data as [|d data IH]; intros m Hm; [exact Hm|].
  cbn [fold_left]. apply IH. rewrite dia_step_keys.
  destruct (dataAposta d) as [[|c k]|]; try exact Hm.
  destruct (alist_get (c :: k) m) eqn:E; [exact Hm|].
  apply alist_get_None in E.
  apply NoDup_app; [exact Hm | constructor; [tauto | constructor]|].
  intros x Hx [<- | []]. exact (E Hx).
Qed.

Lemma dia_fold_keys_In (data : list (record A)) (k : jsstring) :
  forall m,
    In k (List.map fst (fold_left dia_step data m))
    <-> In k (List.map fst m)
        \/ exists d, In d data /\ dataAposta d = Some k /\ k <> [].
Proof.
  induction data as [|d data IH]; intros m; cbn [fold_left].
  - split; [tauto|]. intros [Hin | (d & [] & _)]. exact Hin.
  - rewrite IH, dia_step_keys. split.
    + intros [Hin | (d' & Hd' & Hk)].
      * destruct (dataAposta d) as [[|c k']|] eqn:Ed; try tauto.
        destruct (alist_get (c :: k') m) eqn:E; [tauto|].
        apply in_app_or in Hin. destruct Hin as [Hin | [<- | []]]; [tauto|].
        right. exists d. split; [left; reflexivity|].
        split; [exact Ed | discriminate].
      * right. exists d'. split; [right; exact Hd' | exact Hk].
    + intros [Hin | (d' & [<- | Hd'] & Hk & Hne)].
      * left. destruct (dataAposta d) as [[|c k']|]; try exact Hin.
        destruct (alist_get (c :: k') m); [exact Hin|].
        apply in_or_app. left. exact Hin.
      * left. rewrite Hk. destruct k as [|c k']; [congruence|].
        destruct (alist_get (c :: k') m) eqn:E.
        -- apply in_map_iff. exists (c :: k', a).
           split; [reflexivity | exact (alist_get_Some_In _ _ _ _ E)].
        -- apply in_or_app. right. left. reflexivity.
      * right. exists d'. tauto.
Qed.

End DayFacts.

(** X28: lucroPorDia has one element for each date that a record has,
    in ascending order of the dates; in exact arithmetic the profits of
    the days add up to the profit of the dated records. *)
Theorem profit_by_day :
  (forall (A : Type) (N : Num A) (data : list (record A))
          (grupos : list (grupo A)),
      let days := lucroPorDia (buildStatsFromData data grupos) in
      StronglySorted (@key_lt A) days
      /\ NoDup (List.map fst days)
      /\ forall k, In k (List.map fst days)
                   <-> exists d, In d data /\ dataAposta d = Some k
                                 /\ k <> [])
  /\ (forall (data : list (record Qc)) (grupos : list (grupo Qc)),
        total (List.map snd (lucroPorDia (buildStatsFromData data grupos)))
        = total (List.map lucro
                   (filter (fun d => negb (undated d)) data))).
Proof.
  split.
  - intros A N data grupos days. unfold days.
    cbn [lucroPorDia buildStatsFromData].
    set (M := fold_left dia_step data []).
    assert (Hnd : NoDup (List.map fst M))
      by (apply dia_fold_keys_NoDup; constructor).
    assert (Hp : Permutation (sort_by_date (own_entries M)) M).
    { rewrite sort_by_date_Permutation. apply own_entries_Permutation. }
    assert (Hnd' : NoDup (List.map fst (own_entries M))).
    { apply (Permutation_NoDup
               (Permutation_map fst
                  (Permutation_sym (own_entries_Permutation _ M)))).
      exact Hnd. }
    split; [apply sort_by_date_sorted, Hnd'|]. split.
    + apply (Permutation_NoDup
               (Permutation_map fst (Permutation_sym Hp))).
      exact Hnd.
    + intros k. split.
      * intros Hin.
        apply (Permutation_in _ (Permutation_map fst Hp)) in Hin.
        apply (dia_fold_keys_In data k []) in Hin.
        destruct Hin as [[] | Hd]. exact Hd.
      * intros Hd.
        apply (Permutation_in _ (Permutation_map fst (Permutation_sym Hp))).
        apply (dia_fold_keys_In data k []). right. exact Hd.
  - intros data grupos. cbn [lucroPorDia buildStatsFromData].
    rewrite !total_sumQ.
    rewrite (sumQ_Permutation _ _
               (Permutation_map snd
                  (sort_by_date_Permutation _ (own_entries _)))).
    rewrite (sumQ_Permutation _ _
               (Permutation_map snd (own_entries_Permutation _ _))).
    rewrite dia_fold_keyed.
    assert (H0 : forall d : record Qc, (fun v : Qc => v) 0%Qc = 0%Qc)
      by reflexivity.
    assert (Hu : forall (d : record Qc) (v : Qc),
               (fun v : Qc => v) ((v + lucro d)%Qc) = (v + lucro d)%Qc)
      by reflexivity.
    pose proof (msum_keyed_fold (record Qc) Qc undated date_key
                  (fun _ => 0%Qc) (fun d v => (v + lucro d)%Qc)
                  (fun v => v) lucro H0 Hu data []) as Hs.
    cbv beta in Hs.
    change (fun kv : jsstring * Qc => snd kv) with (@snd jsstring Qc) in Hs.
    rewrite Hs. cbn [List.map sumQ fold_right].
    apply Qcplus_0_l.
Qed.

(** *** Counts of the breakdowns *)

Section CountFacts.

Context {A : Type} `{Num A}.

Lemma list_sum_cons (x : nat) (l : list nat) :
  list_sum (x :: l) = (x + list_sum l)%nat.
Proof. reflexivity. Qed.

Local Abbreviation nsum :=
  (fun m : list (jsstring * acc A) =>
     list_sum (List.map (fun kv => entradas (snd kv)) m)).

Lemma nsum_adjust (k : jsstring) (f : acc A -> acc A)
    (m : list (jsstring * acc A)) :
  (forall o, entradas (f o) = entradas o + 1)%nat ->
  nsum (alist_adjust k f m)
  = match alist_get k m with
    | Some _ => (nsum m + 1)%nat
    | None => nsum m
    end.
Proof.
  intros Hf. cbv beta. induction m as [|[k' v] m IH]; [reflexivity|].
  cbn [alist_adjust alist_get]. destruct (str_eqb k k').
  - cbn [List.map snd]. rewrite !list_sum_cons, Hf. lia.
  - cbn [List.map snd]. rewrite !list_sum_cons, IH.
    destruct (alist_get k m); lia.
Qed.

Lemma nsum_item_step (m : list (jsstring * acc A)) (it : item) :
  nsum (item_step m it)
  = if item_skip it then nsum m else (nsum m + 1)%nat.
Proof.
  rewrite item_step_keyed. unfold keyed_step.
  destruct (item_skip it); [reflexivity|].
  rewrite nsum_adjust by reflexivity.
  rewrite alist_get_ensure, str_eqb_refl. cbv beta.
  unfold alist_ensure. destruct (alist_get (fst it) m); [reflexivity|].
  rewrite map_app, list_sum_app. simpl. lia.
Qed.

Lemma nsum_item_fold (items : list item) :
  forall m,
    nsum (fold_left item_step items m)
    = (nsum m
       + List.length (filter (fun it => negb (item_skip it)) items))%nat.
Proof.
  induction items as [|it items IH]; intros m; cbn [fold_left filter].
  - simpl. lia.
  - rewrite IH, nsum_item_step. cbv beta.
    destruct (item_skip it); cbn [negb List.length]; lia.
Qed.

Lemma list_sum_Permutation (l l' : list nat) :
  Permutation l l' -> list_sum l = list_sum l'.
Proof.
  induction 1; simpl; lia.
Qed.

Lemma entradas_finish (items : list item) :
  list_sum (List.map (@b_entradas A) (finish (fold_left item_step items [])))
  = List.length (filter (fun it => negb (item_skip it)) items).
Proof.
  unfold finish. rewrite map_map. cbn [b_entradas].
  rewrite (list_sum_Permutation _ _
             (Permutation_map (fun kv : jsstring * acc A => entradas (snd kv))
                (own_entries_Permutation _ _))).
  pose proof (nsum_item_fold items []) as Hs. cbv beta in Hs.
  rewrite Hs. reflexivity.
Qed.

End CountFacts.

Lemma filter_map_length (S T : Type) (f : S -> T) (p : T -> bool)
    (l : list S) :
  List.length (filter p (List.map f l))
  = List.length (filter (fun x => p (f x)) l).
Proof.
  induction l as [|x l IH]; [reflexivity|].
  cbn [List.map filter]. destruct (p (f x)); cbn [List.length];
    rewrite IH; reflexivity.
Qed.

Lemma filter_filter_length (T : Type) (p q : T -> bool) (l : list T) :
  List.length (filter p (filter q l))
  = List.length (filter (fun x => q x && p x) l).
Proof.
  induction l as [|x l IH]; [reflexivity|].
  cbn [filter]. destruct (q x); cbn [andb filter];
    [destruct (p x); cbn [List.length]|]; rewrite IH; reflexivity.
Qed.

(** X29: every entry is counted once under its operator, and every
    record once under its house and once under its sport when it names
    one: the counts of each breakdown add up to the number of entries,
    or of records, whose name is not that of an inherited property. *)
Theorem breakdown_counts_add_up (A : Type) (N : Num A)
    (data : list (record A)) (grupos : list (grupo A)) :
  let s := buildStatsFromData data grupos in
  list_sum (List.map (@b_entradas A) (porOperador s))
  = List.length
      (filter (fun g => negb (inherited (g_operador g))) grupos)
  /\ list_sum (List.map (@b_entradas A) (porCasa s))
     = List.length (filter (fun d => counted_name (casa d)) data)
  /\ list_sum (List.map (@b_entradas A) (porEsporte s))
     = List.length (filter (fun d => counted_name (esporte d)) data).
Proof.
  cbn [porOperador porCasa porEsporte buildStatsFromData].
  rewrite operador_fold_items, casa_fold_items, esporte_fold_items.
  rewrite !entradas_finish.
  unfold operador_items, casa_items, esporte_items, item_skip, counted_name.
  rewrite !filter_map_length. cbn [fst].
  rewrite !filter_filter_length. repeat split.
Qed.

(** *** Order of the breakdowns *)

Lemma filter_filter (T : Type) (p q : T -> bool) (l : list T) :
  filter p (filter q l) = filter (fun x => q x && p x) l.
Proof.
  induction l as [|x l IH]; [reflexivity|].
  cbn [filter]. destruct (q x); cbn [andb filter];
    [destruct (p x)|]; rewrite IH; reflexivity.
Qed.

Lemma not_in_keys (ks : list jsstring) (x : jsstring) :
  negb (existsb (str_eqb x) ks) = true <-> ~ In x ks.
Proof.
  rewrite negb_true_iff. split.
  - intros Hn Hin. assert (Ht : existsb (str_eqb x) ks = true).
    { apply existsb_exists. exists x. split; [exact Hin|].
      apply str_eqb_refl. }
    congruence.
  - intros Hn. apply not_true_iff_false. intros Ht.
    apply existsb_exists in Ht. destruct Ht as (y & Hy & E).
    apply str_eqb_eq in E. subst y. exact (Hn Hy).
Qed.

Section KeyOrder.

Variables (X V : Type).
Variable skip : X -> bool.
Variable key : X -> jsstring.
Variable init : X -> V.
Variable upd : X -> V -> V.

(** The keys of the dictionary after the loop: those it had, then the
    new ones in the order in which each first occurs. *)
Lemma keyed_fold_key_order (xs : list X) :
  forall m,
    List.map fst (fold_left (keyed_step skip key init upd) xs m)
    = List.map fst m
      ++ filter (fun k => negb (existsb (str_eqb k) (List.map fst m)))
           (first_occurrences
              (List.map key (filter (fun x => negb (skip x)) xs))).
Proof.
  induction xs as [|x xs IH]; intros m; cbn [fold_left filter].
  - cbn [List.map first_occurrences filter]. rewrite app_nil_r. reflexivity.
  - rewrite IH. unfold keyed_step at 1 2.
    destruct (skip x); cbn [negb]; [reflexivity|].
    rewrite alist_adjust_keys, alist_ensure_keys.
    cbn [List.map first_occurrences filter].
    destruct (alist_get (key x) m) eqn:E.
    + assert (Hin : existsb (str_eqb (key x)) (List.map fst m) = true).
      { apply existsb_exists. exists (key x). split; [|apply str_eqb_refl].
        exact (in_map fst _ _ (alist_get_Some_In _ _ _ _ E)). }
      rewrite Hin. cbn [negb]. f_equal. rewrite filter_filter.
      apply filter_ext_in. intros k _.
      destruct (str_eqb k (key x)) eqn:Ek; [|reflexivity].
      apply str_eqb_eq in Ek. subst k. rewrite Hin. reflexivity.
    + assert (Hout : existsb (str_eqb (key x)) (List.map fst m) = false).
      { apply not_true_iff_false. intros Ht. apply existsb_exists in Ht.
        destruct Ht as (y & Hy & Ey). apply str_eqb_eq in Ey. subst y.
        apply alist_get_None in E. exact (E Hy). }
      rewrite Hout. cbn [negb]. rewrite <- app_assoc. cbn [app].
      f_equal. f_equal. rewrite filter_filter.
      apply filter_ext. intros k. rewrite existsb_app. cbn [existsb].
      rewrite orb_false_r, negb_orb, andb_comm. reflexivity.
Qed.

End KeyOrder.

Lemma own_entries_no_index (V : Type) (m : list (jsstring * V)) :
  no_index_name (List.map fst m) -> own_entries m = m.
Proof.
  intros Hno. unfold own_entries.
  assert (Hi : forall kv, In kv m -> is_index kv = false).
  { intros kv Hkv. unfold is_index.
    unfold no_index_name in Hno. rewrite Forall_forall in Hno.
    rewrite (Hno (fst kv)); [reflexivity|]. apply in_map. exact Hkv. }
  assert (H1 : filter (@is_index V) m = []).
  { clear Hno. induction m as [|kv m IH]; [reflexivity|].
    cbn [filter]. rewrite (Hi kv) by (left; reflexivity).
    apply IH. intros kv' Hkv'. apply Hi. right. exact Hkv'. }
  assert (H2 : filter (fun kv => negb (is_index kv)) m = m).
  { apply filter_all, forallb_forall. intros kv Hkv.
    rewrite (Hi kv Hkv). reflexivity. }
  rewrite H1, H2. reflexivity.
Qed.

Lemma first_occurrences_incl (l : list jsstring) (k : jsstring) :
  In k (first_occurrences l) -> In k l.
Proof.
  induction l as [|x l IH]; [tauto|].
  cbn [first_occurrences]. intros [<- | Hin]; [left; reflexivity|].
  apply filter_In in Hin. right. apply IH. tauto.
Qed.

(** X30: when no house is named like an array index, porCasa lists the
    houses in the order in which each first occurs in the records. *)
Theorem porCasa_in_order_of_first_occurrence (A : Type) (N : Num A)
    (data : list (record A)) (grupos : list (grupo A)) :
  no_index_name (List.map casa data) ->
  List.map (@b_key A) (porCasa (buildStatsFromData data grupos))
  = first_occurrences (filter counted_name (List.map casa data)).
Proof.
  intros Hno. cbn [porCasa buildStatsFromData].
  rewrite casa_fold_items, finish_keys.
  assert (Hkeys : List.map fst (fold_left item_step (casa_items data) [])
                  = first_occurrences
                      (filter counted_name (List.map casa data))).
  { rewrite item_fold_keyed, keyed_fold_key_order.
    cbn [List.map app existsb negb]. rewrite filter_true.
    f_equal. unfold casa_items, item_skip, counted_name.
    induction data as [|d data IH]; [reflexivity|].
    cbn [List.map filter].
    inversion Hno; subst.
    destruct (str_eqb (casa d) []); cbn [negb andb List.map filter fst];
      [exact (IH H2)|].
    destruct (inherited (casa d)); cbn [negb List.map];
      [exact (IH H2) | f_equal; exact (IH H2)]. }
  rewrite own_entries_no_index; [exact Hkeys|].
  rewrite Hkeys. unfold no_index_name in *. rewrite Forall_forall in *.
  intros k Hk. apply Hno. apply first_occurrences_incl in Hk.
  apply filter_In in Hk. tauto.
Qed.

Lemma porCasa_in_order_of_first_occurrence_witness :
  let data := overview_data bets_sheet (request_for "1") rows_two_houses in
  no_index_name (List.map casa data)
  /\ List.map (@b_key float)
       (porCasa (buildStatsFromData data
                   (@group_entries float _ ascii_platform data)))
     = [js "A"; js "B"].
Proof.
  intros data.
  assert (Hno : no_index_name (List.map casa data))
    by (repeat constructor).
  split; [exact Hno|].
  exact (porCasa_in_order_of_first_occurrence float _ data _ Hno).
Defined.
